(** * Gravity: the server-side particle simulation and its broadcast server

    A shallow embedding of the authoritative physics server of the
    gravitational-lensing demo:

    - [ServerPhysicsSimulation] (server-physics.js), in its two variants: the
      one with the simplified radial prism ([Basic]) and the one with the
      colour-modulated prism ([Prismatic]);
    - the WebSocket server that owns one simulation, registers one player per
      connection and broadcasts the state ([Server]).

    JavaScript numbers are IEEE-754 binary64 values: they are modelled by
    Rocq's primitive floats, so that [NaN], the two zeros and the rounding of
    every operation are the ones the program sees.  Where the program computes
    with a value whose type it does not check (the [count] of a message,
    [options.particleCount]), the value is a [JS.value].  Quantities that
    are integers by construction (the ids the server's counter hands out,
    [Date.now()] timestamps, the update counter) are modelled in [N] and [Z].

    A [TypeError] ends a call half-way: what the call has written by then
    stays written, because the objects are updated in place.  Calls that can
    throw return a [Completion], which carries the state in both cases.

    What the engine supplies is a parameter of the model: [Math.cos],
    [Math.sin] and [Math.pow] form a [Host], and [Math.random] is a tape of
    draws ([Rng]) that the code consumes in program order.  General
    properties hold for every host and every tape; concrete runs use the
    reference host [RefHost]. *)

From Stdlib Require Import ZArith NArith List Bool Lia String Floats.
From Stdlib Require Import DecimalString Sorted.
Import ListNotations.

Set Warnings "-inexact-float".

(* ================================================================== *)
(** ** JavaScript numbers *)

Module JS.

Local Open Scope float_scope.

(** [ToBoolean] on a number: [0], [-0] and [NaN] are falsy. *)
Definition truthy (v : float) : bool :=
  negb (is_nan v || is_zero v).

(** [a || b] when the left operand is a number that may be absent
    ([undefined] is falsy). *)
Definition or_else (a : option float) (b : float) : float :=
  match a with
  | Some v => if truthy v then v else b
  | None => b
  end.

(** [Math.min] and [Math.max] (ECMA-262 21.3.2.24/25): [NaN] if an argument
    is [NaN]; [-0] counts as smaller than [+0]. *)
Definition Math_min (a b : float) : float :=
  if is_nan a || is_nan b then nan
  else if a <? b then a
  else if b <? a then b
  else if is_zero a then - ((- a) + (- b))
  else a.

Definition Math_max (a b : float) : float :=
  if is_nan a || is_nan b then nan
  else if a <? b then b
  else if b <? a then a
  else if is_zero a then a + b
  else a.

Definition Math_sqrt (v : float) : float := sqrt v.
Definition Math_abs (v : float) : float := abs v.
Definition Math_PI : float := 3.141592653589793.

(** 2^52: from there on every binary64 value is an integer. *)
Definition two52 : float := 4503599627370496.

(** [Math.floor]: adding and subtracting 2^52 rounds to the nearest
    integer, which is then corrected downwards. *)
Definition Math_floor (v : float) : float :=
  if is_nan v then v
  else if two52 <=? abs v then v
  else if is_zero v then v
  else
    let r := if 0 <? v then (v + two52) - two52
             else - (((- v) + two52) - two52) in
    if v <? r then r - 1 else r.

(** A number is finite when it is neither [NaN] nor an infinity. *)
Definition finite (v : float) : bool := is_finite v.

(** A value whose type the program does not check, where it expects a
    number (a field of a parsed message).  The program does two things with
    it: it tests it ([ToBoolean]) and it computes with it ([ToNumber]).  A
    number is [Num n]; any other value (a string, a boolean, [null], an array,
    an object) is given by the results of the two conversions: ["600"] is
    [NotNum true 600], ["abc"] and [{}] are [NotNum true NaN], ["0"] and [[]]
    are [NotNum true 0], [""], [false] and [null] are [NotNum false 0]. *)
Inductive value : Type :=
| Num (n : float)
| NotNum (toBoolean : bool) (toNumber : float).

Definition ToBoolean (v : value) : bool :=
  match v with
  | Num n => truthy n
  | NotNum b _ => b
  end.

Definition ToNumber (v : value) : float :=
  match v with
  | Num n => n
  | NotNum _ n => n
  end.

(** [a || b] when the left operand is such a value, or absent. *)
Definition or_default (a : option value) (b : float) : value :=
  match a with
  | Some v => if ToBoolean v then v else Num b
  | None => Num b
  end.

(** The number of iterations of [for (let i = 0; i < count; i++)]: one for
    every integer [i] with [0 <= i < count].  That is none when [count] is
    [NaN], a zero or negative, and [count] rounded up to an integer
    otherwise; the binary64 value [m * 2^e] is rounded up in [Z].  (The loop
    counter is exact up to 2^53 and an array holds up to 2^32 - 1 elements:
    for a larger count, and for [Infinity], the loops of the program that
    push to an array do not run to their end.  [fits] in the properties
    names the counts for which they do.) *)
Definition iterations (count : float) : nat :=
  match Prim2SF count with
  | S754_finite false m e =>
      match e with
      | Zneg p => Z.to_nat (- ((- Zpos m) / 2 ^ Zpos p))
      | _ => Z.to_nat (Zpos m * 2 ^ e)
      end
  | _ => O
  end.

(** [ToNumber] on an integer-valued quantity (exact below 2^53). *)
Definition of_Z (z : Z) : float :=
  match z with
  | Z0 => 0
  | Zpos _ => of_uint63 (Uint63.of_Z z)
  | Zneg _ => - of_uint63 (Uint63.of_Z (- z))
  end.

End JS.

(* ================================================================== *)
(** ** The host: what the JavaScript engine provides

    [Math.cos], [Math.sin] and [Math.pow] are implementation-approximated
    (ECMA-262 21.3.2); they are a parameter of the model.  [Math.random] is a
    tape of draws that the program consumes in order. *)

Record Host : Type := mkHost {
  Math_cos : float -> float;
  Math_sin : float -> float;
  Math_pow : float -> float -> float
}.

Record Rng : Type := mkRng {
  tape : nat -> float;
  cursor : nat
}.

(** [Math.random()]: the next draw and the advanced generator. *)
Definition random (g : Rng) : float * Rng :=
  (tape g (cursor g), {| tape := tape g; cursor := S (cursor g) |}).

(** A reference host, used to run the model on concrete inputs: truncated
    power series, exact at the arguments where ECMA-262 fixes the result
    ([cos 0 = 1], [sin 0 = 0], [pow x 0 = 1]) and accurate to about fifteen
    significant digits on the ranges this program feeds them (angles in
    [[0, 2*pi)], damping bases close to 1, exponents in [[0, 2]]). *)
Module RefHost.

Local Open Scope float_scope.

(** [sum + t0 + t1 + ...] with [t(k+1) = - t(k) * x2 / ((n+1)*(n+2))],
    [n] advancing by 2. *)
Fixpoint alt_series (fuel : nat) (x2 n term sum : float) : float :=
  match fuel with
  | O => sum
  | S fuel' =>
      let term' := - (term * x2) / ((n + 1) * (n + 2)) in
      alt_series fuel' x2 (n + 2) term' (sum + term)
  end.

Definition reduce (v : float) : float :=
  if JS.Math_PI <? v then v - JS.Math_PI * 2 else v.

Definition cos (v : float) : float :=
  let r := reduce v in alt_series 16 (r * r) 0 1 0.

Definition sin (v : float) : float :=
  let r := reduce v in alt_series 16 (r * r) 1 r 0.

(** [2 * atanh z = 2 * (z + z^3/3 + z^5/5 + ...)], the logarithm of
    [(1+z)/(1-z)]. *)
Fixpoint atanh_series (fuel : nat) (z2 n pw sum : float) : float :=
  match fuel with
  | O => sum
  | S fuel' => atanh_series fuel' z2 (n + 2) (pw * z2) (sum + pw / n)
  end.

Definition ln (b : float) : float :=
  let z := (b - 1) / (b + 1) in
  2 * atanh_series 40 (z * z) 1 z 0.

Fixpoint exp_series (fuel : nat) (v n term sum : float) : float :=
  match fuel with
  | O => sum
  | S fuel' => exp_series fuel' v (n + 1) (term * v / n) (sum + term)
  end.

Definition exp (v : float) : float := exp_series 30 v 1 1 0.

Definition pow (b e : float) : float :=
  if is_zero e then 1
  else if is_nan b || is_nan e then nan
  else if b <? 0 then nan
  else if is_zero b then (if 0 <? e then 0 else infinity)
  else exp (e * ln b).

Definition host : Host :=
  {| Math_cos := cos; Math_sin := sin; Math_pow := pow |}.

End RefHost.

(* ================================================================== *)
(** ** How a call ends

    [Normal a]: the call returns.  [Throw a]: a [TypeError] leaves the call
    half-way.  In both cases [a] is what the call has written by then. *)

Inductive Completion (A : Type) : Type :=
| Normal (a : A)
| Throw (a : A).

Arguments Normal {A} a.
Arguments Throw {A} a.

(** What the call has written, however it ended. *)
Definition written {A : Type} (c : Completion A) : A :=
  match c with
  | Normal a => a
  | Throw a => a
  end.

Definition returns {A : Type} (c : Completion A) : bool :=
  match c with
  | Normal _ => true
  | Throw _ => false
  end.

(** A loop over a list ([for ... in], [forEach]) whose body may throw: the
    first throw ends the loop. *)
Fixpoint each {A B : Type} (body : A -> B -> Completion A) (l : list B) (a : A)
  : Completion A :=
  match l with
  | [] => Normal a
  | b :: l' =>
      match body a b with
      | Normal a' => each body l' a'
      | Throw a' => Throw a'
      end
  end.

(* ================================================================== *)
(** ** Plain data *)

(** [{x, y}]: a particle position, a velocity, a player's gravity point. *)
Module Vec.
Record t : Type := mk { x : float; y : float }.
Definition finite (p : t) : bool := JS.finite (x p) && JS.finite (y p).
End Vec.

(** [{r, g, b}]: the colour drawn for a particle by the prismatic variant. *)
Module Color.
Record t : Type := mk { r : float; g : float; b : float }.
End Color.

(** A JavaScript object used as a map from integer ids (the values of the
    server's [nextPlayerId] counter): [for ... in], [Object.keys] and
    [Object.values] enumerate integer keys in ascending order, so the object
    is an association list kept sorted by key.  The order matters: it is the
    order in which the forces of the players are added up. *)
Module Registry.

Set Implicit Arguments.

Section WithValue.
Variable A : Type.

Definition t : Type := list (N * A).

(** [obj[k]] *)
Fixpoint get (k : N) (m : t) : option A :=
  match m with
  | [] => None
  | (k', v) :: m' => if (k' =? k)%N then Some v else get k m'
  end.

(** [obj[k] = v] *)
Fixpoint set (k : N) (v : A) (m : t) : t :=
  match m with
  | [] => [(k, v)]
  | (k', v') :: m' =>
      if (k =? k')%N then (k, v) :: m'
      else if (k <? k')%N then (k, v) :: (k', v') :: m'
      else (k', v') :: set k v m'
  end.

(** [delete obj[k]] *)
Fixpoint delete (k : N) (m : t) : t :=
  match m with
  | [] => []
  | (k', v') :: m' =>
      if (k' =? k)%N then m' else (k', v') :: delete k m'
  end.

Definition keys (m : t) : list N := map fst m.
Definition values (m : t) : list A := map snd m.

End WithValue.

Unset Implicit Arguments.

End Registry.

(* ================================================================== *)
(** ** The simulation object *)

(** [this.options].  [particleCount] is kept as it was passed, whatever
    its type; the other options are numbers. *)
Module Options.
Record t : Type := mk {
  particleCount : JS.value;
  particleSpread : float;
  initialSpeed : float;
  velocityDamping : float;
  gravityStrength : float;
  updateRate : float;
  maxPlayers : float;
  prismRadius : float
}.

Definition with_particleCount (n : JS.value) (o : t) : t :=
  mk n (particleSpread o) (initialSpeed o) (velocityDamping o)
     (gravityStrength o) (updateRate o) (maxPlayers o) (prismRadius o).
End Options.

(** The [options] argument of the constructor: every field may be absent. *)
Module OptionsArg.
Record t : Type := mk {
  particleCount : option JS.value;
  particleSpread : option float;
  initialSpeed : option float;
  velocityDamping : option float;
  gravityStrength : option float;
  updateRate : option float;
  maxPlayers : option float;
  prismRadius : option float
}.
Definition empty : t := mk None None None None None None None None.
End OptionsArg.

(** A player's gravity-well record.  [addPlayer] writes the first five
    fields; [prismDispersion] exists only once [updatePlayerParams] has
    assigned it.  [position] is whatever was last assigned, unchecked: [None]
    stands for [undefined] and [null], off which no [x] can be read; any
    other value is given by the two numbers that its [x] and [y] convert
    to. *)
Module Player.
Record t : Type := mk {
  position : option Vec.t;
  gravityStrength : float;
  prismRadius : float;
  lensingStrength : float;
  prismStrength : float;
  prismDispersion : option float
}.
End Player.

(** A partial parameter record: [initialParams] of [addPlayer], [params] of
    [updatePlayerParams], the [params] field of an [updateParams] message, the
    [data] of a [playerUpdate] frame.  A field is [None] when the object has
    no such key; [position] is [Some None] when the key is there and holds
    [undefined] or [null]. *)
Module Params.
Record t : Type := mk {
  position : option (option Vec.t);
  gravityStrength : option float;
  prismRadius : option float;
  lensingStrength : option float;
  prismStrength : option float;
  prismDispersion : option float
}.
Definition empty : t := mk None None None None None None.
End Params.

(** The fields of a [ServerPhysicsSimulation].  [updateInterval] is the
    handle of the running timer: it is set exactly when [running] is, and
    [lastUpdateTime] is the variable the timer callback closes over.
    [colors] and [particleVirtualColors] are used by the prismatic variant
    only; the latter is [None] until the array is first created, and an
    element is [None] where the array has a hole. *)
Module Sim.
Record t : Type := mk {
  options : Options.t;
  particles : list Vec.t;
  velocities : list Vec.t;
  colors : list Color.t;
  players : Registry.t Player.t;
  running : bool;
  lastUpdateTime : Z;
  simulationTime : float;
  particleVirtualColors : option (list (option float))
}.

Definition with_options (o : Options.t) (s : t) : t :=
  mk o (particles s) (velocities s) (colors s) (players s) (running s)
     (lastUpdateTime s) (simulationTime s) (particleVirtualColors s).

Definition with_players (m : Registry.t Player.t) (s : t) : t :=
  mk (options s) (particles s) (velocities s) (colors s) m (running s)
     (lastUpdateTime s) (simulationTime s) (particleVirtualColors s).

Definition with_pool (ps vs : list Vec.t) (cs : list Color.t) (s : t) : t :=
  mk (options s) ps vs cs (players s) (running s)
     (lastUpdateTime s) (simulationTime s) (particleVirtualColors s).

Definition with_running (b : bool) (s : t) : t :=
  mk (options s) (particles s) (velocities s) (colors s) (players s) b
     (lastUpdateTime s) (simulationTime s) (particleVirtualColors s).

Definition with_lastUpdateTime (now : Z) (s : t) : t :=
  mk (options s) (particles s) (velocities s) (colors s) (players s)
     (running s) now (simulationTime s) (particleVirtualColors s).

Definition with_simulationTime (time : float) (s : t) : t :=
  mk (options s) (particles s) (velocities s) (colors s) (players s)
     (running s) (lastUpdateTime s) time (particleVirtualColors s).

Definition with_virtualColors (c : option (list (option float))) (s : t) : t :=
  mk (options s) (particles s) (velocities s) (colors s) (players s)
     (running s) (lastUpdateTime s) (simulationTime s) c.
End Sim.

(** What [getState()] returns. *)
Module State.
Record t : Type := mk {
  particles : list Vec.t;
  players : Registry.t Player.t;
  simulationTime : float
}.
End State.

(** *** The player registry (identical in both variants) *)

Section PlayerRegistry.

Local Open Scope float_scope.

(** [addPlayer(playerId, initialParams = {})] *)
Definition addPlayer (playerId : N) (initialParams : Params.t) (s : Sim.t)
  : Player.t * Sim.t :=
  let o := Sim.options s in
  let record :=
    {| Player.position :=
         match Params.position initialParams with
         | Some (Some p) => Some p
         | _ => Some (Vec.mk 0 0)
         end;
       Player.gravityStrength :=
         JS.or_else (Params.gravityStrength initialParams)
                    (Options.gravityStrength o * 1.5);
       Player.prismRadius :=
         JS.or_else (Params.prismRadius initialParams) (Options.prismRadius o);
       Player.lensingStrength :=
         JS.or_else (Params.lensingStrength initialParams) 3.0;
       Player.prismStrength :=
         JS.or_else (Params.prismStrength initialParams) 2.0;
       Player.prismDispersion := None |} in
  (record, Sim.with_players (Registry.set playerId record (Sim.players s)) s).

(** [removePlayer(playerId)] *)
Definition removePlayer (playerId : N) (s : Sim.t) : bool * Sim.t :=
  match Registry.get playerId (Sim.players s) with
  | Some _ =>
      (true, Sim.with_players (Registry.delete playerId (Sim.players s)) s)
  | None => (false, s)
  end.

(** [updatePlayerPosition(playerId, position)] *)
Definition updatePlayerPosition (playerId : N) (position : option Vec.t) (s : Sim.t)
  : bool * Sim.t :=
  match Registry.get playerId (Sim.players s) with
  | Some pl =>
      let pl' := Player.mk position (Player.gravityStrength pl)
                   (Player.prismRadius pl) (Player.lensingStrength pl)
                   (Player.prismStrength pl) (Player.prismDispersion pl) in
      (true, Sim.with_players (Registry.set playerId pl' (Sim.players s)) s)
  | None => (false, s)
  end.

Definition assign {A : Type} (new : option A) (old : A) : A :=
  match new with Some v => v | None => old end.

(** [Object.assign(player, params)]: every field present in [params]
    overwrites the player's. *)
Definition Object_assign (pl : Player.t) (params : Params.t) : Player.t :=
  {| Player.position := assign (Params.position params) (Player.position pl);
     Player.gravityStrength :=
       assign (Params.gravityStrength params) (Player.gravityStrength pl);
     Player.prismRadius :=
       assign (Params.prismRadius params) (Player.prismRadius pl);
     Player.lensingStrength :=
       assign (Params.lensingStrength params) (Player.lensingStrength pl);
     Player.prismStrength :=
       assign (Params.prismStrength params) (Player.prismStrength pl);
     Player.prismDispersion :=
       match Params.prismDispersion params with
       | Some v => Some v
       | None => Player.prismDispersion pl
       end |}.

(** [updatePlayerParams(playerId, params)] *)
Definition updatePlayerParams (playerId : N) (params : Params.t) (s : Sim.t)
  : bool * Sim.t :=
  match Registry.get playerId (Sim.players s) with
  | Some pl =>
      (true,
       Sim.with_players
         (Registry.set playerId (Object_assign pl params) (Sim.players s)) s)
  | None => (false, s)
  end.

(** [getState()] *)
Definition getState (s : Sim.t) : State.t :=
  {| State.particles := Sim.particles s;
     State.players := Sim.players s;
     State.simulationTime := Sim.simulationTime s |}.

End PlayerRegistry.

(* ================================================================== *)
(** ** Code shared by the two variants of [updatePhysics] and
       [initParticles]

    The blocks below are textually the same in both source files. *)

Section SharedPhysics.

Local Open Scope float_scope.

Variable h : Host.

(** [Math.min(deltaTime / (1000/60), 2.0)] *)
Definition timeScale (deltaTime : float) : float :=
  JS.Math_min (deltaTime / (1000 / 60)) 2.0.

(** The placement of one new particle in [initParticles]: position and
    initial velocity. *)
Definition placeParticle (o : Options.t) (g : Rng) : Vec.t * Vec.t * Rng :=
  let '(u1, g) := random g in
  let '(radius, g) :=
    if u1 <? 0.7 then
      let '(u2, g) := random g in
      (Options.prismRadius o * 0.5
         + Options.particleSpread o * JS.Math_sqrt (u2 * 0.8), g)
    else
      let '(u2, g) := random g in
      (Options.prismRadius o * JS.Math_sqrt u2, g) in
  let '(u3, g) := random g in
  let theta := u3 * JS.Math_PI * 2 in
  let particle := Vec.mk (radius * Math_cos h theta) (radius * Math_sin h theta) in
  if 0.1 <? radius then
    let perpX := - Vec.y particle / radius in
    let perpY := Vec.x particle / radius in
    let '(u4, g) := random g in
    let speed := Options.initialSpeed o * (0.8 + u4 * 0.4) in
    (particle, Vec.mk (perpX * speed) (perpY * speed), g)
  else
    let '(u4, g) := random g in
    let vx := u4 * Options.initialSpeed o - Options.initialSpeed o / 2 in
    let '(u5, g) := random g in
    let vy := u5 * Options.initialSpeed o - Options.initialSpeed o / 2 in
    (particle, Vec.mk vx vy, g).

(** "Apply weak gravity toward center of simulation": the new velocity. *)
Definition centralGravity (o : Options.t) (ts : float) (particle velocity : Vec.t)
  : Vec.t :=
  let toCenterX := - Vec.x particle in
  let toCenterY := - Vec.y particle in
  let centerDist := JS.Math_sqrt (toCenterX * toCenterX + toCenterY * toCenterY) in
  if 1.0 <? centerDist then
    let centralForce :=
      0.01 * Options.gravityStrength o / (centerDist * centerDist) * ts in
    Vec.mk (Vec.x velocity + toCenterX / centerDist * centralForce)
           (Vec.y velocity + toCenterY / centerDist * centralForce)
  else velocity.

(** "Apply velocity damping" *)
Definition damp (o : Options.t) (ts : float) (velocity : Vec.t) : Vec.t :=
  Vec.mk (Vec.x velocity * Math_pow h (Options.velocityDamping o) ts)
         (Vec.y velocity * Math_pow h (Options.velocityDamping o) ts).

(** "Update position based on velocity" *)
Definition advance (ts : float) (particle velocity : Vec.t) : Vec.t :=
  Vec.mk (Vec.x particle + Vec.x velocity * ts)
         (Vec.y particle + Vec.y velocity * ts).

(** The respawn branch of the boundary check. *)
Definition respawn (o : Options.t) (g : Rng) : Vec.t * Vec.t * Rng :=
  let '(u1, g) := random g in
  let newRadius := Options.particleSpread o * JS.Math_sqrt u1 in
  let '(u2, g) := random g in
  let newAngle := u2 * JS.Math_PI * 2 in
  let particle :=
    Vec.mk (newRadius * Math_cos h newAngle) (newRadius * Math_sin h newAngle) in
  let perpX := - Vec.y particle / newRadius in
  let perpY := Vec.x particle / newRadius in
  let '(u3, g) := random g in
  let speed := Options.initialSpeed o * (0.8 + u3 * 0.4) in
  (particle, Vec.mk (perpX * speed) (perpY * speed), g).

(** The bounce branch of the boundary check.  The normal is computed from
    the position that has already been pulled back inside. *)
Definition bounce (maxDistance distanceFromCenter : float)
           (particle velocity : Vec.t) : Vec.t * Vec.t :=
  let factor := maxDistance / distanceFromCenter in
  let particle' := Vec.mk (Vec.x particle * factor * 0.9)
                          (Vec.y particle * factor * 0.9) in
  let normalX := - Vec.x particle' / distanceFromCenter in
  let normalY := - Vec.y particle' / distanceFromCenter in
  let dot := Vec.x velocity * normalX + Vec.y velocity * normalY in
  (particle',
   Vec.mk ((Vec.x velocity - 2 * dot * normalX) * 0.5)
          ((Vec.y velocity - 2 * dot * normalY) * 0.5)).

(** "Boundary check - wrap particles that go too far away" *)
Definition boundary (o : Options.t) (particle velocity : Vec.t) (g : Rng)
  : Vec.t * Vec.t * Rng :=
  let maxDistance := Options.particleSpread o * 2 in
  let distanceFromCenter :=
    JS.Math_sqrt (Vec.x particle * Vec.x particle + Vec.y particle * Vec.y particle) in
  if maxDistance <? distanceFromCenter then
    let '(u, g) := random g in
    if u <? 0.3 then respawn o g
    else
      let '(particle', velocity') :=
        bounce maxDistance distanceFromCenter particle velocity in
      (particle', velocity', g)
  else (particle, velocity, g).

(** The pull of one player on one particle, before any prism term: gravity
    plus lensing along the unit vector towards the player. *)
Definition playerPull (ts : float) (player : Player.t)
           (toPlayerX toPlayerY playerDist : float) (velocity : Vec.t) : Vec.t :=
  let gravityForce :=
    Player.gravityStrength player / JS.Math_max (playerDist * 0.1) 0.5 * ts in
  let lensingForce :=
    Player.lensingStrength player / JS.Math_max (playerDist * 0.05) 0.1 * ts in
  let totalForce := gravityForce + lensingForce in
  let norm := 1 / playerDist in
  Vec.mk (Vec.x velocity + toPlayerX * norm * totalForce)
         (Vec.y velocity + toPlayerY * norm * totalForce).

(** The constructor's defaulting of [options]. *)
Definition defaultOptions (a : OptionsArg.t) : Options.t :=
  {| Options.particleCount := JS.or_default (OptionsArg.particleCount a) 2000;
     Options.particleSpread := JS.or_else (OptionsArg.particleSpread a) 800;
     Options.initialSpeed := JS.or_else (OptionsArg.initialSpeed a) 5.0;
     Options.velocityDamping := JS.or_else (OptionsArg.velocityDamping a) 0.98;
     Options.gravityStrength := JS.or_else (OptionsArg.gravityStrength a) 1.0;
     Options.updateRate := JS.or_else (OptionsArg.updateRate a) 30;
     Options.maxPlayers := JS.or_else (OptionsArg.maxPlayers a) 20;
     Options.prismRadius := JS.or_else (OptionsArg.prismRadius a) 50 |}.

(** The state the constructor sets up before it calls [initParticles]. *)
Definition blank (a : OptionsArg.t) : Sim.t :=
  {| Sim.options := defaultOptions a;
     Sim.particles := [];
     Sim.velocities := [];
     Sim.colors := [];
     Sim.players := [];
     Sim.running := false;
     Sim.lastUpdateTime := 0%Z;
     Sim.simulationTime := 0;
     Sim.particleVirtualColors := None |}.

End SharedPhysics.

(* ================================================================== *)
(** ** The variant with the simplified prism *)

Module Basic.

Section WithHost.

Local Open Scope float_scope.

Variable h : Host.

(** The loop of [initParticles]: [count] placements, pushed in order. *)
Fixpoint placeAll (o : Options.t) (count : nat) (g : Rng)
  : list Vec.t * list Vec.t * Rng :=
  match count with
  | O => ([], [], g)
  | S count' =>
      let '(particle, velocity, g) := placeParticle h o g in
      let '(ps, vs, g) := placeAll o count' g in
      (particle :: ps, velocity :: vs, g)
  end.

(** [initParticles()] *)
Definition initParticles (s : Sim.t) (g : Rng) : Sim.t * Rng :=
  let o := Sim.options s in
  let count := JS.ToNumber (Options.particleCount o) in
  let '(ps, vs, g) := placeAll o (JS.iterations count) g in
  (Sim.with_pool ps vs (Sim.colors s) s, g).

(** [new ServerPhysicsSimulation(options)] *)
Definition construct (a : OptionsArg.t) (g : Rng) : Sim.t * Rng :=
  initParticles (blank a) g.

(** "Simplified prism effect for particles near player's prism": only
    the inside of the prism pushes. *)
Definition prism (ts : float) (player : Player.t)
           (toPlayerX toPlayerY playerDist : float) (velocity : Vec.t) : Vec.t :=
  if playerDist <? Player.prismRadius player * 1.5 then
    if playerDist <? Player.prismRadius player then
      let normalizedDist := playerDist / Player.prismRadius player in
      let strength := JS.or_else (Some (Player.prismStrength player)) 2.0 in
      let prismForce := 0.2 * normalizedDist * ts * strength in
      let norm := 1 / playerDist in
      Vec.mk (Vec.x velocity - toPlayerX * norm * prismForce)
             (Vec.y velocity - toPlayerY * norm * prismForce)
    else velocity
  else velocity.

(** The body of "Apply each player's gravity" for one player.  Reading
    [player.position.x] throws when the player has no position. *)
Definition applyPlayer (ts : float) (particle : Vec.t) (velocity : Vec.t)
           (player : Player.t) : Completion Vec.t :=
  match Player.position player with
  | None => Throw velocity
  | Some position =>
      let toPlayerX := Vec.x position - Vec.x particle in
      let toPlayerY := Vec.y position - Vec.y particle in
      let playerDist :=
        JS.Math_sqrt (toPlayerX * toPlayerX + toPlayerY * toPlayerY) in
      Normal
        (if 0.1 <? playerDist then
           prism ts player toPlayerX toPlayerY playerDist
                 (playerPull ts player toPlayerX toPlayerY playerDist velocity)
         else velocity)
  end.

(** One iteration of the particle loop of [updatePhysics].  When the
    player loop throws, the velocity keeps what had been added to it and the
    position has not been touched. *)
Definition updateParticle (o : Options.t) (ts : float)
           (players : Registry.t Player.t)
           (particle velocity : Vec.t) (g : Rng)
  : Completion (Vec.t * Vec.t * Rng) :=
  let velocity := centralGravity o ts particle velocity in
  match each (applyPlayer ts particle) (Registry.values players) velocity with
  | Throw velocity => Throw (particle, velocity, g)
  | Normal velocity =>
      let velocity := damp h o ts velocity in
      let particle := advance ts particle velocity in
      Normal (boundary h o particle velocity g)
  end.

(** The particle loop.  [particles] and [velocities] are parallel arrays
    that [initParticles] fills together and that nothing else resizes; the
    loop pairs them up.  (On arrays of different lengths the source would
    raise a [TypeError] at [velocity.x]; no simulation gets there, see
    [initParticles_length] and [updatePhysics_length].) *)
Fixpoint updateParticles (o : Options.t) (ts : float)
         (players : Registry.t Player.t)
         (ps vs : list Vec.t) (g : Rng)
  : Completion (list Vec.t * list Vec.t * Rng) :=
  match ps, vs with
  | particle :: ps', velocity :: vs' =>
      match updateParticle o ts players particle velocity g with
      | Throw (particle, velocity, g) => Throw (particle :: ps', velocity :: vs', g)
      | Normal (particle, velocity, g) =>
          match updateParticles o ts players ps' vs' g with
          | Normal (ps'', vs'', g) => Normal (particle :: ps'', velocity :: vs'', g)
          | Throw (ps'', vs'', g) => Throw (particle :: ps'', velocity :: vs'', g)
          end
      end
  | _, _ => Normal (ps, vs, g)
  end.

(** [updatePhysics(deltaTime)].  The simulation time is advanced after the
    loop: not when the loop throws. *)
Definition updatePhysics (deltaTime : float) (s : Sim.t) (g : Rng)
  : Completion (Sim.t * Rng) :=
  let ts := timeScale deltaTime in
  match updateParticles (Sim.options s) ts (Sim.players s)
                        (Sim.particles s) (Sim.velocities s) g with
  | Normal (ps, vs, g) =>
      Normal (Sim.with_simulationTime (Sim.simulationTime s + deltaTime)
                (Sim.with_pool ps vs (Sim.colors s) s), g)
  | Throw (ps, vs, g) => Throw (Sim.with_pool ps vs (Sim.colors s) s, g)
  end.

End WithHost.

End Basic.

(* ================================================================== *)
(** ** The variant with the colour-modulated prism *)

(** [this.particleVirtualColors]: a JavaScript array of numbers, possibly
    with holes. *)
Module VirtualColors.

Definition t : Type := list (option float).

(** [a[i]]: [undefined] in a hole and past the end. *)
Definition get (i : nat) (a : t) : option float := nth i a None.

(** [a[i] = v]: past the end the array grows, leaving holes. *)
Fixpoint set (i : nat) (v : float) (a : t) : t :=
  match i, a with
  | O, [] => [Some v]
  | O, _ :: a' => Some v :: a'
  | S i', [] => None :: set i' v []
  | S i', e :: a' => e :: set i' v a'
  end.

End VirtualColors.

Module Prismatic.

Section WithHost.

Local Open Scope float_scope.

Variable h : Host.

(** The loop of [initParticles]: placement, then the three colour
    components. *)
Fixpoint placeAll (o : Options.t) (count : nat) (g : Rng)
  : list Vec.t * list Vec.t * list Color.t * Rng :=
  match count with
  | O => ([], [], [], g)
  | S count' =>
      let '(particle, velocity, g) := placeParticle h o g in
      let '(cr, g) := random g in
      let '(cg, g) := random g in
      let '(cb, g) := random g in
      let '(ps, vs, cs, g) := placeAll o count' g in
      (particle :: ps, velocity :: vs, Color.mk cr cg cb :: cs, g)
  end.

(** [initParticles()].  [particleVirtualColors] is left as it is. *)
Definition initParticles (s : Sim.t) (g : Rng) : Sim.t * Rng :=
  let o := Sim.options s in
  let count := JS.ToNumber (Options.particleCount o) in
  let '(ps, vs, cs, g) := placeAll o (JS.iterations count) g in
  (Sim.with_pool ps vs cs s, g).

(** [new ServerPhysicsSimulation(options)] *)
Definition construct (a : OptionsArg.t) (g : Rng) : Sim.t * Rng :=
  initParticles (blank a) g.

(** The body of the first player loop, "For each player, calculate
    color-based prismatic forces".  Reading [player.position.x] throws when
    the player has no position. *)
Definition disperse (ts : float) (particle : Vec.t) (color : Color.t)
           (vg : Vec.t * Rng) (player : Player.t) : Completion (Vec.t * Rng) :=
  let '(velocity, g) := vg in
  match Player.position player with
  | None => Throw (velocity, g)
  | Some position =>
    Normal (
      let toCenterX := Vec.x position - Vec.x particle in
      let toCenterY := Vec.y position - Vec.y particle in
      let centerDist := JS.Math_sqrt (toCenterX * toCenterX + toCenterY * toCenterY) in
      if centerDist <? Player.prismRadius player * 1.5 then
        let dirX := toCenterX / centerDist in
        let dirY := toCenterY / centerDist in
        let dispersionForce :=
          if centerDist <? Player.prismRadius player then
            let normalizedDist := centerDist / Player.prismRadius player in
            Player.prismStrength player * 2.0 * normalizedDist
          else
            let outsideDistance := centerDist - Player.prismRadius player in
            let falloff :=
              JS.Math_max 0 (1 - outsideDistance / (Player.prismRadius player * 0.5)) in
            - Player.prismStrength player * 0.5 * falloff in
        let dispersionMultiplier := Player.lensingStrength player * 1.5 in
        let rForce := dispersionForce * (1.0 - dispersionMultiplier * 0.8) in
        let gForce := dispersionForce in
        let bForce := dispersionForce * (1.0 + dispersionMultiplier * 1.0) in
        let redDominance :=
          Color.r color / JS.Math_max 0.01 (JS.Math_max (Color.g color) (Color.b color)) in
        let greenDominance :=
          Color.g color / JS.Math_max 0.01 (JS.Math_max (Color.r color) (Color.b color)) in
        let blueDominance :=
          Color.b color / JS.Math_max 0.01 (JS.Math_max (Color.r color) (Color.g color)) in
        let '(dominantForce, perpX, perpY, g) :=
          if 1.3 <? redDominance then
            (rForce * 0.3,
             - dirY * 0.6 * Player.lensingStrength player,
             dirX * 0.6 * Player.lensingStrength player, g)
          else if 1.3 <? greenDominance then
            (gForce * 0.6,
             (- dirY * 0.7 + dirX * 0.3) * 0.3 * Player.lensingStrength player,
             (dirX * 0.7 + dirY * 0.3) * 0.3 * Player.lensingStrength player, g)
          else if 1.3 <? blueDominance then
            (bForce * 1.5,
             dirY * 0.7 * Player.lensingStrength player,
             - dirX * 0.7 * Player.lensingStrength player, g)
          else
            let colorSum := Color.r color + Color.g color + Color.b color in
            let dominantForce :=
              (Color.r color * rForce + Color.g color * gForce + Color.b color * bForce)
              / JS.Math_max 0.1 colorSum in
            let '(u, g) := random g in
            let perpFactor := 0.3 * Player.lensingStrength player * (u - 0.5) in
            (dominantForce, dirY * perpFactor, - dirX * perpFactor, g) in
        let '(u, g) := random g in
        let jitter := (u * 0.5 - 0.25) * dispersionForce * Player.lensingStrength player in
        (Vec.mk (Vec.x velocity - (dirX * (dominantForce + jitter) - perpX) * ts)
                (Vec.y velocity - (dirY * (dominantForce + jitter) - perpY) * ts), g)
      else (velocity, g))
  end.

(** "Initialize array of virtual colors for particles": one draw per
    particle, [Math.floor(Math.random() * 6)]. *)
Fixpoint fillVirtualColors (n : nat) (g : Rng) : VirtualColors.t * Rng :=
  match n with
  | O => ([], g)
  | S n' =>
      let '(u, g) := random g in
      let '(a, g) := fillVirtualColors n' g in
      (Some (JS.Math_floor (u * 6)) :: a, g)
  end.

(** "Get or assign a virtual color for this particle": creates the array
    if the simulation has none yet, then reads [a[i]], drawing and
    storing a class when what is stored is falsy. *)
Definition virtualColorOf (n i : nat) (vc : option VirtualColors.t) (g : Rng)
  : float * VirtualColors.t * Rng :=
  let '(a, g) :=
    match vc with
    | Some a => (a, g)
    | None => fillVirtualColors n g
    end in
  match VirtualColors.get i a with
  | Some c =>
      if JS.truthy c then (c, a, g)
      else
        let '(u, g) := random g in
        let c' := JS.Math_floor (u * 6) in
        (c', VirtualColors.set i c' a, g)
  | None =>
      let '(u, g) := random g in
      let c' := JS.Math_floor (u * 6) in
      (c', VirtualColors.set i c' a, g)
  end.

(** The physics of one colour class: [(colorFactor, perpFactor, perpSign)]. *)
Definition classResponse (ts dispersionStrength virtualColor : float) (g : Rng)
  : float * float * float * Rng :=
  if virtualColor <? 2 then
    (0.7 - dispersionStrength * 0.15, 0.6 * dispersionStrength * ts, -1, g)
  else if virtualColor <? 4 then
    let '(u, g) := random g in
    (1.0, 0.3 * dispersionStrength * ts, (if u <? 0.5 then -1 else 1), g)
  else
    (1.3 + dispersionStrength * 0.2, 0.7 * dispersionStrength * ts, 1, g).

(** "Enhanced prism effect for particles near player's prism" *)
Definition prism (ts : float) (n i : nat) (player : Player.t)
           (toPlayerX toPlayerY playerDist : float)
           (velocity : Vec.t) (vc : option VirtualColors.t) (g : Rng)
  : Vec.t * option VirtualColors.t * Rng :=
  let norm := 1 / playerDist in
  if playerDist <? Player.prismRadius player * 1.5 then
    if playerDist <? Player.prismRadius player then
      let normalizedDist := playerDist / Player.prismRadius player in
      let strength := JS.or_else (Some (Player.prismStrength player)) 2.0 in
      let '(virtualColor, a, g) := virtualColorOf n i vc g in
      let dispersionStrength := JS.or_else (Player.prismDispersion player) 3.0 in
      let '(colorFactor, perpFactor, perpSign, g) :=
        classResponse ts dispersionStrength virtualColor g in
      let effectMultiplier := strength * 1.5 in
      let prismForce := normalizedDist * ts * effectMultiplier * colorFactor in
      let velocity := Vec.mk (Vec.x velocity - toPlayerX * norm * prismForce)
                             (Vec.y velocity - toPlayerY * norm * prismForce) in
      let perpX := - toPlayerY * norm * perpSign in
      let perpY := toPlayerX * norm * perpSign in
      let perpStrength := JS.Math_abs prismForce * perpFactor * effectMultiplier in
      let velocity := Vec.mk (Vec.x velocity + perpX * perpStrength)
                             (Vec.y velocity + perpY * perpStrength) in
      let jitterStrength := prismForce * 0.4 * dispersionStrength in
      let '(u1, g) := random g in
      let '(u2, g) := random g in
      (Vec.mk (Vec.x velocity + (u1 - 0.5) * jitterStrength)
              (Vec.y velocity + (u2 - 0.5) * jitterStrength), Some a, g)
    else
      let outsideDistance := playerDist - Player.prismRadius player in
      let falloff :=
        JS.Math_max 0 (1 - outsideDistance / (Player.prismRadius player * 0.5)) in
      let prismForce := -0.1 * Player.prismStrength player * falloff * ts in
      let '(u1, g) := random g in
      let '(u2, g) := random g in
      (Vec.mk (Vec.x velocity + toPlayerX * norm * prismForce * (0.8 + u1 * 0.4))
              (Vec.y velocity + toPlayerY * norm * prismForce * (0.8 + u2 * 0.4)),
       vc, g)
  else (velocity, vc, g).

(** The body of "Apply each player's gravity" for one player. *)
Definition applyPlayer (ts : float) (n i : nat) (particle : Vec.t)
           (st : Vec.t * option VirtualColors.t * Rng) (player : Player.t)
  : Completion (Vec.t * option VirtualColors.t * Rng) :=
  let '(velocity, vc, g) := st in
  match Player.position player with
  | None => Throw (velocity, vc, g)
  | Some position =>
      let toPlayerX := Vec.x position - Vec.x particle in
      let toPlayerY := Vec.y position - Vec.y particle in
      let playerDist :=
        JS.Math_sqrt (toPlayerX * toPlayerX + toPlayerY * toPlayerY) in
      Normal
        (if 0.1 <? playerDist then
           prism ts n i player toPlayerX toPlayerY playerDist
                 (playerPull ts player toPlayerX toPlayerY playerDist velocity) vc g
         else (velocity, vc, g))
  end.

(** One iteration of the particle loop of [updatePhysics], for the
    particle at index [i] of a pool of [n]. *)
Definition updateParticle (o : Options.t) (ts : float)
           (players : Registry.t Player.t) (n i : nat)
           (particle velocity : Vec.t) (color : Color.t)
           (vc : option VirtualColors.t) (g : Rng)
  : Completion (Vec.t * Vec.t * option VirtualColors.t * Rng) :=
  match each (disperse ts particle color) (Registry.values players) (velocity, g) with
  | Throw (velocity, g) => Throw (particle, velocity, vc, g)
  | Normal (velocity, g) =>
      let velocity := centralGravity o ts particle velocity in
      match each (applyPlayer ts n i particle) (Registry.values players)
                 (velocity, vc, g) with
      | Throw (velocity, vc, g) => Throw (particle, velocity, vc, g)
      | Normal (velocity, vc, g) =>
          let velocity := damp h o ts velocity in
          let particle := advance ts particle velocity in
          let '(particle, velocity, g) := boundary h o particle velocity g in
          Normal (particle, velocity, vc, g)
      end
  end.

(** The particle loop over the three parallel arrays that
    [initParticles] fills together and that nothing else resizes. *)
Fixpoint updateParticles (o : Options.t) (ts : float)
         (players : Registry.t Player.t) (n i : nat)
         (ps vs : list Vec.t) (cs : list Color.t)
         (vc : option VirtualColors.t) (g : Rng)
  : Completion (list Vec.t * list Vec.t * option VirtualColors.t * Rng) :=
  match ps, vs, cs with
  | particle :: ps', velocity :: vs', color :: cs' =>
      match updateParticle o ts players n i particle velocity color vc g with
      | Throw (particle, velocity, vc, g) =>
          Throw (particle :: ps', velocity :: vs', vc, g)
      | Normal (particle, velocity, vc, g) =>
          match updateParticles o ts players n (S i) ps' vs' cs' vc g with
          | Normal (ps'', vs'', vc, g) =>
              Normal (particle :: ps'', velocity :: vs'', vc, g)
          | Throw (ps'', vs'', vc, g) =>
              Throw (particle :: ps'', velocity :: vs'', vc, g)
          end
      end
  | _, _, _ => Normal (ps, vs, vc, g)
  end.

(** [updatePhysics(deltaTime)].  The simulation time is advanced after the
    loop: not when the loop throws. *)
Definition updatePhysics (deltaTime : float) (s : Sim.t) (g : Rng)
  : Completion (Sim.t * Rng) :=
  let ts := timeScale deltaTime in
  match updateParticles (Sim.options s) ts (Sim.players s)
                        (List.length (Sim.particles s)) 0
                        (Sim.particles s) (Sim.velocities s) (Sim.colors s)
                        (Sim.particleVirtualColors s) g with
  | Normal (ps, vs, vc, g) =>
      Normal (Sim.with_simulationTime (Sim.simulationTime s + deltaTime)
                (Sim.with_virtualColors vc (Sim.with_pool ps vs (Sim.colors s) s)), g)
  | Throw (ps, vs, vc, g) =>
      Throw (Sim.with_virtualColors vc (Sim.with_pool ps vs (Sim.colors s) s), g)
  end.

End WithHost.

End Prismatic.

(* ================================================================== *)
(** ** Which server-physics.js the server imports *)

Inductive Variant : Type := SimplePrism | ColourPrism.

Section Lifecycle.

Local Open Scope float_scope.

Variable v : Variant.
Variable h : Host.

Definition initParticles (s : Sim.t) (g : Rng) : Sim.t * Rng :=
  match v with
  | SimplePrism => Basic.initParticles h s g
  | ColourPrism => Prismatic.initParticles h s g
  end.

Definition updatePhysics (deltaTime : float) (s : Sim.t) (g : Rng)
  : Completion (Sim.t * Rng) :=
  match v with
  | SimplePrism => Basic.updatePhysics h deltaTime s g
  | ColourPrism => Prismatic.updatePhysics h deltaTime s g
  end.

Definition construct (a : OptionsArg.t) (g : Rng) : Sim.t * Rng :=
  initParticles (blank a) g.

(** [startSimulation()], called at time [now]. *)
Definition startSimulation (now : Z) (s : Sim.t) : Sim.t :=
  if Sim.running s then s
  else Sim.with_lastUpdateTime now (Sim.with_running true s).

(** [stopSimulation()] *)
Definition stopSimulation (s : Sim.t) : Sim.t :=
  if negb (Sim.running s) then s else Sim.with_running false s.

(** [resetSimulation()], called at time [now]. *)
Definition resetSimulation (now : Z) (s : Sim.t) (g : Rng) : Sim.t * Rng :=
  let s := stopSimulation s in
  let '(s, g) := initParticles s g in
  let s := Sim.with_simulationTime 0 s in
  (startSimulation now s, g).

(** [n] consecutive calls of [updatePhysics(deltaTime)]; a call that
    throws ends the run. *)
Fixpoint ticks (n : nat) (deltaTime : float) (s : Sim.t) (g : Rng)
  : Completion (Sim.t * Rng) :=
  match n with
  | O => Normal (s, g)
  | S n' =>
      match updatePhysics deltaTime s g with
      | Normal (s, g) => ticks n' deltaTime s g
      | Throw sg => Throw sg
      end
  end.

End Lifecycle.

(* ================================================================== *)
(** ** The WebSocket server *)

(** A connection ([ws]) is known by its identity only. *)
Definition Channel : Type := nat.

Module Metrics.
Record t : Type := mk {
  physicsTime : float;
  avgPhysicsTime : float;
  particleCount : nat;
  playerCount : nat
}.
End Metrics.

(** The text of a system message.  The only one is the template literal
    [`Particle count changed to ${n}`], given by the number it is filled
    with. *)
Inductive Text : Type :=
| ParticleCountChangedTo (n : JS.value).

(** What the server writes to a connection, before [JSON.stringify]. *)
Inductive Frame : Type :=
| IdFrame (id : N)
| FullStateFrame (state : State.t) (metrics : option Metrics.t)
| ParticleUpdateFrame (particles : list Vec.t) (time : float)
                      (metrics : option Metrics.t)
| PlayerUpdateFrame (playerId : N) (data : Params.t)
| PlayersFrame (players : list N)
| SystemMessageFrame (text : Text).

(** What [JSON.parse(message)] yields, by the [type] field.  The handler
    checks none of the other fields: [position] may be missing or [null]
    ([None]; any other value is given by the numbers that the physics reads
    off its [x] and [y]), [count] may be missing ([None]) and need not be a
    number. *)
Inductive Data : Type :=
| UpdatePosition (position : option Vec.t)
| UpdateParams (params : Params.t)
| SetParticleCount (count : option JS.value)
| OtherType.

Module Server.

(** The module-level variables of server.js, the generator behind
    [Math.random], and [wire]: every [ws.send], oldest first. *)
Record t : Type := mk {
  players : Registry.t Channel;
  nextPlayerId : N;
  physicsSimulation : Sim.t;
  lastFullUpdateTime : Z;
  lastPhysicsTime : float;
  avgPhysicsTime : float;
  updateCount : Z;
  rng : Rng;
  wire : list (Channel * Frame)
}.

Definition with_players (m : Registry.t Channel) (s : t) : t :=
  mk m (nextPlayerId s) (physicsSimulation s) (lastFullUpdateTime s)
     (lastPhysicsTime s) (avgPhysicsTime s) (updateCount s) (rng s) (wire s).

Definition with_nextPlayerId (n : N) (s : t) : t :=
  mk (players s) n (physicsSimulation s) (lastFullUpdateTime s)
     (lastPhysicsTime s) (avgPhysicsTime s) (updateCount s) (rng s) (wire s).

Definition with_simulation (sim : Sim.t) (g : Rng) (s : t) : t :=
  mk (players s) (nextPlayerId s) sim (lastFullUpdateTime s)
     (lastPhysicsTime s) (avgPhysicsTime s) (updateCount s) g (wire s).

Definition with_lastFullUpdateTime (now : Z) (s : t) : t :=
  mk (players s) (nextPlayerId s) (physicsSimulation s) now
     (lastPhysicsTime s) (avgPhysicsTime s) (updateCount s) (rng s) (wire s).

Definition with_perf (last avg : float) (count : Z) (s : t) : t :=
  mk (players s) (nextPlayerId s) (physicsSimulation s) (lastFullUpdateTime s)
     last avg count (rng s) (wire s).

Definition with_wire (w : list (Channel * Frame)) (s : t) : t :=
  mk (players s) (nextPlayerId s) (physicsSimulation s) (lastFullUpdateTime s)
     (lastPhysicsTime s) (avgPhysicsTime s) (updateCount s) (rng s) w.

(** [ws.send(JSON.stringify(frame))] *)
Definition send (ws : Channel) (f : Frame) (s : t) : t :=
  with_wire (wire s ++ [(ws, f)]) s.

(** [for (const id in players) players[id].ws.send(message)], each send
    in its own [try]: a send that throws is logged and the loop goes on.
    The model records every send as written. *)
Definition broadcast (f : Frame) (s : t) : t :=
  with_wire (wire s ++ map (fun ws => (ws, f)) (Registry.values (players s))) s.

(** The frames written to [ws], oldest first. *)
Definition delivered (ws : Channel) (s : t) : list Frame :=
  map snd (filter (fun e => Nat.eqb (fst e) ws) (wire s)).

Definition FULL_UPDATE_INTERVAL : Z := 200.
Definition avgWindow : Z := 50.

(** The options server.js constructs its simulation with. *)
Definition simulationOptions : OptionsArg.t :=
  {| OptionsArg.particleCount := Some (JS.Num 1000);
     OptionsArg.particleSpread := Some 800%float;
     OptionsArg.initialSpeed := Some 3.0%float;
     OptionsArg.velocityDamping := Some 0.96%float;
     OptionsArg.gravityStrength := Some 2.0%float;
     OptionsArg.updateRate := Some 15%float;
     OptionsArg.maxPlayers := None;
     OptionsArg.prismRadius := Some 100%float |}.

Definition broadcastPlayerUpdate (playerId : N) (updateData : Params.t) (s : t) : t :=
  broadcast (PlayerUpdateFrame playerId updateData) s.

Definition broadcastSystemMessage (text : Text) (s : t) : t :=
  broadcast (SystemMessageFrame text) s.

Definition broadcastPlayerList (s : t) : t :=
  broadcast (PlayersFrame (Registry.keys (players s))) s.

(** [Object.keys(players).find(id => players[id].ws === ws)] *)
Fixpoint findPlayer (ws : Channel) (m : Registry.t Channel) : option N :=
  match m with
  | [] => None
  | (id, ws') :: m' => if Nat.eqb ws' ws then Some id else findPlayer ws m'
  end.

Section WithPhysics.

Local Open Scope float_scope.

Variable v : Variant.
Variable h : Host.

(** [websocket.open(ws)] *)
Definition open (ws : Channel) (s : t) : t :=
  let playerId := nextPlayerId s in
  let s := with_nextPlayerId (playerId + 1)%N s in
  let s := with_players (Registry.set playerId ws (players s)) s in
  let '(_, sim) := addPlayer playerId Params.empty (physicsSimulation s) in
  let s := with_simulation sim (rng s) s in
  let s := send ws (IdFrame playerId) s in
  let s := send ws (FullStateFrame (getState (physicsSimulation s)) None) s in
  broadcastPlayerList s.

(** The [setParticleCount] branch of the message handler, taken when
    [data.count] is truthy.  [Math.max] and [Math.min] convert their
    arguments to numbers. *)
Definition setParticleCount (count : JS.value) (now : Z) (s : t) : t :=
  let sim := physicsSimulation s in
  let n := JS.Math_min 10000 (JS.Math_max 500 (JS.ToNumber count)) in
  let sim :=
    Sim.with_options (Options.with_particleCount (JS.Num n) (Sim.options sim)) sim in
  let '(sim, g) := resetSimulation v h now sim (rng s) in
  let s := with_simulation sim g s in
  broadcastSystemMessage
    (ParticleCountChangedTo
       (Options.particleCount (Sim.options (physicsSimulation s)))) s.

(** [websocket.message(ws, message)] at time [now]; [raw] is [None] when
    [JSON.parse] throws or yields [null], off which no [type] can be read:
    the handler catches both. *)
Definition message (ws : Channel) (raw : option Data) (now : Z) (s : t) : t :=
  match raw with
  | None => s
  | Some data =>
      match findPlayer ws (players s) with
      | None => s
      | Some playerId =>
          match data with
          | UpdatePosition position =>
              let '(_, sim) :=
                updatePlayerPosition playerId position (physicsSimulation s) in
              broadcastPlayerUpdate playerId
                (Params.mk (Some position) None None None None None)
                (with_simulation sim (rng s) s)
          | UpdateParams params =>
              let '(_, sim) :=
                updatePlayerParams playerId params (physicsSimulation s) in
              broadcastPlayerUpdate playerId params
                (with_simulation sim (rng s) s)
          | SetParticleCount (Some count) =>
              if JS.ToBoolean count then setParticleCount count now s else s
          | SetParticleCount None => s
          | OtherType => s
          end
      end
  end.

(** [websocket.close(ws)] *)
Definition close (ws : Channel) (s : t) : t :=
  match findPlayer ws (players s) with
  | Some playerId =>
      let s := with_players (Registry.delete playerId (players s)) s in
      let '(_, sim) := removePlayer playerId (physicsSimulation s) in
      broadcastPlayerList (with_simulation sim (rng s) s)
  | None => s
  end.

(** One firing of the simulation's timer at time [now], through the
    instrumented [updatePhysics]; [startTime] and [endTime] are the two
    readings of [performance.now()].  When the step throws, the exception
    leaves the callback before the metrics and the timer's clock are
    updated.  (What the runtime does with an exception that nothing catches
    is outside the model, which describes the server for as long as it
    lives.) *)
Definition physicsTimer (now : Z) (startTime endTime : float) (s : t) : t :=
  let sim := physicsSimulation s in
  if Sim.running sim then
    let deltaTime := JS.of_Z (now - Sim.lastUpdateTime sim) in
    match updatePhysics v h deltaTime sim (rng s) with
    | Normal (sim, g) =>
        let last := endTime - startTime in
        let count := (updateCount s + 1)%Z in
        let avg :=
          avgPhysicsTime s
          + (last - avgPhysicsTime s) / JS.of_Z (Z.min count avgWindow) in
        with_perf last avg count
          (with_simulation (Sim.with_lastUpdateTime now sim) g s)
    | Throw (sim, g) => with_simulation sim g s
    end
  else s.

(** "Gather performance metrics" *)
Definition perfMetrics (s : t) : Metrics.t :=
  {| Metrics.physicsTime := lastPhysicsTime s;
     Metrics.avgPhysicsTime := avgPhysicsTime s;
     Metrics.particleCount := List.length (Sim.particles (physicsSimulation s));
     Metrics.playerCount := List.length (Registry.keys (players s)) |}.

(** One firing of the broadcast timer at time [now]. *)
Definition broadcastTimer (now : Z) (s : t) : t :=
  let metrics := perfMetrics s in
  if (now - lastFullUpdateTime s <? FULL_UPDATE_INTERVAL)%Z then
    let simState := getState (physicsSimulation s) in
    broadcast
      (ParticleUpdateFrame (State.particles simState)
                           (State.simulationTime simState) (Some metrics)) s
  else
    let s := with_lastFullUpdateTime now s in
    let simState := getState (physicsSimulation s) in
    broadcast (FullStateFrame simState (Some metrics)) s.

(** What can happen to a running server. *)
Inductive Event : Type :=
| Open (ws : Channel)
| Message (ws : Channel) (raw : option Data) (now : Z)
| Close (ws : Channel)
| PhysicsTimer (now : Z) (startTime endTime : float)
| BroadcastTimer (now : Z).

Definition handle (e : Event) (s : t) : t :=
  match e with
  | Open ws => open ws s
  | Message ws raw now => message ws raw now s
  | Close ws => close ws s
  | PhysicsTimer now startTime endTime => physicsTimer now startTime endTime s
  | BroadcastTimer now => broadcastTimer now s
  end.

(** The events are handled one at a time, each to completion. *)
Definition run (es : list Event) (s : t) : t :=
  fold_left (fun s e => handle e s) es s.

(** The server as it starts: the simulation is constructed and started
    at time [now], nobody is connected. *)
Definition boot (a : OptionsArg.t) (now : Z) (g : Rng) : t :=
  let '(sim, g) := construct v h a g in
  {| players := [];
     nextPlayerId := 1;
     physicsSimulation := startSimulation now sim;
     lastFullUpdateTime := now;
     lastPhysicsTime := 0;
     avgPhysicsTime := 0;
     updateCount := 0;
     rng := g;
     wire := [] |}.

End WithPhysics.

End Server.

(** The broadcast timer of the earlier revision of server.js that the
    repository also holds: the same alternation, every 100 ms, with no
    performance tracking, so that its frames carry no [metrics]. *)
Module ServerRev1.

Definition FULL_UPDATE_INTERVAL : Z := 100.

Definition broadcastTimer (now : Z) (s : Server.t) : Server.t :=
  if (now - Server.lastFullUpdateTime s <? FULL_UPDATE_INTERVAL)%Z then
    let simState := getState (Server.physicsSimulation s) in
    Server.broadcast
      (ParticleUpdateFrame (State.particles simState)
                           (State.simulationTime simState) None) s
  else
    let s := Server.with_lastFullUpdateTime now s in
    let simState := getState (Server.physicsSimulation s) in
    Server.broadcast (FullStateFrame simState None) s.

End ServerRev1.

(* ================================================================== *)
(** ** The chat revision of server.js

    The revision of the server that relays one line of text per player and
    has no simulation: [players] maps an id to its connection,
    [playerMessages] an id to its text. *)

Module Chat.

(** What this revision writes to a connection. *)
Inductive Frame : Type :=
| IdFrame (id : N)
| AllMessagesFrame (messages : Registry.t string)
| PlayersFrame (players : list N).

(** What [JSON.parse(message)] yields: a [message] with its [playerId]
    (possibly missing) and [text], or something else. *)
Inductive Data : Type :=
| MessageData (playerId : option N) (text : string)
| OtherData.

Record t : Type := mk {
  players : Registry.t Channel;
  nextPlayerId : N;
  playerMessages : Registry.t string;
  wire : list (Channel * Frame)
}.

(** The server as it starts. *)
Definition initial : t :=
  {| players := []; nextPlayerId := 1; playerMessages := []; wire := [] |}.

Definition send (ws : Channel) (f : Frame) (s : t) : t :=
  mk (players s) (nextPlayerId s) (playerMessages s) (wire s ++ [(ws, f)]).

Definition broadcast (f : Frame) (s : t) : t :=
  mk (players s) (nextPlayerId s) (playerMessages s)
     (wire s ++ map (fun ws => (ws, f)) (Registry.values (players s))).

Definition delivered (ws : Channel) (s : t) : list Frame :=
  map snd (filter (fun e => Nat.eqb (fst e) ws) (wire s)).

(** [broadcastPlayerList()] *)
Definition broadcastPlayerList (s : t) : t :=
  broadcast (PlayersFrame (Registry.keys (players s))) s.

(** [broadcastPlayerMessages()] *)
Definition broadcastPlayerMessages (s : t) : t :=
  broadcast (AllMessagesFrame (playerMessages s)) s.

(** ["Player " + playerId] *)
Definition defaultText (playerId : N) : string :=
  ("Player " ++ NilZero.string_of_uint (N.to_uint playerId))%string.

(** [websocket.open(ws)] *)
Definition open (ws : Channel) (s : t) : t :=
  let playerId := nextPlayerId s in
  let s := mk (Registry.set playerId ws (players s)) (playerId + 1)%N
              (Registry.set playerId (defaultText playerId) (playerMessages s))
              (wire s) in
  let s := send ws (IdFrame playerId) s in
  let s := send ws (AllMessagesFrame (playerMessages s)) s in
  broadcastPlayerList s.

(** [websocket.message(ws, message)]; [raw] is [None] when [JSON.parse]
    throws.  The id is the one the message carries. *)
Definition message (ws : Channel) (raw : option Data) (s : t) : t :=
  match raw with
  | Some (MessageData (Some playerId) text) =>
      if (playerId =? 0)%N then s
      else
        broadcastPlayerMessages
          (mk (players s) (nextPlayerId s)
              (Registry.set playerId text (playerMessages s)) (wire s))
  | _ => s
  end.

(** [websocket.close(ws)] *)
Definition close (ws : Channel) (s : t) : t :=
  match Server.findPlayer ws (players s) with
  | Some playerId =>
      let s := mk (Registry.delete playerId (players s)) (nextPlayerId s)
                  (Registry.delete playerId (playerMessages s)) (wire s) in
      broadcastPlayerMessages (broadcastPlayerList s)
  | None => s
  end.

Inductive Event : Type :=
| Open (ws : Channel)
| Message (ws : Channel) (raw : option Data)
| Close (ws : Channel).

Definition handle (e : Event) (s : t) : t :=
  match e with
  | Open ws => open ws s
  | Message ws raw => message ws raw s
  | Close ws => close ws s
  end.

Definition run (es : list Event) (s : t) : t :=
  fold_left (fun s e => handle e s) es s.

End Chat.

(* ================================================================== *)
(** ** Vocabulary of the properties and concrete runs *)


(** A count that an array can hold: not above 2^32 - 1 ([NaN] included, for
    which the loops do not run at all). *)
Definition fits (count : float) : Prop := (4294967295 <? count)%float = false.

(** [k] is the binary64 value [count = m * 2^e] rounded up to an integer,
    and [0] when [count] is [NaN], a zero or negative: the number of integers
    [i] with [0 <= i < count]. *)
Definition roundedUp (count : float) (k : nat) : Prop :=
  match Prim2SF count with
  | S754_finite false m e =>
      ((0 <= e)%Z -> Z.of_nat k = (Zpos m * 2 ^ e)%Z)
      /\ ((e < 0)%Z ->
          ((Z.of_nat k - 1) * 2 ^ (- e) < Zpos m <= Z.of_nat k * 2 ^ (- e))%Z)
  | S754_infinity false => True
  | _ => k = O
  end.

(** The distance from a particle to a player's position, as both player
    loops compute it. *)
Definition distance (position particle : Vec.t) : float :=
  let dx := (Vec.x position - Vec.x particle)%float in
  let dy := (Vec.y position - Vec.y particle)%float in
  JS.Math_sqrt (dx * dx + dy * dy)%float.

(** Every registered player has a position to read. *)
Definition positioned (s : Sim.t) : Prop :=
  Forall (fun pl => Player.position pl <> None) (Registry.values (Sim.players s)).

(** A generator whose first draws are the given ones and whose later draws
    are all [0]. *)
Definition rngOf (draws : list float) : Rng :=
  {| tape := fun n => nth n draws 0%float; cursor := 0 |}.

(** The options of the scenario "start with [particleCount = 2000]". *)
Definition options2000 : OptionsArg.t :=
  OptionsArg.mk (Some (JS.Num 2000)) None None None None None None None.

(** "Add player A at [(0, 0)] with default params". *)
Definition playerA : Params.t :=
  Params.mk (Some (Some (Vec.mk 0 0))) None None None None None.

(** The scenario: construct, add player A, run [n] ticks of 33 ms. *)
Definition scenario (v : Variant) (h : Host) (g : Rng) (n : nat) : Sim.t :=
  let '(s, g) := construct v h options2000 g in
  let '(_, s) := addPlayer 1 playerA s in
  fst (written (ticks v h n 33 s g)).

(** Every particle position is finite. *)
Definition allFinite (s : Sim.t) : bool := forallb Vec.finite (Sim.particles s).

(** A small server for concrete runs: three particles, started at time 0,
    then one connection. *)
Definition smallServer (v : Variant) : Server.t :=
  Server.open 7%nat
    (Server.boot v RefHost.host
       (OptionsArg.mk (Some (JS.Num 3)) None None None None None None None)
       0 (rngOf [])).

(** The simulation has a virtual colour array and it holds class [c] for
    the particle at index [i]. *)
Definition storedClass (i : nat) (c : float) (vc : option VirtualColors.t) : Prop :=
  exists a, vc = Some a /\ VirtualColors.get i a = Some c.

(** [g'] is the generator [g] after some more draws. *)
Definition later (g g' : Rng) : Prop :=
  tape g' = tape g /\ (cursor g <= cursor g')%nat.

(** Since the generator was [g0], the class of the particle at index [i]
    has been drawn anew: what is stored for it is
    [Math.floor(Math.random() * 6)] for one of the draws taken since. *)
Definition redrawnSince (g0 : Rng) (i : nat)
           (vc : option VirtualColors.t) (g : Rng) : Prop :=
  later g0 g
  /\ exists j, (cursor g0 <= j < cursor g)%nat
               /\ storedClass i (JS.Math_floor (tape g0 j * 6)) vc.

(** A binary64 value, as [SpecFloat] describes it, that is not [NaN] and
    carries sign [s]. *)
Definition signed (s : bool) (x : spec_float) : Prop :=
  match x with
  | S754_nan => False
  | S754_zero s' | S754_infinity s' | S754_finite s' _ _ => s' = s
  end.

(** A binary64 value that is a zero or [NaN]. *)
Definition zero_or_nan (x : spec_float) : Prop :=
  match x with
  | S754_zero _ | S754_nan => True
  | _ => False
  end.

(** A binary64 value that is a number and is not below zero. *)
Definition SFnonneg (x : spec_float) : Prop :=
  match x with
  | S754_nan => False
  | S754_zero _ => True
  | S754_infinity s | S754_finite s _ _ => s = false
  end.

(** [s'] has everything that was written in [s], followed by what was
    written since. *)
Definition extends (s s' : Server.t) : Prop :=
  exists w, Server.wire s' = Server.wire s ++ w.

(** [delete] as it acts on the list of keys. *)
Fixpoint removeKey (k : N) (l : list N) : list N :=
  match l with
  | [] => []
  | k' :: l' => if (k' =? k)%N then l' else k' :: removeKey k l'
  end.

(** The keys come in strictly ascending order, as a JavaScript object
    enumerates its integer keys. *)
Definition ascending (l : list N) : Prop := StronglySorted N.lt l.

(** The particle at index [i] has a [NaN] abscissa. *)
Definition nanAt (i : nat) (s : Sim.t) : Prop :=
  exists p, nth_error (Sim.particles s) i = Some p /\ is_nan (Vec.x p) = true.

(** The connection map and the player registry of the simulation hold the
    same ids, in ascending order, all below the next id to hand out. *)
Definition inSync (s : Server.t) : Prop :=
  Registry.keys (Server.players s)
  = Registry.keys (Sim.players (Server.physicsSimulation s))
  /\ ascending (Registry.keys (Server.players s))
  /\ Forall (fun k => (k < Server.nextPlayerId s)%N)
            (Registry.keys (Server.players s)).

(** The ids carried by the [id] frames, in the order they were written. *)
Definition idsIssued (w : list (Channel * Frame)) : list N :=
  flat_map (fun e => match snd e with IdFrame id => [id] | _ => [] end) w.



(* ================================================================== *)
(** * Properties *)

(** ** The registry object *)

Section RegistryFacts.

Variable A : Type.
Implicit Types (m : Registry.t A) (k : N) (v : A).

Lemma Registry_get_set_same : forall m k v,
  Registry.get k (Registry.set k v m) = Some v.
Proof.
  induction m as [|[k' v'] m IH]; intros k v; simpl.
  - now rewrite N.eqb_refl.
  - destruct (N.eqb_spec k k') as [->|Hne]; simpl.
    + now rewrite N.eqb_refl.
    + destruct (N.ltb_spec k k'); simpl.
      * now rewrite N.eqb_refl.
      * destruct (N.eqb_spec k' k); [congruence | apply IH].
Qed.

Lemma Registry_get_set_other : forall m k k' v,
  k <> k' -> Registry.get k' (Registry.set k v m) = Registry.get k' m.
Proof.
  induction m as [|[k0 v0] m IH]; intros k k' v Hne; simpl.
  - destruct (N.eqb_spec k k'); [congruence | reflexivity].
  - destruct (N.eqb_spec k k0) as [->|Hk]; simpl.
    + destruct (N.eqb_spec k0 k'); [congruence | reflexivity].
    + destruct (N.ltb_spec k k0); simpl.
      * destruct (N.eqb_spec k k'); [congruence | reflexivity].
      * destruct (N.eqb_spec k0 k'); [reflexivity | now apply IH].
Qed.

(** Deleting a key that was added to an object that did not have it gives
    the object back, in the same enumeration order. *)
Lemma Registry_delete_set_absent : forall m k v,
  Registry.get k m = None -> Registry.delete k (Registry.set k v m) = m.
Proof.
  induction m as [|[k' v'] m IH]; intros k v Hget; simpl in *.
  - now rewrite N.eqb_refl.
  - destruct (N.eqb_spec k' k) as [->|Hne]; [discriminate|].
    destruct (N.eqb_spec k k') as [->|_]; [congruence|].
    destruct (N.ltb_spec k k'); simpl.
    + now rewrite N.eqb_refl.
    + destruct (N.eqb_spec k' k); [congruence|].
      now rewrite IH.
Qed.

Lemma Registry_delete_absent : forall m k,
  Registry.get k m = None -> Registry.delete k m = m.
Proof.
  induction m as [|[k' v'] m IH]; intros k Hget; simpl in *; [reflexivity|].
  destruct (N.eqb_spec k' k); [discriminate|].
  now rewrite IH.
Qed.

End RegistryFacts.

(** ** The player registry of the simulation *)

(** C6.  For an id that is not in the registry, [updatePlayerPosition],
    [updatePlayerParams] and [removePlayer] each return [false] and leave the
    simulation, hence the registry with all its records, exactly as it was.
    The three are total functions: nothing is thrown. *)
Theorem unknown_player_is_noop :
  forall (s : Sim.t) (playerId : N) (position : option Vec.t) (params : Params.t),
    Registry.get playerId (Sim.players s) = None ->
    updatePlayerPosition playerId position s = (false, s)
    /\ updatePlayerParams playerId params s = (false, s)
    /\ removePlayer playerId s = (false, s).
Proof.
  intros s playerId position params Habsent.
  unfold updatePlayerPosition, updatePlayerParams, removePlayer.
  rewrite Habsent. repeat split.
Qed.

(** ** [addPlayer] *)

Local Open Scope float_scope.

(** The value a numeric field of the new record takes. *)
Lemma or_else_present : forall v d, JS.truthy v = true -> JS.or_else (Some v) d = v.
Proof. intros v d Ht. simpl. now rewrite Ht. Qed.

Lemma or_else_falsy : forall v d, JS.truthy v = false -> JS.or_else (Some v) d = d.
Proof. intros v d Ht. simpl. now rewrite Ht. Qed.

(** C5, as amended.  [addPlayer] stores the record it returns.  In it,
    [position] is the override when there is one and [(0, 0)] otherwise (a
    [null] override counts as none);
    each of [gravityStrength], [prismRadius], [lensingStrength] and
    [prismStrength] is the override when there is one and it is truthy, and
    the default otherwise ([options.gravityStrength * 1.5],
    [options.prismRadius], [3.0], [2.0]): an override of [0] or [NaN] is
    replaced by the default.  No [prismDispersion] is stored. *)
Theorem addPlayer_defaults :
  forall (s : Sim.t) (playerId : N) (overrides : Params.t),
    let record := fst (addPlayer playerId overrides s) in
    let s' := snd (addPlayer playerId overrides s) in
    let o := Sim.options s in
    Registry.get playerId (Sim.players s') = Some record
    /\ (forall p, Params.position overrides = Some (Some p) ->
                  Player.position record = Some p)
    /\ (Params.position overrides = None ->
        Player.position record = Some (Vec.mk 0 0))
    /\ (Params.position overrides = Some None ->
        Player.position record = Some (Vec.mk 0 0))
    /\ (forall n, Params.gravityStrength overrides = Some n -> JS.truthy n = true ->
                  Player.gravityStrength record = n)
    /\ (forall n, Params.gravityStrength overrides = Some n -> JS.truthy n = false ->
                  Player.gravityStrength record = Options.gravityStrength o * 1.5)
    /\ (Params.gravityStrength overrides = None ->
        Player.gravityStrength record = Options.gravityStrength o * 1.5)
    /\ (forall n, Params.prismRadius overrides = Some n -> JS.truthy n = true ->
                  Player.prismRadius record = n)
    /\ (forall n, Params.prismRadius overrides = Some n -> JS.truthy n = false ->
                  Player.prismRadius record = Options.prismRadius o)
    /\ (Params.prismRadius overrides = None ->
        Player.prismRadius record = Options.prismRadius o)
    /\ (forall n, Params.lensingStrength overrides = Some n -> JS.truthy n = true ->
                  Player.lensingStrength record = n)
    /\ (forall n, Params.lensingStrength overrides = Some n -> JS.truthy n = false ->
                  Player.lensingStrength record = 3.0)
    /\ (Params.lensingStrength overrides = None -> Player.lensingStrength record = 3.0)
    /\ (forall n, Params.prismStrength overrides = Some n -> JS.truthy n = true ->
                  Player.prismStrength record = n)
    /\ (forall n, Params.prismStrength overrides = Some n -> JS.truthy n = false ->
                  Player.prismStrength record = 2.0)
    /\ (Params.prismStrength overrides = None -> Player.prismStrength record = 2.0)
    /\ Player.prismDispersion record = None.
Proof.
  intros s playerId overrides; cbv zeta.
  destruct overrides as [pos gs pr ls ps pd]; simpl.
  split; [apply Registry_get_set_same|].
  repeat split; intros;
    repeat match goal with
           | H : _ = Some _ |- _ => rewrite H; clear H
           | H : _ = None |- _ => rewrite H; clear H
           end;
    auto using or_else_present, or_else_falsy.
Qed.

(** The theorem at a concrete call: player 1 on a fresh default simulation,
    overriding the lensing strength only. *)
Lemma addPlayer_defaults_witness :
  let s := blank OptionsArg.empty in
  let overrides := Params.mk None None None (Some 4.5) None None in
  Params.lensingStrength overrides = Some 4.5
  /\ JS.truthy 4.5 = true
  /\ Player.lensingStrength (fst (addPlayer 1 overrides s)) = 4.5.
Proof.
  cbv zeta. split; [reflexivity|]. split; [reflexivity|].
  pose proof (addPlayer_defaults (blank OptionsArg.empty) 1
                (Params.mk None None None (Some 4.5) None None)) as H.
  cbv zeta in H.
  destruct H as (_ & _ & _ & _ & _ & _ & _ & _ & _ & _ & Hls & _).
  apply Hls; reflexivity.
Defined.

(** C5 fails as stated: an override that is present but [0] does not reach
    the record (the default [1.0 * 1.5] does), and an override of
    [prismDispersion] is not stored at all. *)
Lemma addPlayer_drops_zero_override :
  let overrides := Params.mk None (Some 0) None None None (Some 5) in
  let record := fst (addPlayer 1 overrides (blank OptionsArg.empty)) in
  Params.gravityStrength overrides = Some 0
  /\ Player.gravityStrength record = 1.5
  /\ (Player.gravityStrength record =? 0) = false
  /\ Params.prismDispersion overrides = Some 5
  /\ Player.prismDispersion record = None.
Proof. cbv zeta. repeat split. Qed.

Lemma unknown_player_is_noop_witness :
  let s := snd (addPlayer 1 Params.empty (blank OptionsArg.empty)) in
  Registry.get 2 (Sim.players s) = None
  /\ removePlayer 2 s = (false, s).
Proof.
  cbv zeta. split; [reflexivity|].
  apply (unknown_player_is_noop
           (snd (addPlayer 1 Params.empty (blank OptionsArg.empty))) 2
           (Some (Vec.mk 0 0)) Params.empty).
  reflexivity.
Defined.

(* ================================================================== *)
(** ** Binary64 facts

    Consequences of the specification of the primitive operations
    ([SpecFloat]) that the properties of [timeScale] and of the respawn
    branch rest on. *)

Section Binary64.

Local Open Scope Z_scope.

Lemma shr_1_nonneg : forall mrs, 0 <= shr_m mrs -> 0 <= shr_m (shr_1 mrs).
Proof.
  intros [m r s]; simpl; intros Hm.
  destruct m as [|p|p]; simpl; try lia; destruct p; simpl; lia.
Qed.

Lemma iter_shr_1_nonneg : forall p mrs,
  0 <= shr_m mrs -> 0 <= shr_m (iter_pos shr_1 p mrs).
Proof.
  induction p as [p IH|p IH|]; intros mrs Hm; simpl.
  - apply IH, IH, shr_1_nonneg, Hm.
  - apply IH, IH, Hm.
  - apply shr_1_nonneg, Hm.
Qed.

Lemma shr_fexp_nonneg : forall m e l,
  0 <= m -> 0 <= shr_m (fst (shr_fexp prec emax m e l)).
Proof.
  intros m e l Hm. unfold shr_fexp, shr.
  assert (H0 : 0 <= shr_m (shr_record_of_loc m l))
    by (destruct l as [|[]]; simpl; exact Hm).
  destruct (fexp prec emax (Zdigits2 m + e) - e); simpl; auto.
  now apply iter_shr_1_nonneg.
Qed.

Lemma round_nearest_even_nonneg : forall m l,
  0 <= m -> 0 <= round_nearest_even m l.
Proof.
  intros m l Hm. destruct l as [|[]]; simpl; try lia.
  destruct (Z.even m); lia.
Qed.

(** Rounding a non-negative mantissa never gives [NaN] and keeps the sign. *)
Lemma binary_round_aux_signed : forall s m e l,
  0 <= m -> signed s (binary_round_aux prec emax s m e l).
Proof.
  intros s m e l Hm. unfold binary_round_aux.
  pose proof (shr_fexp_nonneg m e l Hm) as H1.
  destruct (shr_fexp prec emax m e l) as [mrs' e']. simpl in H1.
  pose proof (shr_fexp_nonneg _ e' loc_Exact
                (round_nearest_even_nonneg _ (loc_of_shr_record mrs') H1)) as H2.
  destruct (shr_fexp prec emax _ e' loc_Exact) as [mrs'' e'']. simpl in H2.
  destruct (shr_m mrs'') as [|q|q];
    [ | destruct (e'' <=? emax - prec) | ]; cbn; try reflexivity; lia.
Qed.

Lemma SFdiv_core_nonneg : forall mx ex my ey,
  0 <= fst (fst (SFdiv_core_binary prec emax (Zpos mx) ex (Zpos my) ey)).
Proof.
  intros mx ex my ey. unfold SFdiv_core_binary. cbv zeta.
  match goal with
  | |- context [Z.div_eucl ?m _] => set (m' := m)
  end.
  assert (Hm : 0 <= m').
  { subst m'. destruct (ex - ey - _) as [|p|p]; try lia.
    apply Z.shiftl_nonneg. lia. }
  pose proof (Z.div_pos m' (Zpos my) Hm eq_refl) as Hq.
  unfold Z.div in Hq.
  destruct (Z.div_eucl m' (Zpos my)) as [q r]. exact Hq.
Qed.

(** Dividing a number by a finite non-zero one gives a number, whose sign
    is the product of the signs. *)
Lemma SFdiv_signed : forall sx x sy my ey,
  signed sx x ->
  signed (xorb sx sy) (SFdiv prec emax x (S754_finite sy my ey)).
Proof.
  intros sx x sy my ey Hx.
  destruct x as [s|s| |s mx ex]; simpl in Hx; try contradiction; subst;
    cbn -[SFdiv_core_binary binary_round_aux]; try reflexivity.
  pose proof (SFdiv_core_nonneg mx ex my ey) as Hq.
  destruct (SFdiv_core_binary prec emax (Zpos mx) ex (Zpos my) ey) as [[q e'] l].
  now apply binary_round_aux_signed.
Qed.

Lemma SFcompare_antisym : forall x y,
  SFcompare y x = option_map CompOpp (SFcompare x y).
Proof.
  intros [sx|sx| |sx mx ex] [sy|sy| |sy my ey]; simpl; try reflexivity;
    try (destruct sx; reflexivity); try (destruct sy; reflexivity);
    try (destruct sx, sy; reflexivity).
  destruct sx, sy; simpl; try reflexivity;
    rewrite (Z.compare_antisym ex ey);
    destruct (ex ?= ey); simpl; try reflexivity;
    rewrite (Pos.compare_cont_antisym mx my Eq); simpl;
    now rewrite ?CompOpp_involutive.
Qed.

Lemma SFcompare_numbers : forall x y sx sy,
  signed sx x -> signed sy y -> SFcompare x y <> None.
Proof.
  intros [s1|s1| |s1 m1 e1] [s2|s2| |s2 m2 e2] sx sy Hx Hy; simpl in *;
    try contradiction; discriminate.
Qed.

Lemma SFcompare_refl_number : forall x s, signed s x -> SFcompare x x = Some Eq.
Proof.
  intros [s1|s1| |s1 m1 e1] s Hx; simpl in *; try contradiction.
  - reflexivity.
  - now destruct s1.
  - rewrite Z.compare_refl, Pos.compare_cont_refl. now destruct s1.
Qed.

Lemma SFmul_zero_or_nan_l : forall x y,
  zero_or_nan x -> zero_or_nan (SFmul prec emax x y).
Proof.
  intros [sx|sx| |sx mx ex] [sy|sy| |sy my ey] Hx; simpl in *;
    try contradiction; exact I.
Qed.

Lemma SFmul_zero_or_nan_r : forall x y,
  zero_or_nan y -> zero_or_nan (SFmul prec emax x y).
Proof.
  intros [sx|sx| |sx mx ex] [sy|sy| |sy my ey] Hy; simpl in *;
    try contradiction; exact I.
Qed.

Lemma SFdiv_zero_or_nan : forall x y,
  zero_or_nan x -> zero_or_nan y -> SFdiv prec emax x y = S754_nan.
Proof.
  intros [sx|sx| |sx mx ex] [sy|sy| |sy my ey] Hx Hy; simpl in *;
    try contradiction; reflexivity.
Qed.

Lemma SFmul_nan_l : forall y, SFmul prec emax S754_nan y = S754_nan.
Proof. intros y. reflexivity. Qed.

End Binary64.

(** ** [timeScale] *)

Section TimeScale.

Local Open Scope float_scope.

Lemma nan_is_nan : forall x, Prim2SF x = S754_nan -> is_nan x = true.
Proof. intros x H. unfold is_nan. rewrite eqb_spec, H. reflexivity. Qed.

Lemma number_not_nan : forall x s, signed s (Prim2SF x) -> is_nan x = false.
Proof.
  intros x s H. unfold is_nan. rewrite eqb_spec. unfold SFeqb.
  now rewrite (SFcompare_refl_number _ s H).
Qed.

Lemma not_nan_number : forall x, is_nan x = false -> exists s, signed s (Prim2SF x).
Proof.
  intros x. unfold is_nan. rewrite eqb_spec.
  destruct (Prim2SF x) as [s|s| |s m e]; cbn; try (now exists s).
  discriminate.
Qed.

Lemma leb_zero_nonneg : forall x, (0 <=? x) = true <-> SFnonneg (Prim2SF x).
Proof.
  intros x. rewrite leb_spec.
  change (Prim2SF 0) with (S754_zero false).
  destruct (Prim2SF x) as [s|s| |s m e]; cbn; try destruct s; cbn;
    intuition congruence.
Qed.

Lemma signed_false_nonneg : forall x, signed false x -> SFnonneg x.
Proof. intros [s|s| |s m e]; cbn; auto. Qed.

Lemma SFnonneg_signed : forall x, SFnonneg x -> exists s, signed s x.
Proof.
  intros [s|s| |s m e]; cbn; intros H; try contradiction; now exists s.
Qed.

Lemma SFdiv_nonneg : forall x my ey,
  SFnonneg x -> SFnonneg (SFdiv prec emax x (S754_finite false my ey)).
Proof.
  intros x my ey Hx.
  destruct x as [s|s| |s mx ex]; cbn in Hx; try contradiction; subst.
  - exact I.
  - reflexivity.
  - apply signed_false_nonneg.
    apply (SFdiv_signed false (S754_finite false mx ex) false my ey eq_refl).
Qed.

Lemma ltb_leb : forall x y, (x <? y) = true -> (x <=? y) = true.
Proof.
  intros x y. rewrite ltb_spec, leb_spec. unfold SFltb, SFleb.
  now destruct (SFcompare (Prim2SF x) (Prim2SF y)) as [[| |]|].
Qed.

(** Two numbers neither of which is below the other compare as equal. *)
Lemma not_ltb_leb : forall x y sx sy,
  signed sx (Prim2SF x) -> signed sy (Prim2SF y) ->
  (x <? y) = false -> (y <? x) = false -> (x <=? y) = true.
Proof.
  intros x y sx sy Hx Hy. rewrite !ltb_spec, leb_spec. unfold SFltb, SFleb.
  rewrite (SFcompare_antisym (Prim2SF x) (Prim2SF y)).
  pose proof (SFcompare_numbers _ _ sx sy Hx Hy) as Hc.
  destruct (SFcompare (Prim2SF x) (Prim2SF y)) as [[| |]|]; cbn; congruence.
Qed.

(** [Math.min(q, 2)] for a number [q] is [q] when [q <= 2], and [2]
    otherwise. *)
Lemma Math_min_two : forall q s,
  signed s (Prim2SF q) ->
  (JS.Math_min q 2 = q /\ (q <=? 2) = true) \/ JS.Math_min q 2 = 2.
Proof.
  intros q s Hq. unfold JS.Math_min.
  rewrite (number_not_nan q s Hq).
  change (is_nan 2) with false. cbn [orb].
  destruct (q <? 2) eqn:Hlt; [left; split; [reflexivity | now apply ltb_leb]|].
  destruct (2 <? q) eqn:Hgt; [now right|].
  assert (Hle : (q <=? 2) = true)
    by (apply (not_ltb_leb q 2 s false Hq eq_refl Hlt Hgt)).
  destruct (is_zero q) eqn:Hz; [|now left].
  exfalso. unfold is_zero in Hz. rewrite eqb_spec in Hz. rewrite ltb_spec in Hlt.
  change (Prim2SF zero) with (S754_zero false) in Hz.
  change (Prim2SF 2) with (S754_finite false 4503599627370496 (-51)) in Hlt.
  clear Hq Hle Hgt.
  destruct (Prim2SF q) as [s1|s1| |s1 m1 e1]; cbn in Hz;
    try discriminate; destruct s1; discriminate.
Qed.

Lemma timeScale_quotient : forall deltaTime,
  Prim2SF (deltaTime / (1000 / 60))
  = SFdiv prec emax (Prim2SF deltaTime) (S754_finite false 4691249611844267 (-48)).
Proof. intros deltaTime. now rewrite div_spec. Qed.

(** C2, as amended.  Only the upper end of [timeScale] is clamped: for every
    [deltaTime] that is a number, [timeScale <= 2.0]; and for every
    [deltaTime >= 0], [timeScale] lies in [[0, 2.0]]. *)
Theorem timeScale_range :
  (forall deltaTime : float,
      is_nan deltaTime = false -> (timeScale deltaTime <=? 2.0) = true)
  /\ (forall deltaTime : float,
         (0 <=? deltaTime) = true ->
         (0 <=? timeScale deltaTime) = true
         /\ (timeScale deltaTime <=? 2.0) = true).
Proof.
  split.
  - intros deltaTime Hnum. unfold timeScale.
    destruct (not_nan_number deltaTime Hnum) as [s Hs].
    assert (Hq : signed (xorb s false) (Prim2SF (deltaTime / (1000 / 60)))).
    { rewrite timeScale_quotient. now apply SFdiv_signed. }
    destruct (Math_min_two _ _ Hq) as [[-> Hle] | ->]; [exact Hle | reflexivity].
  - intros deltaTime Hpos. unfold timeScale.
    apply leb_zero_nonneg in Hpos.
    assert (Hq : SFnonneg (Prim2SF (deltaTime / (1000 / 60)))).
    { rewrite timeScale_quotient. now apply SFdiv_nonneg. }
    destruct (SFnonneg_signed _ Hq) as [s Hs].
    destruct (Math_min_two _ _ Hs) as [[-> Hle] | ->].
    + split; [now apply leb_zero_nonneg | exact Hle].
    + split; reflexivity.
Qed.

Lemma timeScale_range_witness :
  (0 <=? 33) = true
  /\ (0 <=? timeScale 33) = true
  /\ (timeScale 33 <=? 2.0) = true.
Proof.
  split; [reflexivity|].
  apply (proj2 timeScale_range 33). reflexivity.
Defined.

(** C2 fails as stated: when the clock steps back by one millisecond,
    [deltaTime = -1] and [timeScale] is about [-0.06], below [0]. *)
Lemma timeScale_negative :
  (0 <=? timeScale (-1)) = false /\ (timeScale (-1) <? 0) = true.
Proof. split; reflexivity. Qed.

End TimeScale.

(** ** [NaN] and the order of the numbers *)

Section Order.

Local Open Scope float_scope.

Lemma is_nan_Prim2SF : forall x, is_nan x = true -> Prim2SF x = S754_nan.
Proof.
  intros x. unfold is_nan. rewrite eqb_spec. unfold SFeqb.
  destruct (Prim2SF x) as [s|s| |s m e] eqn:E; try reflexivity;
    rewrite (SFcompare_refl_number _ s); cbn; try discriminate; reflexivity.
Qed.

(** [NaN] is absorbing. *)
Lemma mul_nan_l : forall a b, is_nan a = true -> is_nan (a * b) = true.
Proof.
  intros a b Ha. apply nan_is_nan. rewrite mul_spec, (is_nan_Prim2SF a Ha). reflexivity.
Qed.

Lemma add_nan_l : forall a b, is_nan a = true -> is_nan (a + b) = true.
Proof.
  intros a b Ha. apply nan_is_nan. rewrite add_spec, (is_nan_Prim2SF a Ha). reflexivity.
Qed.

Lemma add_nan_r : forall a b, is_nan b = true -> is_nan (a + b) = true.
Proof.
  intros a b Hb. apply nan_is_nan. rewrite add_spec, (is_nan_Prim2SF b Hb).
  unfold SF64add. now destruct (Prim2SF a).
Qed.

Lemma sqrt_nan : forall a, is_nan a = true -> is_nan (sqrt a) = true.
Proof.
  intros a Ha. apply nan_is_nan. rewrite sqrt_spec, (is_nan_Prim2SF a Ha). reflexivity.
Qed.

(** Nothing is below [NaN]: the boundary check lets a [NaN] distance pass. *)
Lemma ltb_nan_r : forall a b, is_nan b = true -> (a <? b) = false.
Proof.
  intros a b Hb. rewrite ltb_spec, (is_nan_Prim2SF b Hb). unfold SFltb.
  now destruct (Prim2SF a).
Qed.

Lemma nan_not_finite : forall p, is_nan (Vec.x p) = true -> Vec.finite p = false.
Proof.
  intros p H. unfold Vec.finite, JS.finite, is_finite. now rewrite H.
Qed.






End Order.

(** ** The number of iterations of a counting loop *)

Section Iterations.
Local Open Scope Z_scope.

(** The closed form of the loop count rounds the value up. *)
Lemma iterations_roundedUp : forall count, roundedUp count (JS.iterations count).
Proof.
  intros count. unfold roundedUp, JS.iterations.
  destruct (Prim2SF count) as [s|[|]| |[|] m e]; try reflexivity; try exact I.
  destruct e as [|p|p].
  - split; [intros _ | lia]. rewrite Z2Nat.id; lia.
  - split; [intros _ | lia]. rewrite Z2Nat.id; [reflexivity|].
    apply Z.mul_nonneg_nonneg; [lia|]. apply Z.pow_nonneg. lia.
  - split; [lia | intros _].
    change (- Z.neg p) with (Z.pos p).
    assert (Hd : 0 < 2 ^ Z.pos p) by (apply Z.pow_pos_nonneg; lia).
    pose proof (Z.div_mod (- Z.pos m) (2 ^ Z.pos p) ltac:(lia)) as Hdm.
    pose proof (Z.mod_pos_bound (- Z.pos m) (2 ^ Z.pos p) Hd) as Hmod.
    set (d := 2 ^ Z.pos p) in *. set (q := - Z.pos m / d) in *.
    assert (Hq : 0 < - q) by nia.
    rewrite Z2Nat.id by lia. nia.
Qed.


End Iterations.

(** ** The size of the particle pool *)

Lemma Basic_placeAll_length : forall h o count g,
  let '(ps, vs, _) := Basic.placeAll h o count g in
  List.length ps = count /\ List.length vs = count.
Proof.
  intros h o count; induction count as [|count IH]; intros g; simpl.
  - split; reflexivity.
  - destruct (placeParticle h o g) as [[particle velocity] g1].
    specialize (IH g1).
    destruct (Basic.placeAll h o count g1) as [[ps vs] g2].
    simpl. destruct IH as [-> ->]. split; reflexivity.
Qed.

Lemma Prismatic_placeAll_length : forall h o count g,
  let '(ps, vs, cs, _) := Prismatic.placeAll h o count g in
  List.length ps = count /\ List.length vs = count /\ List.length cs = count.
Proof.
  intros h o count; induction count as [|count IH]; intros g; simpl.
  - repeat split.
  - destruct (placeParticle h o g) as [[particle velocity] g1].
    specialize (IH (snd (random (snd (random (snd (random g1))))))).
    simpl in IH.
    destruct (Prismatic.placeAll h o count _) as [[[ps vs] cs] g2].
    simpl. destruct IH as (-> & -> & ->). repeat split.
Qed.

(** [initParticles] fills the pool with one particle and one velocity per
    iteration of its loop; it does not clamp. *)
Lemma initParticles_length : forall v h s g,
  let s' := fst (initParticles v h s g) in
  let count := JS.ToNumber (Options.particleCount (Sim.options s)) in
  List.length (Sim.particles s') = JS.iterations count
  /\ List.length (Sim.velocities s') = JS.iterations count.
Proof.
  intros v h s g; cbv zeta.
  destruct v; unfold initParticles, Basic.initParticles, Prismatic.initParticles.
  - pose proof (Basic_placeAll_length h (Sim.options s)
                  (JS.iterations
                     (JS.ToNumber (Options.particleCount (Sim.options s)))) g) as H.
    destruct (Basic.placeAll _ _ _ _) as [[ps vs] g']. simpl. exact H.
  - pose proof (Prismatic_placeAll_length h (Sim.options s)
                  (JS.iterations
                     (JS.ToNumber (Options.particleCount (Sim.options s)))) g) as H.
    destruct (Prismatic.placeAll _ _ _ _) as [[[ps vs] cs] g']. simpl.
    destruct H as (H1 & H2 & _). split; assumption.
Qed.

Lemma initParticles_options : forall v h s g,
  Sim.options (fst (initParticles v h s g)) = Sim.options s.
Proof.
  intros v h s g.
  destruct v; unfold initParticles, Basic.initParticles, Prismatic.initParticles.
  - destruct (Basic.placeAll _ _ _ _) as [[ps vs] g']. reflexivity.
  - destruct (Prismatic.placeAll _ _ _ _) as [[[ps vs] cs] g']. reflexivity.
Qed.


Lemma resetSimulation_length : forall v h now s g,
  let s' := fst (resetSimulation v h now s g) in
  let count := JS.ToNumber (Options.particleCount (Sim.options s)) in
  List.length (Sim.particles s') = JS.iterations count
  /\ List.length (Sim.velocities s') = JS.iterations count.
Proof.
  intros v h now s g; cbv zeta. unfold resetSimulation.
  pose proof (initParticles_length v h (stopSimulation s) g) as H.
  cbv zeta in H.
  destruct (initParticles v h (stopSimulation s) g) as [s1 g1]. simpl in *.
  assert (Ho : Sim.options (stopSimulation s) = Sim.options s)
    by (unfold stopSimulation; destruct (Sim.running s); reflexivity).
  rewrite Ho in H.
  unfold startSimulation. simpl. destruct (Sim.running s1); simpl; exact H.
Qed.

(** The particle loop keeps the length of each array, also when it throws,
    so the arrays of a simulation always have the common length
    [initParticles] gave them: the loop never meets a particle without a
    velocity (or a colour). *)
Lemma Basic_updateParticles_length : forall h o ts players ps vs g,
  let '(ps', vs', _) := written (Basic.updateParticles h o ts players ps vs g) in
  List.length ps' = List.length ps /\ List.length vs' = List.length vs.
Proof.
  intros h o ts players ps; induction ps as [|particle ps IH]; intros vs g; simpl.
  - split; reflexivity.
  - destruct vs as [|velocity vs]; [split; reflexivity|].
    destruct (Basic.updateParticle h o ts players particle velocity g)
      as [[[particle1 velocity1] g1]|[[particle1 velocity1] g1]]; simpl.
    + specialize (IH vs g1).
      destruct (Basic.updateParticles h o ts players ps vs g1)
        as [[[ps2 vs2] g2]|[[ps2 vs2] g2]];
        simpl in *; destruct IH as [-> ->]; split; reflexivity.
    + split; reflexivity.
Qed.

Lemma Prismatic_updateParticles_length : forall h o ts players n ps i vs cs vc g,
  let '(ps', vs', _, _) :=
    written (Prismatic.updateParticles h o ts players n i ps vs cs vc g) in
  List.length ps' = List.length ps /\ List.length vs' = List.length vs.
Proof.
  intros h o ts players n ps; induction ps as [|particle ps IH];
    intros i vs cs vc g; simpl.
  - split; reflexivity.
  - destruct vs as [|velocity vs]; [split; reflexivity|].
    destruct cs as [|color cs]; [split; reflexivity|].
    destruct (Prismatic.updateParticle h o ts players n i particle velocity color vc g)
      as [[[[particle1 velocity1] vc1] g1]|[[[particle1 velocity1] vc1] g1]]; simpl.
    + specialize (IH (S i) vs cs vc1 g1).
      destruct (Prismatic.updateParticles h o ts players n (S i) ps vs cs vc1 g1)
        as [[[[ps2 vs2] vc2] g2]|[[[ps2 vs2] vc2] g2]];
        simpl in *; destruct IH as [-> ->]; split; reflexivity.
    + split; reflexivity.
Qed.

Lemma updatePhysics_length : forall v h deltaTime s g,
  let s' := fst (written (updatePhysics v h deltaTime s g)) in
  List.length (Sim.particles s') = List.length (Sim.particles s)
  /\ List.length (Sim.velocities s') = List.length (Sim.velocities s)
  /\ Sim.colors s' = Sim.colors s
  /\ Sim.options s' = Sim.options s
  /\ Sim.players s' = Sim.players s.
Proof.
  intros v h deltaTime s g; cbv zeta.
  destruct v; unfold updatePhysics, Basic.updatePhysics, Prismatic.updatePhysics.
  - pose proof (Basic_updateParticles_length h (Sim.options s) (timeScale deltaTime)
                  (Sim.players s) (Sim.particles s) (Sim.velocities s) g) as H.
    destruct (Basic.updateParticles _ _ _ _ _ _ _) as [[[ps vs] g']|[[ps vs] g']];
      simpl in *; destruct H as [-> ->]; repeat split.
  - pose proof (Prismatic_updateParticles_length h (Sim.options s)
                  (timeScale deltaTime) (Sim.players s)
                  (List.length (Sim.particles s)) (Sim.particles s) 0
                  (Sim.velocities s) (Sim.colors s) (Sim.particleVirtualColors s) g)
      as H.
    destruct (Prismatic.updateParticles _ _ _ _ _ _ _ _ _ _ _)
      as [[[[ps vs] vc] g']|[[[ps vs] vc] g']];
      simpl in *; destruct H as [-> ->]; repeat split.
Qed.





(** ** The [setParticleCount] message *)

(** C9.  A [setParticleCount] message whose [count] is [0], missing, or any
    other falsy value leaves the whole server as it was: the particle count
    is not clamped, the pool is not reinitialised, nothing is written to any
    connection.  The clamp-and-reset path is the one taken when [count] is
    truthy (and the message comes from a connected channel). *)
Theorem falsy_count_is_ignored :
  forall (v : Variant) (h : Host) (s : Server.t) (ws : Channel) (now : Z),
    Server.message v h ws (Some (SetParticleCount (Some (JS.Num 0%float)))) now s = s
    /\ Server.message v h ws (Some (SetParticleCount None)) now s = s
    /\ (forall count : JS.value,
           JS.ToBoolean count = false ->
           Server.message v h ws (Some (SetParticleCount (Some count))) now s = s)
    /\ (forall (playerId : N) (count : JS.value),
           Server.findPlayer ws (Server.players s) = Some playerId ->
           JS.ToBoolean count = true ->
           Server.message v h ws (Some (SetParticleCount (Some count))) now s
           = Server.setParticleCount v h count now s).
Proof.
  intros v h s ws now. unfold Server.message.
  destruct (Server.findPlayer ws (Server.players s)) as [playerId|].
  - split; [reflexivity|]. split; [reflexivity|]. split.
    + intros count Hcount. now rewrite Hcount.
    + intros _ count _ Hcount. now rewrite Hcount.
  - split; [reflexivity|]. split; [reflexivity|]. split; [reflexivity|].
    intros playerId count Hws. discriminate.
Qed.

Lemma falsy_count_is_ignored_witness :
  Server.findPlayer 7%nat (Server.players (smallServer SimplePrism)) = Some 1%N
  /\ JS.ToBoolean (JS.Num 600) = true
  /\ Server.message SimplePrism RefHost.host 7%nat
       (Some (SetParticleCount (Some (JS.Num 600)))) 40 (smallServer SimplePrism)
     = Server.setParticleCount SimplePrism RefHost.host (JS.Num 600) 40
         (smallServer SimplePrism).
Proof.
  split; [reflexivity|]. split; [reflexivity|].
  apply (proj2 (proj2 (proj2 (falsy_count_is_ignored SimplePrism RefHost.host
                                (smallServer SimplePrism) 7%nat 40%Z))) 1%N (JS.Num 600)).
  - reflexivity.
  - reflexivity.
Defined.

(** ** Removing a player *)

Lemma Sim_with_players_same : forall s, Sim.with_players (Sim.players s) s = s.
Proof. intros s. destruct s; reflexivity. Qed.

(** Adding a record for an id the registry does not have and removing the
    id again gives the simulation back. *)
Lemma removePlayer_after_set : forall s playerId record,
  Registry.get playerId (Sim.players s) = None ->
  removePlayer playerId
    (Sim.with_players (Registry.set playerId record (Sim.players s)) s)
  = (true, s).
Proof.
  intros s playerId record Habsent. unfold removePlayer. simpl.
  rewrite Registry_get_set_same.
  rewrite Registry_delete_set_absent by assumption.
  f_equal. destruct s; reflexivity.
Qed.

(** C4.  Take a simulation whose registry does not contain [playerId].
    Put any record under that id (in particular the one [addPlayer]
    creates), remove the id, and run one physics step: with the same random
    draws the result, positions and velocities included, is the one of the
    step run on the simulation that never had the player. *)
Theorem removed_player_leaves_no_trace :
  forall (v : Variant) (h : Host) (deltaTime : float) (s : Sim.t) (g : Rng)
         (playerId : N),
    Registry.get playerId (Sim.players s) = None ->
    (forall record : Player.t,
        let had := Sim.with_players (Registry.set playerId record (Sim.players s)) s in
        fst (removePlayer playerId had) = true
        /\ updatePhysics v h deltaTime (snd (removePlayer playerId had)) g
           = updatePhysics v h deltaTime s g)
    /\ (forall params : Params.t,
           let had := snd (addPlayer playerId params s) in
           fst (removePlayer playerId had) = true
           /\ updatePhysics v h deltaTime (snd (removePlayer playerId had)) g
              = updatePhysics v h deltaTime s g).
Proof.
  intros v h deltaTime s g playerId Habsent. split.
  - intros record; cbv zeta.
    rewrite removePlayer_after_set by assumption. split; reflexivity.
  - intros params; cbv zeta. unfold addPlayer. cbn [snd].
    rewrite removePlayer_after_set by assumption. split; reflexivity.
Qed.

Lemma removed_player_leaves_no_trace_witness :
  let s := fst (construct SimplePrism RefHost.host
                  (OptionsArg.mk (Some (JS.Num 3)) None None None None None None None)
                  (rngOf [])) in
  Registry.get 1 (Sim.players s) = None
  /\ updatePhysics SimplePrism RefHost.host 33
       (snd (removePlayer 1 (snd (addPlayer 1 playerA s)))) (rngOf [])
     = updatePhysics SimplePrism RefHost.host 33 s (rngOf []).
Proof.
  cbv zeta. split; [reflexivity|].
  apply (proj2 (removed_player_leaves_no_trace SimplePrism RefHost.host 33
                  (fst (construct SimplePrism RefHost.host
                          (OptionsArg.mk (Some (JS.Num 3)) None None None None None None None)
                          (rngOf [])))
                  (rngOf []) 1 eq_refl) playerA).
Defined.

(** ** The virtual colour classes of the prismatic variant *)

Lemma VirtualColors_get_nil : forall i, VirtualColors.get i [] = None.
Proof. intros [|i]; reflexivity. Qed.

Lemma VirtualColors_get_set_same : forall i v a,
  VirtualColors.get i (VirtualColors.set i v a) = Some v.
Proof.
  unfold VirtualColors.get.
  induction i as [|i IH]; intros v [|e a]; simpl; auto.
Qed.

Lemma VirtualColors_get_set_other : forall i j v a,
  i <> j ->
  VirtualColors.get j (VirtualColors.set i v a) = VirtualColors.get j a.
Proof.
  unfold VirtualColors.get.
  induction i as [|i IH]; intros [|j] v [|e a] Hne; simpl; try congruence.
  - now destruct j.
  - rewrite IH by congruence. now destruct j.
  - apply IH. congruence.
Qed.

(** A property of the virtual colours and the generator that every draw
    and every reading of a class keeps is kept by a whole physics step,
    however the step ends. *)
Section ColourInvariant.

Variable h : Host.
Variable P : option VirtualColors.t -> Rng -> Prop.
Hypothesis P_draw : forall vc g, P vc g -> P vc (snd (random g)).
Hypothesis P_class : forall n i vc g,
  P vc g ->
  P (Some (snd (fst (Prismatic.virtualColorOf n i vc g))))
    (snd (Prismatic.virtualColorOf n i vc g)).

Local Open Scope float_scope.

Lemma classResponse_inv : forall ts d c vc g,
  P vc g -> P vc (snd (Prismatic.classResponse ts d c g)).
Proof.
  intros ts d c vc g Hp. unfold Prismatic.classResponse.
  destruct (c <? 2); [exact Hp|].
  destruct (c <? 4); [|exact Hp].
  apply P_draw in Hp. unfold random in *. exact Hp.
Qed.

Lemma prism_inv : forall ts n i player tx ty d velocity vc g,
  P vc g ->
  P (snd (fst (Prismatic.prism ts n i player tx ty d velocity vc g)))
    (snd (Prismatic.prism ts n i player tx ty d velocity vc g)).
Proof.
  intros ts n i player tx ty d velocity vc g Hp. unfold Prismatic.prism.
  destruct (d <? Player.prismRadius player * 1.5); [|exact Hp].
  destruct (d <? Player.prismRadius player).
  - pose proof (P_class n i vc g Hp) as Hc.
    destruct (Prismatic.virtualColorOf n i vc g) as [[vcol a] g1].
    cbn [fst snd] in Hc.
    pose proof (classResponse_inv ts
                  (JS.or_else (Player.prismDispersion player) 3.0) vcol _ _ Hc) as Hr.
    destruct (Prismatic.classResponse _ _ _ _) as [[[cf pf] sgn] g2].
    cbn [fst snd] in *.
    apply P_draw, P_draw in Hr. exact Hr.
  - apply P_draw, P_draw in Hp. exact Hp.
Qed.

Lemma applyPlayer_inv : forall ts n i particle velocity vc g player,
  P vc g ->
  let r := written (Prismatic.applyPlayer ts n i particle (velocity, vc, g) player) in
  P (snd (fst r)) (snd r).
Proof.
  intros ts n i particle velocity vc g player Hp; cbv zeta.
  unfold Prismatic.applyPlayer.
  destruct (Player.position player) as [position|]; [|exact Hp].
  cbn [written].
  match goal with |- context [if ?b then _ else _] => destruct b end.
  - now apply prism_inv.
  - exact Hp.
Qed.

Lemma players_inv : forall ts n i particle players velocity vc g,
  P vc g ->
  let r := written (each (Prismatic.applyPlayer ts n i particle) players
                         (velocity, vc, g)) in
  P (snd (fst r)) (snd r).
Proof.
  intros ts n i particle players; induction players as [|player players IH];
    intros velocity vc g Hp; [exact Hp|].
  cbn [each].
  pose proof (applyPlayer_inv ts n i particle velocity vc g player Hp) as H1.
  destruct (Prismatic.applyPlayer ts n i particle (velocity, vc, g) player)
    as [[[velocity1 vc1] g1]|[[velocity1 vc1] g1]]; cbn [written fst snd] in H1.
  - now apply IH.
  - exact H1.
Qed.

(** The colour loop takes no draw, one (the jitter) or two (the sideways
    push of a particle of no dominant colour, then the jitter). *)
Lemma disperse_draws : forall ts particle color velocity g player,
  let g' := snd (written (Prismatic.disperse ts particle color (velocity, g) player)) in
  g' = g \/ g' = snd (random g) \/ g' = snd (random (snd (random g))).
Proof.
  intros ts particle color velocity g player. unfold Prismatic.disperse.
  destruct (Player.position player) as [position|]; [|left; reflexivity].
  cbv beta iota zeta delta [written].
  repeat match goal with |- context [if ?b then _ else _] => destruct b end;
    unfold random; cbn [fst snd]; auto.
Qed.

Lemma disperse_inv : forall ts particle color velocity vc g player,
  P vc g ->
  P vc (snd (written (Prismatic.disperse ts particle color (velocity, g) player))).
Proof.
  intros ts particle color velocity vc g player Hp.
  pose proof (disperse_draws ts particle color velocity g player) as H.
  cbv zeta in H. destruct H as [->|[->| ->]];
    [exact Hp | now apply P_draw | now apply P_draw, P_draw].
Qed.

Lemma dispersal_inv : forall ts particle color players velocity vc g,
  P vc g ->
  P vc (snd (written (each (Prismatic.disperse ts particle color) players
                           (velocity, g)))).
Proof.
  intros ts particle color players; induction players as [|player players IH];
    intros velocity vc g Hp; [exact Hp|].
  cbn [each].
  pose proof (disperse_inv ts particle color velocity vc g player Hp) as H1.
  destruct (Prismatic.disperse ts particle color (velocity, g) player)
    as [[velocity1 g1]|[velocity1 g1]]; cbn [written fst snd] in H1.
  - now apply IH.
  - exact H1.
Qed.

(** The boundary check takes no draw, one (a bounce) or four (a respawn). *)
Lemma boundary_draws : forall o particle velocity g,
  let g' := snd (boundary h o particle velocity g) in
  g' = g \/ g' = snd (random g)
  \/ g' = snd (random (snd (random (snd (random (snd (random g))))))).
Proof.
  intros o particle velocity g. unfold boundary, respawn, bounce, random.
  cbv beta iota zeta.
  repeat match goal with |- context [if ?b then _ else _] => destruct b end;
    cbn [fst snd tape cursor];
    first [left; reflexivity | right; left; reflexivity | right; right; reflexivity].
Qed.

Lemma boundary_inv : forall o particle velocity vc g,
  P vc g -> P vc (snd (boundary h o particle velocity g)).
Proof.
  intros o particle velocity vc g Hp.
  pose proof (boundary_draws o particle velocity g) as H.
  cbv zeta in H. destruct H as [->|[->| ->]];
    [exact Hp | now apply P_draw | now apply P_draw, P_draw, P_draw, P_draw].
Qed.

Lemma updateParticle_inv : forall o ts players n i particle velocity color vc g,
  P vc g ->
  let r := written (Prismatic.updateParticle h o ts players n i
                      particle velocity color vc g) in
  P (snd (fst r)) (snd r).
Proof.
  intros o ts players n i particle velocity color vc g Hp; cbv zeta.
  unfold Prismatic.updateParticle.
  pose proof (dispersal_inv ts particle color (Registry.values players)
                velocity vc g Hp) as H1.
  destruct (each (Prismatic.disperse ts particle color) _ _)
    as [[velocity1 g1]|[velocity1 g1]]; cbn [written fst snd] in H1; [|exact H1].
  pose proof (players_inv ts n i particle (Registry.values players)
                (centralGravity o ts particle velocity1) vc g1 H1) as H2.
  cbv zeta in H2.
  destruct (each (Prismatic.applyPlayer ts n i particle) _ _)
    as [[[velocity2 vc2] g2]|[[velocity2 vc2] g2]]; cbn [written fst snd] in H2;
    [|exact H2].
  pose proof (boundary_inv o
                (advance ts particle (damp h o ts velocity2))
                (damp h o ts velocity2) vc2 g2 H2) as H3.
  destruct (boundary h o _ _ g2) as [[particle3 velocity3] g3].
  exact H3.
Qed.

Lemma updateParticles_inv : forall o ts players n ps i vs cs vc g,
  P vc g ->
  let r := written (Prismatic.updateParticles h o ts players n i ps vs cs vc g) in
  P (snd (fst r)) (snd r).
Proof.
  intros o ts players n ps; induction ps as [|particle ps IH];
    intros i vs cs vc g Hp; [exact Hp|].
  cbn [Prismatic.updateParticles].
  destruct vs as [|velocity vs]; [exact Hp|].
  destruct cs as [|color cs]; [exact Hp|].
  pose proof (updateParticle_inv o ts players n i particle velocity color vc g Hp)
    as H1. cbv zeta in H1.
  destruct (Prismatic.updateParticle h o ts players n i particle velocity color vc g)
    as [[[[particle1 velocity1] vc1] g1]|[[[particle1 velocity1] vc1] g1]];
    cbn [written fst snd] in H1; [|exact H1].
  specialize (IH (S i) vs cs vc1 g1 H1). cbv zeta in IH.
  destruct (Prismatic.updateParticles h o ts players n (S i) ps vs cs vc1 g1)
    as [[[[ps2 vs2] vc2] g2]|[[[ps2 vs2] vc2] g2]]; exact IH.
Qed.

Lemma updatePhysics_inv : forall deltaTime s g,
  P (Sim.particleVirtualColors s) g ->
  let r := written (Prismatic.updatePhysics h deltaTime s g) in
  P (Sim.particleVirtualColors (fst r)) (snd r).
Proof.
  intros deltaTime s g Hp; cbv zeta. unfold Prismatic.updatePhysics.
  pose proof (updateParticles_inv (Sim.options s) (timeScale deltaTime)
                (Sim.players s) (List.length (Sim.particles s)) (Sim.particles s)
                0 (Sim.velocities s) (Sim.colors s) _ g Hp) as H1.
  cbv zeta in H1.
  destruct (Prismatic.updateParticles _ _ _ _ _ _ _ _ _ _ _)
    as [[[[ps vs] vc] g']|[[[ps vs] vc] g']]; exact H1.
Qed.

End ColourInvariant.

(** A step throws only when a player has no position. *)
Section Returns.

Variable h : Host.

Lemma each_returns : forall (A B : Type) (body : A -> B -> Completion A)
                            (Q : B -> Prop) (l : list B),
  (forall a b, Q b -> exists a', body a b = Normal a') ->
  Forall Q l ->
  forall a, exists a', each body l a = Normal a'.
Proof.
  intros A B body Q l Hbody Hall. induction Hall as [|b l Hb Hall IH]; intros a.
  - now exists a.
  - cbn [each]. destruct (Hbody a b Hb) as [a' ->]. apply IH.
Qed.

Lemma Basic_applyPlayer_returns : forall ts particle velocity player,
  Player.position player <> None ->
  exists velocity', Basic.applyPlayer ts particle velocity player = Normal velocity'.
Proof.
  intros ts particle velocity player Hpos. unfold Basic.applyPlayer.
  destruct (Player.position player); [eexists; reflexivity | congruence].
Qed.

Lemma Prismatic_applyPlayer_returns : forall ts n i particle st player,
  Player.position player <> None ->
  exists st', Prismatic.applyPlayer ts n i particle st player = Normal st'.
Proof.
  intros ts n i particle [[velocity vc] g] player Hpos. unfold Prismatic.applyPlayer.
  destruct (Player.position player); [eexists; reflexivity | congruence].
Qed.

Lemma disperse_returns : forall ts particle color vg player,
  Player.position player <> None ->
  exists vg', Prismatic.disperse ts particle color vg player = Normal vg'.
Proof.
  intros ts particle color [velocity g] player Hpos. unfold Prismatic.disperse.
  destruct (Player.position player); [eexists; reflexivity | congruence].
Qed.

Lemma Basic_updateParticles_returns : forall o ts players ps vs g,
  Forall (fun pl => Player.position pl <> None) (Registry.values players) ->
  exists r, Basic.updateParticles h o ts players ps vs g = Normal r.
Proof.
  intros o ts players ps; induction ps as [|particle ps IH]; intros vs g Hall.
  - eexists; reflexivity.
  - cbn [Basic.updateParticles]. destruct vs as [|velocity vs]; [eexists; reflexivity|].
    unfold Basic.updateParticle.
    destruct (each_returns _ _ (Basic.applyPlayer ts particle) _ _
                (Basic_applyPlayer_returns ts particle) Hall
                (centralGravity o ts particle velocity)) as [velocity1 ->].
    destruct (boundary h o _ _ g) as [[particle2 velocity2] g2].
    destruct (IH vs g2 Hall) as [[[ps3 vs3] g3] ->].
    eexists; reflexivity.
Qed.

Lemma Prismatic_updateParticle_returns :
  forall o ts players n i particle velocity color vc g,
    Forall (fun pl => Player.position pl <> None) (Registry.values players) ->
    exists r, Prismatic.updateParticle h o ts players n i particle velocity color vc g
              = Normal r.
Proof.
  intros o ts players n i particle velocity color vc g Hall.
  unfold Prismatic.updateParticle.
  destruct (each_returns _ _ (Prismatic.disperse ts particle color) _ _
              (disperse_returns ts particle color) Hall (velocity, g))
    as [[velocity1 g1] ->].
  destruct (each_returns _ _ (Prismatic.applyPlayer ts n i particle) _ _
              (Prismatic_applyPlayer_returns ts n i particle) Hall
              (centralGravity o ts particle velocity1, vc, g1))
    as [[[velocity2 vc2] g2] ->].
  destruct (boundary h o _ _ g2) as [[particle3 velocity3] g3].
  eexists; reflexivity.
Qed.

Lemma Prismatic_updateParticles_returns : forall o ts players n ps i vs cs vc g,
  Forall (fun pl => Player.position pl <> None) (Registry.values players) ->
  exists r, Prismatic.updateParticles h o ts players n i ps vs cs vc g = Normal r.
Proof.
  intros o ts players n ps; induction ps as [|particle ps IH];
    intros i vs cs vc g Hall.
  - eexists; reflexivity.
  - cbn [Prismatic.updateParticles].
    destruct vs as [|velocity vs]; [eexists; reflexivity|].
    destruct cs as [|color cs]; [eexists; reflexivity|].
    destruct (Prismatic_updateParticle_returns o ts players n i particle velocity
                color vc g Hall) as [[[[particle1 velocity1] vc1] g1] ->].
    destruct (IH (S i) vs cs vc1 g1 Hall) as [[[[ps2 vs2] vc2] g2] ->].
    eexists; reflexivity.
Qed.

(** When every player has a position, the step returns. *)
Lemma updatePhysics_returns : forall v deltaTime s g,
  positioned s -> returns (updatePhysics v h deltaTime s g) = true.
Proof.
  intros v deltaTime s g Hall.
  destruct v; unfold updatePhysics, Basic.updatePhysics, Prismatic.updatePhysics.
  - destruct (Basic_updateParticles_returns (Sim.options s) (timeScale deltaTime)
                (Sim.players s) (Sim.particles s) (Sim.velocities s) g Hall)
      as [[[ps vs] g'] ->]. reflexivity.
  - destruct (Prismatic_updateParticles_returns (Sim.options s) (timeScale deltaTime)
                (Sim.players s) (List.length (Sim.particles s)) (Sim.particles s) 0
                (Sim.velocities s) (Sim.colors s) (Sim.particleVirtualColors s) g Hall)
      as [[[[ps vs] vc] g'] ->]. reflexivity.
Qed.

End Returns.

Section ClassIsKept.

Variable h : Host.
Variable i0 : nat.
Variable c : float.
Hypothesis c_truthy : JS.truthy c = true.

Local Abbreviation kept := (fun (vc : option VirtualColors.t) (_ : Rng) => storedClass i0 c vc).

Lemma virtualColorOf_keeps : forall n i vc g,
  kept vc g ->
  kept (Some (snd (fst (Prismatic.virtualColorOf n i vc g))))
       (snd (Prismatic.virtualColorOf n i vc g)).
Proof.
  intros n i vc g (a & -> & Hget). unfold Prismatic.virtualColorOf.
  exists (snd (fst (Prismatic.virtualColorOf n i (Some a) g))).
  split; [reflexivity|]. unfold Prismatic.virtualColorOf.
  destruct (Nat.eq_dec i i0) as [->|Hne].
  - rewrite Hget, c_truthy. exact Hget.
  - destruct (VirtualColors.get i a) as [c'|]; [destruct (JS.truthy c')|];
      simpl; try assumption;
      now rewrite VirtualColors_get_set_other.
Qed.

Lemma ticks_keep : forall n deltaTime s g,
  storedClass i0 c (Sim.particleVirtualColors s) ->
  storedClass i0 c
    (Sim.particleVirtualColors (fst (written (ticks ColourPrism h n deltaTime s g)))).
Proof.
  induction n as [|n IH]; intros deltaTime s g Hk; [exact Hk|].
  cbn [ticks updatePhysics].
  pose proof (updatePhysics_inv h kept (fun vc g H => H) virtualColorOf_keeps
                deltaTime s g Hk) as Hk'.
  cbv zeta in Hk'.
  destruct (Prismatic.updatePhysics h deltaTime s g) as [[s' g']|[s' g']].
  - now apply IH.
  - exact Hk'.
Qed.

End ClassIsKept.

Section Redraw.

Variable h : Host.
Variable g0 : Rng.
Variable i0 : nat.
Variable c0 : float.
Hypothesis c0_falsy : JS.truthy c0 = false.

Local Open Scope float_scope.

(** The class has been drawn anew since [g0], or it is still the falsy
    [c0]. *)
Local Abbreviation redrawn := (redrawnSince g0 i0).
Local Abbreviation pending :=
  (fun (vc : option VirtualColors.t) (g : Rng) =>
     (later g0 g /\ storedClass i0 c0 vc) \/ redrawn vc g).

Lemma later_draw : forall g, later g0 g -> later g0 (snd (random g)).
Proof. intros g [Ht Hc]. split; simpl; [exact Ht | lia]. Qed.

Lemma redrawn_draw : forall vc g, redrawn vc g -> redrawn vc (snd (random g)).
Proof.
  intros vc g (Hl & j & Hj & Hst). split; [now apply later_draw|].
  exists j. split; [simpl; lia | exact Hst].
Qed.

Lemma pending_draw : forall vc g, pending vc g -> pending vc (snd (random g)).
Proof.
  intros vc g [[Hl Hst]|Hr].
  - left. split; [now apply later_draw | exact Hst].
  - right. now apply redrawn_draw.
Qed.

(** A falsy class, or none, is replaced by a draw. *)
Lemma redraw_at : forall a g,
  later g0 g ->
  redrawn (Some (VirtualColors.set i0 (JS.Math_floor (fst (random g) * 6)) a))
          (snd (random g)).
Proof.
  intros a g [Ht Hc]. split; [now apply later_draw|].
  exists (cursor g). split; [simpl; lia|].
  eexists. split; [reflexivity|].
  rewrite VirtualColors_get_set_same. unfold random. cbn [fst]. now rewrite Ht.
Qed.

Lemma redrawn_class : forall n i vc g,
  redrawn vc g ->
  redrawn (Some (snd (fst (Prismatic.virtualColorOf n i vc g))))
          (snd (Prismatic.virtualColorOf n i vc g)).
Proof.
  intros n i vc g Hr.
  pose proof Hr as (Hl & j & Hj & a & -> & Hget).
  unfold Prismatic.virtualColorOf.
  destruct (VirtualColors.get i a) as [c'|] eqn:Hi;
    [destruct (JS.truthy c') eqn:Ht|]; try exact Hr;
    (destruct (Nat.eq_dec i i0) as [->|Hne]; [exact (redraw_at a g Hl)|];
     unfold random; cbn [fst snd];
     split; [exact (later_draw g Hl)|];
     exists j; split; [simpl; lia|];
     eexists; split; [reflexivity|];
     now rewrite VirtualColors_get_set_other).
Qed.

Lemma pending_class : forall n i vc g,
  pending vc g ->
  pending (Some (snd (fst (Prismatic.virtualColorOf n i vc g))))
          (snd (Prismatic.virtualColorOf n i vc g)).
Proof.
  intros n i vc g [[Hl (a & -> & Hget)]|Hr]; [|right; now apply redrawn_class].
  unfold Prismatic.virtualColorOf.
  destruct (Nat.eq_dec i i0) as [->|Hne].
  - rewrite Hget, c0_falsy. right. exact (redraw_at a g Hl).
  - left.
    destruct (VirtualColors.get i a) as [c'|]; [destruct (JS.truthy c')|];
      unfold random; cbn [fst snd];
      (split; [first [exact Hl | exact (later_draw g Hl)]|]);
      eexists; (split; [reflexivity|]);
      rewrite ?VirtualColors_get_set_other by exact Hne; exact Hget.
Qed.

(** Reading the class of the particle at [i0] leaves it redrawn. *)
Lemma class_is_redrawn : forall n vc g,
  pending vc g ->
  redrawn (Some (snd (fst (Prismatic.virtualColorOf n i0 vc g))))
          (snd (Prismatic.virtualColorOf n i0 vc g)).
Proof.
  intros n vc g [[Hl (a & -> & Hget)]|Hr]; [|now apply redrawn_class].
  unfold Prismatic.virtualColorOf. rewrite Hget, c0_falsy.
  exact (redraw_at a g Hl).
Qed.

Lemma prism_redraws : forall ts n player tx ty d velocity vc g,
  (d <? Player.prismRadius player * 1.5) = true ->
  (d <? Player.prismRadius player) = true ->
  pending vc g ->
  redrawn (snd (fst (Prismatic.prism ts n i0 player tx ty d velocity vc g)))
          (snd (Prismatic.prism ts n i0 player tx ty d velocity vc g)).
Proof.
  intros ts n player tx ty d velocity vc g Hnear Hin Hp. unfold Prismatic.prism.
  rewrite Hnear, Hin.
  pose proof (class_is_redrawn n vc g Hp) as Hc.
  destruct (Prismatic.virtualColorOf n i0 vc g) as [[vcol a] g1].
  cbn [fst snd] in Hc.
  pose proof (classResponse_inv redrawn redrawn_draw ts
                (JS.or_else (Player.prismDispersion player) 3.0) vcol _ _ Hc) as Hr.
  destruct (Prismatic.classResponse _ _ _ _) as [[[cf pf] sgn] g2].
  cbn [fst snd] in *.
  apply redrawn_draw, redrawn_draw in Hr. exact Hr.
Qed.

Section Encounter.

Variable ts : float.
Variable n : nat.
Variable particle : Vec.t.
Variable player : Player.t.
Variable position : Vec.t.
Hypothesis has_position : Player.position player = Some position.
Hypothesis off_centre : (0.1 <? distance position particle) = true.
Hypothesis near : (distance position particle <? Player.prismRadius player * 1.5) = true.
Hypothesis inside : (distance position particle <? Player.prismRadius player) = true.

Lemma applyPlayer_redraws : forall velocity vc g,
  pending vc g ->
  exists r, Prismatic.applyPlayer ts n i0 particle (velocity, vc, g) player = Normal r
            /\ redrawn (snd (fst r)) (snd r).
Proof.
  intros velocity vc g Hp. unfold Prismatic.applyPlayer. rewrite has_position.
  eexists. split; [reflexivity|].
  unfold distance in off_centre, near, inside. cbv zeta in off_centre, near, inside.
  rewrite off_centre. now apply prism_redraws.
Qed.

Lemma players_redraw : forall players velocity vc g,
  In player players ->
  Forall (fun pl => Player.position pl <> None) players ->
  pending vc g ->
  exists r, each (Prismatic.applyPlayer ts n i0 particle) players (velocity, vc, g)
            = Normal r
            /\ redrawn (snd (fst r)) (snd r).
Proof.
  induction players as [|pl players IH]; intros velocity vc g Hin Hall Hp;
    [contradiction|].
  inversion Hall as [|? ? Hpl Hall']; subst. cbn [each].
  destruct Hin as [->|Hin].
  - destruct (applyPlayer_redraws velocity vc g Hp) as ([[velocity1 vc1] g1] & -> & Hr).
    cbn [fst snd] in Hr.
    pose proof (players_inv redrawn redrawn_draw redrawn_class ts n i0 particle players
                  velocity1 vc1 g1 Hr) as Hr'. cbv zeta in Hr'.
    destruct (each_returns _ _ (Prismatic.applyPlayer ts n i0 particle) _ _
                (Prismatic_applyPlayer_returns ts n i0 particle) Hall'
                (velocity1, vc1, g1)) as [r Hret].
    rewrite Hret in *. exists r. split; [reflexivity | exact Hr'].
  - pose proof (applyPlayer_inv pending pending_draw pending_class ts n i0 particle
                  velocity vc g pl Hp) as Hp'. cbv zeta in Hp'.
    destruct (Prismatic_applyPlayer_returns ts n i0 particle (velocity, vc, g) pl Hpl)
      as [[[velocity1 vc1] g1] Hret].
    rewrite Hret in *. cbn [written fst snd] in Hp'.
    now apply IH.
Qed.

Lemma updateParticle_redraws : forall o players velocity color vc g,
  In player (Registry.values players) ->
  Forall (fun pl => Player.position pl <> None) (Registry.values players) ->
  pending vc g ->
  exists r, Prismatic.updateParticle h o ts players n i0 particle velocity color vc g
            = Normal r
            /\ redrawn (snd (fst r)) (snd r).
Proof.
  intros o players velocity color vc g Hin Hall Hp. unfold Prismatic.updateParticle.
  pose proof (dispersal_inv pending pending_draw ts particle color
                (Registry.values players) velocity vc g Hp) as H1.
  destruct (each_returns _ _ (Prismatic.disperse ts particle color) _ _
              (disperse_returns ts particle color) Hall (velocity, g))
    as [[velocity1 g1] Hret].
  rewrite Hret in *. cbn [written snd] in H1.
  destruct (players_redraw (Registry.values players)
              (centralGravity o ts particle velocity1) vc g1 Hin Hall H1)
    as ([[velocity2 vc2] g2] & -> & Hr).
  cbn [fst snd] in Hr.
  pose proof (boundary_inv h redrawn redrawn_draw o
                (advance ts particle (damp h o ts velocity2))
                (damp h o ts velocity2) vc2 g2 Hr) as H3.
  destruct (boundary h o _ _ g2) as [[particle3 velocity3] g3].
  eexists. split; [reflexivity | exact H3].
Qed.

(** The particle loop from index [k] on, when the particle is at [i0]. *)
Lemma updateParticles_redraw : forall o players ps k vs cs vc g,
  In player (Registry.values players) ->
  Forall (fun pl => Player.position pl <> None) (Registry.values players) ->
  (k <= i0)%nat ->
  nth_error ps (i0 - k) = Some particle ->
  (i0 - k < List.length vs)%nat ->
  (i0 - k < List.length cs)%nat ->
  pending vc g ->
  let r := written (Prismatic.updateParticles h o ts players n k ps vs cs vc g) in
  redrawn (snd (fst r)) (snd r).
Proof.
  intros o players ps; induction ps as [|p ps IH];
    intros k vs cs vc g Hin Hall Hk Hnth Hvs Hcs Hp; cbv zeta.
  - destruct (i0 - k)%nat; discriminate.
  - cbn [Prismatic.updateParticles].
    destruct vs as [|velocity vs]; [simpl in Hvs; lia|].
    destruct cs as [|color cs]; [simpl in Hcs; lia|].
    destruct (Nat.eq_dec k i0) as [->|Hne].
    + rewrite Nat.sub_diag in Hnth. injection Hnth as ->.
      destruct (updateParticle_redraws o players velocity color vc g Hin Hall Hp)
        as ([[[particle1 velocity1] vc1] g1] & -> & Hr).
      cbn [fst snd] in Hr.
      pose proof (updateParticles_inv h redrawn redrawn_draw redrawn_class o ts players
                    n ps (S i0) vs cs vc1 g1 Hr) as Hr'. cbv zeta in Hr'.
      destruct (Prismatic.updateParticles h o ts players n (S i0) ps vs cs vc1 g1)
        as [[[[ps2 vs2] vc2] g2]|[[[ps2 vs2] vc2] g2]]; exact Hr'.
    + pose proof (updateParticle_inv h pending pending_draw pending_class o ts players
                    n k p velocity color vc g Hp) as Hp'. cbv zeta in Hp'.
      destruct (Prismatic_updateParticle_returns h o ts players n k p velocity color
                  vc g Hall) as [[[[particle1 velocity1] vc1] g1] Hret].
      rewrite Hret in *. cbn [written fst snd] in Hp'.
      assert (Hsub : (i0 - k = S (i0 - S k))%nat) by lia.
      rewrite Hsub in Hnth, Hvs, Hcs. simpl in Hnth, Hvs, Hcs.
      specialize (IH (S k) vs cs vc1 g1 Hin Hall ltac:(lia) Hnth ltac:(lia)
                     ltac:(lia) Hp'). cbv zeta in IH.
      destruct (Prismatic.updateParticles h o ts players n (S k) ps vs cs vc1 g1)
        as [[[[ps2 vs2] vc2] g2]|[[[ps2 vs2] vc2] g2]]; exact IH.
Qed.

End Encounter.

End Redraw.

Lemma Registry_get_in_values : forall (A : Type) (m : Registry.t A) k x,
  Registry.get k m = Some x -> In x (Registry.values m).
Proof.
  intros A m; induction m as [|[k' x'] m IH]; intros k x H; simpl in *; [discriminate|].
  destruct (k' =? k)%N; [injection H as ->; now left | right; eauto].
Qed.

(** C10.  In the prismatic variant:
    - a stored class that is truthy (1..5) is still the stored class of
      that particle after any number of physics steps, and reading it draws
      nothing;
    - a stored class that is falsy ([0]) does not last: a physics step in
      which the particle is inside a player's prism (at a distance from
      the player above [0.1], below [prismRadius * 1.5] and below
      [prismRadius]) returns with a class for that particle that is
      [Math.floor(Math.random() * 6)] for one of the draws taken during the
      step. *)
Theorem virtualColor_stable_iff_nonzero :
  forall (h : Host),
    (forall (n : nat) (deltaTime : float) (s : Sim.t) (g : Rng) (i : nat) (c : float),
        storedClass i c (Sim.particleVirtualColors s) ->
        JS.truthy c = true ->
        storedClass i c
          (Sim.particleVirtualColors
             (fst (written (ticks ColourPrism h n deltaTime s g)))))
    /\ (forall (n i : nat) (a : VirtualColors.t) (g : Rng) (c : float),
           VirtualColors.get i a = Some c ->
           JS.truthy c = true ->
           Prismatic.virtualColorOf n i (Some a) g = (c, a, g))
    /\ (forall (deltaTime : float) (s : Sim.t) (g : Rng) (i : nat) (particle : Vec.t)
               (c : float) (k : N) (player : Player.t) (position : Vec.t),
           nth_error (Sim.particles s) i = Some particle ->
           (i < List.length (Sim.velocities s))%nat ->
           (i < List.length (Sim.colors s))%nat ->
           storedClass i c (Sim.particleVirtualColors s) ->
           JS.truthy c = false ->
           positioned s ->
           Registry.get k (Sim.players s) = Some player ->
           Player.position player = Some position ->
           (0.1 <? distance position particle)%float = true ->
           (distance position particle <? Player.prismRadius player * 1.5)%float = true ->
           (distance position particle <? Player.prismRadius player)%float = true ->
           let r := updatePhysics ColourPrism h deltaTime s g in
           returns r = true
           /\ redrawnSince g i (Sim.particleVirtualColors (fst (written r)))
                           (snd (written r))).
Proof.
  intros h. split; [|split].
  - intros n deltaTime s g i c Hst Ht. now apply ticks_keep.
  - intros n i a g c Hget Ht. unfold Prismatic.virtualColorOf.
    now rewrite Hget, Ht.
  - intros deltaTime s g i particle c k player position
           Hnth Hvs Hcs Hst Hc Hall Hget Hpos Hoff Hnear Hin; cbv zeta.
    split; [now apply updatePhysics_returns|].
    cbn [updatePhysics]. unfold Prismatic.updatePhysics.
    assert (Hp : (later g g /\ storedClass i c (Sim.particleVirtualColors s))
                 \/ redrawnSince g i (Sim.particleVirtualColors s) g).
    { left. split; [split; [reflexivity | lia] | exact Hst]. }
    pose proof (updateParticles_redraw h g i c Hc (timeScale deltaTime)
                  (List.length (Sim.particles s)) particle player position
                  Hpos Hoff Hnear Hin (Sim.options s) (Sim.players s)
                  (Sim.particles s) 0 (Sim.velocities s) (Sim.colors s)
                  (Sim.particleVirtualColors s) g
                  (Registry_get_in_values _ _ _ _ Hget) Hall (Nat.le_0_l i)) as H.
    rewrite Nat.sub_0_r in H. specialize (H Hnth Hvs Hcs Hp). cbv zeta in H.
    destruct (Prismatic.updateParticles _ _ _ _ _ _ _ _ _ _ _)
      as [[[[ps vs] vc] g']|[[[ps vs] vc] g']]; exact H.
Qed.

Lemma virtualColor_stable_iff_nonzero_witness :
  let player := fst (addPlayer 1 playerA (blank OptionsArg.empty)) in
  let s :=
    Sim.with_virtualColors (Some [Some 3; Some 0])%float
      (Sim.with_pool [Vec.mk 200 0; Vec.mk 10 0]%float [Vec.mk 0 0; Vec.mk 0 0]%float
         [Color.mk 0.5 0.5 0.5; Color.mk 0.5 0.5 0.5]%float
         (snd (addPlayer 1 playerA (blank OptionsArg.empty)))) in
  let g := rngOf [0.1; 0.2; 0.7; 0.4]%float in
  (storedClass 0 3 (Sim.particleVirtualColors s)
   /\ JS.truthy 3 = true
   /\ storedClass 0 3
        (Sim.particleVirtualColors
           (fst (written (ticks ColourPrism RefHost.host 2 33 s g)))))
  /\ (nth_error (Sim.particles s) 1 = Some (Vec.mk 10 0)
      /\ storedClass 1 0 (Sim.particleVirtualColors s)
      /\ JS.truthy 0 = false
      /\ positioned s
      /\ Registry.get 1 (Sim.players s) = Some player
      /\ (0.1 <? distance (Vec.mk 0 0) (Vec.mk 10 0))%float = true
      /\ (distance (Vec.mk 0 0) (Vec.mk 10 0) <? Player.prismRadius player)%float = true
      /\ redrawnSince g 1
           (Sim.particleVirtualColors
              (fst (written (updatePhysics ColourPrism RefHost.host 33 s g))))
           (snd (written (updatePhysics ColourPrism RefHost.host 33 s g)))).
Proof.
  cbv zeta.
  set (s := Sim.with_virtualColors (Some [Some 3; Some 0])%float
              (Sim.with_pool [Vec.mk 200 0; Vec.mk 10 0]%float
                 [Vec.mk 0 0; Vec.mk 0 0]%float
                 [Color.mk 0.5 0.5 0.5; Color.mk 0.5 0.5 0.5]%float
                 (snd (addPlayer 1 playerA (blank OptionsArg.empty))))).
  set (player := fst (addPlayer 1 playerA (blank OptionsArg.empty))).
  set (g := rngOf [0.1; 0.2; 0.7; 0.4]%float).
  assert (H3 : storedClass 0 3 (Sim.particleVirtualColors s))
    by (exists [Some 3; Some 0]%float; split; reflexivity).
  assert (H0 : storedClass 1 0 (Sim.particleVirtualColors s))
    by (exists [Some 3; Some 0]%float; split; reflexivity).
  assert (Hpos : positioned s) by (repeat constructor; discriminate).
  split.
  - split; [exact H3|]. split; [reflexivity|].
    exact (proj1 (virtualColor_stable_iff_nonzero RefHost.host) 2%nat 33%float s g
             0%nat 3%float H3 eq_refl).
  - split; [reflexivity|]. split; [exact H0|]. split; [reflexivity|].
    split; [exact Hpos|]. split; [reflexivity|]. split; [reflexivity|].
    split; [reflexivity|].
    exact (proj2 (proj2 (proj2 (virtualColor_stable_iff_nonzero RefHost.host))
                    33%float s g 1%nat (Vec.mk 10 0)%float 0%float 1%N player
                    (Vec.mk 0 0)%float eq_refl (le_n 2) (le_n 2) H0 eq_refl Hpos
                    eq_refl eq_refl eq_refl eq_refl eq_refl)).
Defined.


(** ** The respawn branch and the scenario *)

Section Respawn.

Local Open Scope float_scope.

Lemma SFopp_zero_or_nan : forall x, zero_or_nan x -> zero_or_nan (SFopp x).
Proof. intros [s|s| |s m e]; cbn; auto. Qed.

(** [- (r * t) / r * speed] is [NaN] as soon as [r] is a zero. *)
Lemma orbital_component_nan : forall r t speed,
  zero_or_nan (Prim2SF r) -> is_nan (- (r * t) / r * speed) = true.
Proof.
  intros r t speed Hr. apply nan_is_nan.
  rewrite mul_spec, div_spec, opp_spec, mul_spec.
  unfold SF64mul, SF64div.
  rewrite SFdiv_zero_or_nan; [reflexivity | | exact Hr].
  now apply SFopp_zero_or_nan, SFmul_zero_or_nan_l.
Qed.

Lemma orbital_component_nan' : forall r t speed,
  zero_or_nan (Prim2SF r) -> is_nan (r * t / r * speed) = true.
Proof.
  intros r t speed Hr. apply nan_is_nan.
  rewrite mul_spec, div_spec, mul_spec.
  unfold SF64mul, SF64div.
  rewrite SFdiv_zero_or_nan; [reflexivity | | exact Hr].
  now apply SFmul_zero_or_nan_l.
Qed.

(** Whatever the host and the options: when the draw for the new radius
    is [0], the respawn branch divides zero by zero and the particle gets
    a velocity whose two components are [NaN].  [initParticles] guards the
    same division with [radius > 0.1]; the respawn branch does not. *)
Lemma respawn_zero_radius : forall (h : Host) (o : Options.t) (g : Rng),
  tape g (cursor g) = 0 ->
  let velocity := snd (fst (respawn h o g)) in
  is_nan (Vec.x velocity) = true /\ is_nan (Vec.y velocity) = true.
Proof.
  intros h o g Hdraw. unfold respawn, random. cbn [fst snd tape cursor Vec.x Vec.y].
  rewrite Hdraw.
  assert (Hr : zero_or_nan (Prim2SF (Options.particleSpread o * JS.Math_sqrt 0))).
  { rewrite mul_spec. unfold SF64mul.
    apply SFmul_zero_or_nan_r.
    change (Prim2SF (JS.Math_sqrt 0)) with (S754_zero false). exact I. }
  split.
  - now apply orbital_component_nan.
  - now apply orbital_component_nan'.
Qed.

End Respawn.

Section ColourLoop.

Local Open Scope float_scope.

Lemma SFsub_nan_r : forall x, SFsub prec emax x S754_nan = S754_nan.
Proof. intros [s|s| |s m e]; reflexivity. Qed.

(** [v - (NaN * a - p) * ts] is [NaN]. *)
Lemma push_along_nan : forall v a p ts, is_nan (v - (nan * a - p) * ts) = true.
Proof.
  intros v a p ts. apply nan_is_nan.
  rewrite sub_spec, mul_spec, sub_spec, mul_spec.
  change (Prim2SF nan) with S754_nan.
  unfold SF64sub, SF64mul. cbn [SFmul SFsub].
  apply SFsub_nan_r.
Qed.

(** Whatever the colour and the draws: for a particle that sits exactly on
    a player, the colour loop normalises the zero vector by its zero
    length, and both components of the velocity become [NaN].  The gravity
    loop guards the same normalisation with [playerDist > 0.1]; the colour
    loop does not. *)
Lemma disperse_on_player :
  forall (ts : float) (particle : Vec.t) (color : Color.t) (velocity : Vec.t)
         (g : Rng) (player : Player.t) (position : Vec.t),
    Player.position player = Some position ->
    Vec.x position - Vec.x particle = 0 ->
    Vec.y position - Vec.y particle = 0 ->
    (0 <? Player.prismRadius player * 1.5) = true ->
    exists velocity' g',
      Prismatic.disperse ts particle color (velocity, g) player = Normal (velocity', g')
      /\ is_nan (Vec.x velocity') = true /\ is_nan (Vec.y velocity') = true.
Proof.
  intros ts particle color velocity g player position Hpos Hx Hy Hnear.
  unfold Prismatic.disperse. rewrite Hpos, Hx, Hy.
  change (JS.Math_sqrt (0 * 0 + 0 * 0)) with 0. rewrite Hnear.
  change (0 / 0) with nan.
  repeat match goal with
         | |- context [if ?b then _ else _] => destruct b
         end;
    unfold random; cbn [fst snd Vec.x Vec.y];
    eexists; eexists; (split; [reflexivity|]);
    cbn [Vec.x Vec.y]; split; apply push_along_nan.
Qed.

(** One step of a particle that sits at the origin, on the only player:
    the velocity that the colour loop spoils goes through damping and
    integration, and the boundary check does not catch the [NaN]
    position. *)
Lemma updateParticle_on_player :
  forall h o ts n i velocity color vc g k player,
    Player.position player = Some (Vec.mk 0 0) ->
    (0 <? Player.prismRadius player * 1.5) = true ->
    exists r,
      Prismatic.updateParticle h o ts [(k, player)] n i (Vec.mk 0 0)
        velocity color vc g = Normal r
      /\ is_nan (Vec.x (fst (fst (fst r)))) = true.
Proof.
  intros h o ts n i velocity color vc g k player Hpos Hnear.
  unfold Prismatic.updateParticle. cbn [Registry.values map snd each].
  destruct (disperse_on_player ts (Vec.mk 0 0) color velocity g player (Vec.mk 0 0)
              Hpos eq_refl eq_refl Hnear) as (v1 & g1 & -> & Hvx & Hvy).
  unfold centralGravity. cbn [Vec.x Vec.y].
  change (1.0 <? JS.Math_sqrt (- 0 * - 0 + - 0 * - 0)) with false. cbv iota.
  unfold Prismatic.applyPlayer. rewrite Hpos. cbn [Vec.x Vec.y].
  change (0.1 <? JS.Math_sqrt ((0 - 0) * (0 - 0) + (0 - 0) * (0 - 0))) with false.
  cbv iota.
  unfold damp, advance, boundary. cbn [Vec.x Vec.y].
  set (px := 0 + Vec.x v1 * Math_pow h (Options.velocityDamping o) ts * ts).
  assert (Hpx : is_nan px = true).
  { subst px. apply add_nan_r, mul_nan_l, mul_nan_l, Hvx. }
  rewrite ltb_nan_r.
  - eexists. split; [reflexivity | exact Hpx].
  - unfold JS.Math_sqrt. apply sqrt_nan, add_nan_l, mul_nan_l, Hpx.
Qed.

(** With the draws [0.9, 0, 0, ...] the first particle of the scenario is
    placed at radius [50 * sqrt 0 = 0]. *)
Lemma placeParticle_on_origin : forall hcos hsin hpow,
  hcos 0 = 1 -> hsin 0 = 0 ->
  fst (fst (placeParticle (mkHost hcos hsin hpow) (defaultOptions options2000)
              (rngOf [0.9])))
  = Vec.mk 0 0.
Proof.
  intros hcos hsin hpow Hcos Hsin. vm_compute. rewrite Hcos, Hsin. reflexivity.
Qed.

Lemma Prismatic_placeAll_head : forall h o n g,
  exists ps velocity vs color cs g',
    Prismatic.placeAll h o (S n) g
    = (fst (fst (placeParticle h o g)) :: ps, velocity :: vs, color :: cs, g').
Proof.
  intros h o n g. cbn [Prismatic.placeAll].
  destruct (placeParticle h o g) as [[particle velocity] g1].
  unfold random. cbn [fst snd].
  destruct (Prismatic.placeAll h o n _) as [[[ps vs] cs] g2].
  now exists ps, velocity, vs,
    (Color.mk (tape g1 (cursor g1)) (tape g1 (S (cursor g1)))
              (tape g1 (S (S (cursor g1))))), cs, g2.
Qed.

(** On every host that computes [cos 0 = 1] and [sin 0 = 0], the scenario
    run in the colour-modulated variant with the draws [0.9, 0, 0, ...] has
    a [NaN] position after the first tick. *)
Lemma colour_scenario_NaN : forall h,
  Math_cos h 0 = 1 -> Math_sin h 0 = 0 ->
  allFinite (scenario ColourPrism h (rngOf [0.9]) 1) = false.
Proof.
  intros [hcos hsin hpow] Hcos Hsin. cbn [Math_cos Math_sin] in Hcos, Hsin.
  unfold scenario, construct, initParticles, Prismatic.initParticles.
  cbn [blank Sim.options].
  change (JS.iterations (JS.ToNumber (Options.particleCount (defaultOptions options2000))))
    with (S 1999).
  destruct (Prismatic_placeAll_head (mkHost hcos hsin hpow) (defaultOptions options2000)
              1999 (rngOf [0.9])) as (ps & velocity & vs & color & cs & g' & Hplace).
  rewrite Hplace, (placeParticle_on_origin hcos hsin hpow Hcos Hsin).
  cbn [ticks updatePhysics]. unfold addPlayer, Prismatic.updatePhysics.
  cbn [Sim.with_pool Sim.with_players Sim.options Sim.players Sim.particles
       Sim.velocities Sim.colors Sim.particleVirtualColors blank Registry.set
       Prismatic.updateParticles].
  match goal with
  | |- context [Prismatic.updateParticle ?h ?o ?ts [(?k, ?pl)] ?n ?i _ ?v ?c ?vc ?g] =>
      destruct (updateParticle_on_player h o ts n i v c vc g k pl eq_refl eq_refl)
        as ([[[particle1 velocity1] vc1] g1] & -> & Hnan)
  end.
  cbn [fst] in Hnan.
  destruct (Prismatic.updateParticles _ _ _ _ _ _ _ _ _ _ _)
    as [[[[ps2 vs2] vc2] g2]|[[[ps2 vs2] vc2] g2]];
    unfold allFinite;
    cbn [fst written Sim.particles Sim.with_simulationTime Sim.with_virtualColors
         Sim.with_pool forallb];
    now rewrite (nan_not_finite particle1 Hnan).
Qed.

End ColourLoop.

(** C1.  The claim asks that, in the scenario (2000 particles, player A
    at the origin, ticks of 33 ms), every position stays finite for every
    sequence of draws.  The code does not achieve it: there are draws of
    [Math.random] for which a position stops being finite well before the
    1000th tick.
    - Colour-modulated prism, draws [0.9, 0, 0, ...], on every host with
      [cos 0 = 1] and [sin 0 = 0]: the first particle is placed exactly on
      the player; the colour loop divides by the zero distance and the
      position is [NaN] after the first tick.
    - Simplified prism, draws [0.9, 0.0004, 0, 0, ...], on the reference
      host: the first particle starts one unit away from the player, is
      flung outwards, crosses the boundary during tick 20 and is respawned
      with radius draw [0]; its velocity is [NaN] after tick 20 and its
      position after tick 21.  All positions are still finite after
      tick 20. *)
Theorem scenario_reaches_NaN :
  (forall h : Host,
      Math_cos h 0%float = 1%float -> Math_sin h 0%float = 0%float ->
      allFinite (scenario ColourPrism h (rngOf [0.9%float]) 1) = false)
  /\ (let run := scenario SimplePrism RefHost.host (rngOf [0.9; 0.0004]%float) in
      let origin := Vec.mk 0 0 in
      allFinite (run 20%nat) = true
      /\ is_nan (Vec.x (hd origin (Sim.velocities (run 20%nat)))) = true
      /\ is_nan (Vec.x (hd origin (Sim.particles (run 21%nat)))) = true
      /\ allFinite (run 21%nat) = false).
Proof.
  split.
  - exact colour_scenario_NaN.
  - vm_compute. repeat split.
Qed.

Lemma scenario_reaches_NaN_witness :
  Math_cos RefHost.host 0%float = 1%float
  /\ Math_sin RefHost.host 0%float = 0%float
  /\ allFinite (scenario ColourPrism RefHost.host (rngOf [0.9%float]) 1) = false.
Proof.
  split; [reflexivity|]. split; [reflexivity|].
  apply (proj1 scenario_reaches_NaN RefHost.host); reflexivity.
Defined.

(** ** The broadcast timer *)

Section Broadcast.

Local Open Scope Z_scope.

(** C7, as amended.  On a firing of the broadcast timer at time [now], in
    the revision of the server that tracks performance:
    - if the time elapsed since the last full broadcast is at least
      [FULL_UPDATE_INTERVAL], one [fullState] frame is written to every
      connected channel, carrying the particle positions, the player map
      and the simulation time of the simulation together with the
      performance metrics, and the time of the last full broadcast
      becomes [now];
    - otherwise one [particleUpdate] frame is written to every connected
      channel, carrying the particle positions, the simulation time and
      the metrics (the frame has no field for players), and the time of
      the last full broadcast stays.
    The metrics are the duration of the last physics step, its moving
    average, the length of the particle array and the number of
    connections.  Nothing else is written and nothing else changes.

    The earlier revision alternates in the same way, with its own
    interval, and its frames carry no metrics. *)
Theorem broadcastTimer_frames :
  forall (s : Server.t) (now : Z),
    let sim := Server.physicsSimulation s in
    let to_all (f : Frame) :=
      map (fun ws => (ws, f)) (Registry.values (Server.players s)) in
    let state :=
      {| State.particles := Sim.particles sim;
         State.players := Sim.players sim;
         State.simulationTime := Sim.simulationTime sim |} in
    let metrics :=
      {| Metrics.physicsTime := Server.lastPhysicsTime s;
         Metrics.avgPhysicsTime := Server.avgPhysicsTime s;
         Metrics.particleCount := List.length (Sim.particles sim);
         Metrics.playerCount := List.length (Registry.keys (Server.players s)) |} in
    (let s' := Server.broadcastTimer now s in
     (Server.FULL_UPDATE_INTERVAL <= now - Server.lastFullUpdateTime s ->
      Server.wire s'
      = (Server.wire s ++ to_all (FullStateFrame state (Some metrics)))%list
      /\ Server.lastFullUpdateTime s' = now)
     /\ (now - Server.lastFullUpdateTime s < Server.FULL_UPDATE_INTERVAL ->
         Server.wire s'
         = (Server.wire s
              ++ to_all (ParticleUpdateFrame (Sim.particles sim)
                           (Sim.simulationTime sim) (Some metrics)))%list
         /\ Server.lastFullUpdateTime s' = Server.lastFullUpdateTime s)
     /\ Server.players s' = Server.players s
     /\ Server.physicsSimulation s' = Server.physicsSimulation s)
    /\ (let s' := ServerRev1.broadcastTimer now s in
        (ServerRev1.FULL_UPDATE_INTERVAL <= now - Server.lastFullUpdateTime s ->
         Server.wire s' = (Server.wire s ++ to_all (FullStateFrame state None))%list
         /\ Server.lastFullUpdateTime s' = now)
        /\ (now - Server.lastFullUpdateTime s < ServerRev1.FULL_UPDATE_INTERVAL ->
            Server.wire s'
            = (Server.wire s
                 ++ to_all (ParticleUpdateFrame (Sim.particles sim)
                              (Sim.simulationTime sim) None))%list
            /\ Server.lastFullUpdateTime s' = Server.lastFullUpdateTime s)
        /\ Server.players s' = Server.players s
        /\ Server.physicsSimulation s' = Server.physicsSimulation s).
Proof.
  intros s now; cbv zeta. split.
  - unfold Server.broadcastTimer.
    destruct (Z.ltb_spec (now - Server.lastFullUpdateTime s)
                Server.FULL_UPDATE_INTERVAL) as [Hlt|Hge].
    + split; [intros Hge; lia|]. split; [|split; reflexivity].
      intros _. split; reflexivity.
    + split; [|split; [intros Hlt; lia | split; reflexivity]].
      intros _. split; reflexivity.
  - unfold ServerRev1.broadcastTimer.
    destruct (Z.ltb_spec (now - Server.lastFullUpdateTime s)
                ServerRev1.FULL_UPDATE_INTERVAL) as [Hlt|Hge].
    + split; [intros Hge; lia|]. split; [|split; reflexivity].
      intros _. split; reflexivity.
    + split; [|split; [intros Hlt; lia | split; reflexivity]].
      intros _. split; reflexivity.
Qed.

Lemma broadcastTimer_frames_witness :
  let s := smallServer SimplePrism in
  Server.FULL_UPDATE_INTERVAL <= 250 - Server.lastFullUpdateTime s
  /\ Server.lastFullUpdateTime (Server.broadcastTimer 250 s) = 250.
Proof.
  cbv zeta. split; [vm_compute; discriminate|].
  apply (proj1 (proj1 (broadcastTimer_frames (smallServer SimplePrism) 250))).
  vm_compute; discriminate.
Defined.

(** C7 fails as stated on the earlier revision: at a firing 250 ms after
    the start its [fullState] frame carries no metrics, and at a firing
    50 ms after the start neither does its [particleUpdate] frame. *)
Lemma earlier_revision_sends_no_metrics :
  let s := smallServer SimplePrism in
  let sim := Server.physicsSimulation s in
  Server.delivered 7%nat (ServerRev1.broadcastTimer 250 s)
  = (Server.delivered 7%nat s ++ [FullStateFrame (getState sim) None])%list
  /\ Server.delivered 7%nat (ServerRev1.broadcastTimer 50 s)
     = (Server.delivered 7%nat s
          ++ [ParticleUpdateFrame (Sim.particles sim) (Sim.simulationTime sim) None])%list.
Proof. cbv zeta. split; vm_compute; reflexivity. Qed.

End Broadcast.

(** ** What a new connection receives *)

Section Connection.

Variable v : Variant.
Variable h : Host.

Lemma extends_refl : forall s, extends s s.
Proof. intros s. exists []. now rewrite app_nil_r. Qed.

Lemma extends_trans : forall s1 s2 s3, extends s1 s2 -> extends s2 s3 -> extends s1 s3.
Proof.
  intros s1 s2 s3 [w1 H1] [w2 H2]. exists (w1 ++ w2).
  now rewrite H2, H1, app_assoc.
Qed.

Lemma extends_same_wire : forall s s', Server.wire s' = Server.wire s -> extends s s'.
Proof. intros s s' H. exists []. now rewrite app_nil_r. Qed.

Lemma broadcast_extends : forall f s, extends s (Server.broadcast f s).
Proof. intros f s. unfold Server.broadcast. eexists. reflexivity. Qed.

Lemma send_extends : forall ws f s, extends s (Server.send ws f s).
Proof. intros ws f s. unfold Server.send. eexists. reflexivity. Qed.

Lemma open_extends : forall ws s, extends s (Server.open ws s).
Proof.
  intros ws s. unfold Server.open. cbv zeta.
  destruct (addPlayer _ _ _) as [record sim].
  eapply extends_trans; [|apply broadcast_extends].
  eapply extends_trans; [|apply send_extends].
  eapply extends_trans; [|apply send_extends].
  now apply extends_same_wire.
Qed.

Lemma message_extends : forall ws raw now s,
  extends s (Server.message v h ws raw now s).
Proof.
  intros ws raw now s. unfold Server.message.
  destruct raw as [data|]; [|apply extends_refl].
  destruct (Server.findPlayer ws (Server.players s)) as [playerId|];
    [|apply extends_refl].
  destruct data as [position|params|[count|]|]; try apply extends_refl.
  - destruct (updatePlayerPosition _ _ _) as [b sim].
    eapply extends_trans; [|apply broadcast_extends].
    now apply extends_same_wire.
  - destruct (updatePlayerParams _ _ _) as [b sim].
    eapply extends_trans; [|apply broadcast_extends].
    now apply extends_same_wire.
  - destruct (JS.ToBoolean count); [|apply extends_refl].
    unfold Server.setParticleCount. cbv zeta.
    destruct (resetSimulation _ _ _ _ _) as [sim g].
    eapply extends_trans; [|apply broadcast_extends].
    now apply extends_same_wire.
Qed.

Lemma close_extends : forall ws s, extends s (Server.close ws s).
Proof.
  intros ws s. unfold Server.close.
  destruct (Server.findPlayer ws (Server.players s)) as [playerId|];
    [|apply extends_refl].
  cbv zeta. destruct (removePlayer _ _) as [b sim].
  eapply extends_trans; [|apply broadcast_extends].
  now apply extends_same_wire.
Qed.

Lemma physicsTimer_extends : forall now startTime endTime s,
  extends s (Server.physicsTimer v h now startTime endTime s).
Proof.
  intros now startTime endTime s. unfold Server.physicsTimer. cbv zeta.
  destruct (Sim.running _); [|apply extends_refl].
  destruct (updatePhysics _ _ _ _ _) as [[sim g]|[sim g]];
    now apply extends_same_wire.
Qed.

Lemma broadcastTimer_extends : forall now s,
  extends s (Server.broadcastTimer now s).
Proof.
  intros now s. unfold Server.broadcastTimer. cbv zeta.
  destruct (_ <? _)%Z.
  - apply broadcast_extends.
  - eapply extends_trans; [|apply broadcast_extends].
    now apply extends_same_wire.
Qed.

Lemma handle_extends : forall e s, extends s (Server.handle v h e s).
Proof.
  intros [ws|ws raw now|ws|now startTime endTime|now] s; simpl.
  - apply open_extends.
  - apply message_extends.
  - apply close_extends.
  - apply physicsTimer_extends.
  - apply broadcastTimer_extends.
Qed.

Lemma run_extends : forall es s, extends s (Server.run v h es s).
Proof.
  unfold Server.run.
  induction es as [|e es IH]; intros s; simpl; [apply extends_refl|].
  eapply extends_trans; [apply handle_extends | apply IH].
Qed.

Lemma extends_delivered : forall ws s s',
  extends s s' ->
  exists rest, Server.delivered ws s' = Server.delivered ws s ++ rest.
Proof.
  intros ws s s' [w Hw]. unfold Server.delivered. rewrite Hw.
  rewrite filter_app, map_app. eexists. reflexivity.
Qed.

(** What [open] writes to the new channel: its id, the full state (with
    the new player in it), and then the player list like everybody else. *)
Lemma open_delivers : forall ws s,
  Server.delivered ws s = [] ->
  exists rest,
    Server.delivered ws (Server.open ws s)
    = IdFrame (Server.nextPlayerId s)
        :: FullStateFrame
             (getState (snd (addPlayer (Server.nextPlayerId s) Params.empty
                               (Server.physicsSimulation s))))
             None
        :: rest.
Proof.
  intros ws s Hfresh. unfold Server.open. cbv zeta.
  unfold addPlayer at 1. cbv zeta.
  unfold Server.broadcastPlayerList, Server.broadcast, Server.send,
    Server.delivered in *.
  cbn [Server.wire Server.with_wire Server.with_simulation Server.with_players
       Server.with_nextPlayerId Server.players Server.physicsSimulation].
  unfold Channel in *.
  rewrite !filter_app, !map_app, Hfresh.
  cbn [filter fst snd]. rewrite Nat.eqb_refl.
  cbn [map app snd]. eexists. reflexivity.
Qed.

(** C8.  Take any server state and a channel to which nothing has been
    written yet.  Once the channel connects, whatever events follow, the
    frames written to it begin with one [id] frame (its player id)
    followed by one [fullState] frame (without metrics); so no
    [particleUpdate] frame comes before these two. *)
Theorem new_channel_gets_id_then_fullState :
  forall (s : Server.t) (ws : Channel) (es : list (Server.Event)),
    Server.delivered ws s = [] ->
    exists rest,
      Server.delivered ws (Server.run v h es (Server.open ws s))
      = IdFrame (Server.nextPlayerId s)
          :: FullStateFrame
               (getState (snd (addPlayer (Server.nextPlayerId s) Params.empty
                                 (Server.physicsSimulation s))))
               None
          :: rest.
Proof.
  intros s ws es Hfresh.
  destruct (open_delivers ws s Hfresh) as [rest1 Hopen].
  destruct (extends_delivered ws _ _ (run_extends es (Server.open ws s)))
    as [rest2 Hrun].
  rewrite Hrun, Hopen. exists (rest1 ++ rest2). reflexivity.
Qed.

End Connection.

Lemma new_channel_gets_id_then_fullState_witness :
  let s := Server.boot SimplePrism RefHost.host
             (OptionsArg.mk (Some (JS.Num 3)) None None None None None None None)
             0 (rngOf []) in
  Server.delivered 7%nat s = []
  /\ exists rest,
      Server.delivered 7%nat
        (Server.run SimplePrism RefHost.host
           [Server.BroadcastTimer 250; Server.PhysicsTimer 300 0 1;
            Server.BroadcastTimer 330]
           (Server.open 7%nat s))
      = IdFrame (Server.nextPlayerId s)
          :: FullStateFrame
               (getState (snd (addPlayer (Server.nextPlayerId s) Params.empty
                                 (Server.physicsSimulation s))))
               None
          :: rest.
Proof.
  cbv zeta. split; [reflexivity|].
  apply (new_channel_gets_id_then_fullState SimplePrism RefHost.host).
  reflexivity.
Defined.


(* ================================================================== *)
(** * Further properties of the code *)

(** ** The registry object, once its keys are in order *)

Section RegistryOrder.

Variable A : Type.
Implicit Types (m : Registry.t A) (k : N) (v : A).

Lemma Registry_get_in_keys : forall m k,
  In k (Registry.keys m) <-> Registry.get k m <> None.
Proof.
  induction m as [|[k' v'] m IH]; intros k; simpl.
  - split; [intros [] | congruence].
  - destruct (N.eqb_spec k' k) as [->|Hne].
    + split; [discriminate | auto].
    + rewrite <- IH. split; [intros [H|H]; [congruence | exact H] | auto].
Qed.

Lemma Registry_set_set : forall m k v v',
  Registry.set k v (Registry.set k v' m) = Registry.set k v m.
Proof.
  induction m as [|[k0 v0] m IH]; intros k v v'; simpl.
  - now rewrite N.eqb_refl.
  - destruct (N.eqb_spec k k0) as [->|Hne]; simpl.
    + now rewrite N.eqb_refl.
    + destruct (N.ltb_spec k k0) as [Hlt|Hge]; simpl.
      * now rewrite N.eqb_refl.
      * destruct (N.eqb_spec k k0); [congruence|].
        destruct (N.ltb_spec k k0); [lia|]. now rewrite IH.
Qed.

(** A key above all the others goes to the end. *)
Lemma Registry_set_above : forall m k v,
  Forall (fun k' => (k' < k)%N) (Registry.keys m) ->
  Registry.set k v m = m ++ [(k, v)].
Proof.
  induction m as [|[k0 v0] m IH]; intros k v Hall; simpl; [reflexivity|].
  inversion Hall as [|? ? Hk0 Hrest]; subst. simpl in Hk0.
  destruct (N.eqb_spec k k0); [lia|].
  destruct (N.ltb_spec k k0); [lia|].
  now rewrite IH.
Qed.

(** Writing under a key the object has keeps the enumeration order. *)
Lemma Registry_keys_set_present : forall m k v,
  ascending (Registry.keys m) ->
  Registry.get k m <> None ->
  Registry.keys (Registry.set k v m) = Registry.keys m.
Proof.
  induction m as [|[k0 v0] m IH]; intros k v Hs Hget; simpl in *; [congruence|].
  inversion Hs as [|? ? Hs' Hall]; subst.
  destruct (N.eqb_spec k k0) as [->|Hne]; [reflexivity|].
  destruct (N.eqb_spec k0 k); [congruence|].
  apply Registry_get_in_keys in Hget.
  destruct (N.ltb_spec k k0) as [Hlt|Hge].
  - exfalso. rewrite Forall_forall in Hall. specialize (Hall k Hget). lia.
  - simpl. f_equal. apply IH; [exact Hs'|]. now apply Registry_get_in_keys.
Qed.

Lemma Registry_keys_delete : forall m k,
  Registry.keys (Registry.delete k m) = removeKey k (Registry.keys m).
Proof.
  induction m as [|[k0 v0] m IH]; intros k; simpl; [reflexivity|].
  destruct (N.eqb_spec k0 k); [reflexivity|]. simpl. now rewrite IH.
Qed.

Lemma Registry_get_delete_other : forall m k k',
  k <> k' -> Registry.get k' (Registry.delete k m) = Registry.get k' m.
Proof.
  induction m as [|[k0 v0] m IH]; intros k k' Hne; simpl; [reflexivity|].
  destruct (N.eqb_spec k0 k) as [->|Hk].
  - destruct (N.eqb_spec k k'); [congruence | reflexivity].
  - simpl. destruct (N.eqb_spec k0 k'); [reflexivity | now apply IH].
Qed.

Lemma Registry_get_delete_same : forall m k,
  ascending (Registry.keys m) -> Registry.get k (Registry.delete k m) = None.
Proof.
  induction m as [|[k0 v0] m IH]; intros k Hs; simpl in *; [reflexivity|].
  inversion Hs as [|? ? Hs' Hall]; subst.
  destruct (N.eqb_spec k0 k) as [->|Hne].
  - destruct (Registry.get k m) eqn:Hget; [|reflexivity].
    exfalso.
    assert (Hin : In k (Registry.keys m))
      by (apply Registry_get_in_keys; congruence).
    rewrite Forall_forall in Hall. specialize (Hall k Hin). lia.
  - simpl. destruct (N.eqb_spec k0 k); [congruence|]. now apply IH.
Qed.

End RegistryOrder.

Lemma removeKey_incl : forall k l x, In x (removeKey k l) -> In x l.
Proof.
  induction l as [|k' l IH]; intros x; simpl; [auto|].
  destruct (k' =? k)%N; simpl; intuition.
Qed.

Lemma removeKey_ascending : forall k l, ascending l -> ascending (removeKey k l).
Proof.
  unfold ascending. induction l as [|k' l IH]; intros Hs; simpl; [constructor|].
  inversion Hs as [|? ? Hs' Hall]; subst.
  destruct (k' =? k)%N; [exact Hs'|].
  constructor; [now apply IH|].
  rewrite Forall_forall in *. intros x Hx. apply Hall. eapply removeKey_incl, Hx.
Qed.

Lemma removeKey_Forall : forall (P : N -> Prop) k l,
  Forall P l -> Forall P (removeKey k l).
Proof.
  intros P k l H. rewrite Forall_forall in *. intros x Hx.
  apply H. eapply removeKey_incl, Hx.
Qed.

Lemma removeKey_length : forall k l,
  In k l -> List.length (removeKey k l) = pred (List.length l).
Proof.
  induction l as [|k' l IH]; intros Hin; simpl in *; [contradiction|].
  destruct (N.eqb_spec k' k) as [->|Hne]; [reflexivity|].
  destruct Hin as [|Hin]; [congruence|].
  simpl. rewrite IH by assumption. destruct l; [contradiction | reflexivity].
Qed.

Lemma removeKey_gone : forall k l, ascending l -> ~ In k (removeKey k l).
Proof.
  unfold ascending. induction l as [|k' l IH]; intros Hs; simpl; [auto|].
  inversion Hs as [|? ? Hs' Hall]; subst.
  destruct (N.eqb_spec k' k) as [->|Hne].
  - intros Hin. rewrite Forall_forall in Hall. specialize (Hall k Hin). lia.
  - simpl. intros [H|H]; [congruence | now apply IH in H].
Qed.

(** ** The player registry: updates, overwrites and removals *)

(** X1.  [updatePlayerParams] on a registered id returns [true] and merges
    field by field: a field present in [params] replaces the stored one
    whatever its value (a [0] is stored, unlike in [addPlayer]), an absent
    field keeps the stored value, and [prismDispersion] is stored once it has
    been sent.  The records of the other ids are not touched. *)
Theorem updatePlayerParams_merges :
  forall (s : Sim.t) (id : N) (params : Params.t) (pl : Player.t),
    Registry.get id (Sim.players s) = Some pl ->
    let s' := snd (updatePlayerParams id params s) in
    fst (updatePlayerParams id params s) = true
    /\ (exists pl',
           Registry.get id (Sim.players s') = Some pl'
           /\ Player.position pl'
              = match Params.position params with
                | Some p => p | None => Player.position pl end
           /\ Player.gravityStrength pl'
              = match Params.gravityStrength params with
                | Some n => n | None => Player.gravityStrength pl end
           /\ Player.prismRadius pl'
              = match Params.prismRadius params with
                | Some n => n | None => Player.prismRadius pl end
           /\ Player.lensingStrength pl'
              = match Params.lensingStrength params with
                | Some n => n | None => Player.lensingStrength pl end
           /\ Player.prismStrength pl'
              = match Params.prismStrength params with
                | Some n => n | None => Player.prismStrength pl end
           /\ Player.prismDispersion pl'
              = match Params.prismDispersion params with
                | Some n => Some n | None => Player.prismDispersion pl end)
    /\ (forall id', id' <> id ->
                    Registry.get id' (Sim.players s') = Registry.get id' (Sim.players s)).
Proof.
  intros s id params pl Hget; cbv zeta. unfold updatePlayerParams. rewrite Hget.
  cbn [fst snd Sim.players Sim.with_players]. split; [reflexivity|]. split.
  - exists (Object_assign pl params). split; [apply Registry_get_set_same|].
    repeat split.
  - intros id' Hne. apply Registry_get_set_other. congruence.
Qed.

Lemma updatePlayerParams_merges_witness :
  let s := snd (addPlayer 1 Params.empty (blank OptionsArg.empty)) in
  let params := Params.mk None (Some 0%float) None None None (Some 4%float) in
  let pl := fst (addPlayer 1 Params.empty (blank OptionsArg.empty)) in
  Registry.get 1 (Sim.players s) = Some pl
  /\ fst (updatePlayerParams 1 params s) = true.
Proof.
  cbv zeta. split; [reflexivity|].
  apply (proj1 (updatePlayerParams_merges
                  (snd (addPlayer 1 Params.empty (blank OptionsArg.empty))) 1
                  (Params.mk None (Some 0%float) None None None (Some 4%float))
                  (fst (addPlayer 1 Params.empty (blank OptionsArg.empty)))
                  eq_refl)).
Defined.

(** X2.  [updatePlayerPosition] on a registered id returns [true], replaces
    the position of that record and nothing else in it, and does not touch
    the records of the other ids. *)
Theorem updatePlayerPosition_moves_one :
  forall (s : Sim.t) (id : N) (position : option Vec.t) (pl : Player.t),
    Registry.get id (Sim.players s) = Some pl ->
    let s' := snd (updatePlayerPosition id position s) in
    fst (updatePlayerPosition id position s) = true
    /\ Registry.get id (Sim.players s')
       = Some (Player.mk position (Player.gravityStrength pl) (Player.prismRadius pl)
                 (Player.lensingStrength pl) (Player.prismStrength pl)
                 (Player.prismDispersion pl))
    /\ (forall id', id' <> id ->
                    Registry.get id' (Sim.players s') = Registry.get id' (Sim.players s)).
Proof.
  intros s id position pl Hget; cbv zeta. unfold updatePlayerPosition. rewrite Hget.
  cbn [fst snd Sim.players Sim.with_players]. split; [reflexivity|]. split.
  - apply Registry_get_set_same.
  - intros id' Hne. apply Registry_get_set_other. congruence.
Qed.

Lemma updatePlayerPosition_moves_one_witness :
  let s := snd (addPlayer 1 Params.empty (blank OptionsArg.empty)) in
  let pl := fst (addPlayer 1 Params.empty (blank OptionsArg.empty)) in
  Registry.get 1 (Sim.players s) = Some pl
  /\ fst (updatePlayerPosition 1 (Some (Vec.mk 3 4)) s) = true.
Proof.
  cbv zeta. split; [reflexivity|].
  apply (proj1 (updatePlayerPosition_moves_one
                  (snd (addPlayer 1 Params.empty (blank OptionsArg.empty))) 1
                  (Some (Vec.mk 3 4))
                  (fst (addPlayer 1 Params.empty (blank OptionsArg.empty)))
                  eq_refl)).
Defined.

(** X3.  Adding a player under an id that is already registered overwrites:
    the simulation is the one the second [addPlayer] alone would give, so
    nothing of the earlier record survives; and [addPlayer] never touches
    the records of the other ids. *)
Theorem addPlayer_overwrites :
  forall (s : Sim.t) (id : N) (first second : Params.t),
    addPlayer id second (snd (addPlayer id first s)) = addPlayer id second s
    /\ (forall id', id' <> id ->
                    Registry.get id' (Sim.players (snd (addPlayer id second s)))
                    = Registry.get id' (Sim.players s)).
Proof.
  intros s id first second. split.
  - unfold addPlayer. cbn [snd Sim.options Sim.players Sim.with_players].
    f_equal. rewrite Registry_set_set. destruct s; reflexivity.
  - intros id' Hne. unfold addPlayer. cbn [snd Sim.players Sim.with_players].
    apply Registry_get_set_other. congruence.
Qed.

Lemma addPlayer_overwrites_witness :
  let s := snd (addPlayer 1 Params.empty (blank OptionsArg.empty)) in
  (1 <> 2)%N
  /\ Registry.get 1 (Sim.players (snd (addPlayer 2 playerA s)))
     = Registry.get 1 (Sim.players s).
Proof.
  cbv zeta. split; [discriminate|].
  apply (proj2 (addPlayer_overwrites
                  (snd (addPlayer 1 Params.empty (blank OptionsArg.empty)))
                  2 Params.empty playerA) 1%N).
  discriminate.
Defined.

(** X4.  [removePlayer] on a registered id returns [true]; afterwards the id
    is not found any more, the records of the other ids are as before, and
    the registry has one entry less. *)
Theorem removePlayer_removes_one :
  forall (s : Sim.t) (id : N) (pl : Player.t),
    ascending (Registry.keys (Sim.players s)) ->
    Registry.get id (Sim.players s) = Some pl ->
    let s' := snd (removePlayer id s) in
    fst (removePlayer id s) = true
    /\ Registry.get id (Sim.players s') = None
    /\ (forall id', id' <> id ->
                    Registry.get id' (Sim.players s') = Registry.get id' (Sim.players s))
    /\ List.length (Registry.keys (Sim.players s'))
       = pred (List.length (Registry.keys (Sim.players s))).
Proof.
  intros s id pl Hs Hget; cbv zeta. unfold removePlayer. rewrite Hget.
  cbn [fst snd Sim.players Sim.with_players]. split; [reflexivity|].
  split; [now apply Registry_get_delete_same|]. split.
  - intros id' Hne. apply Registry_get_delete_other. congruence.
  - rewrite Registry_keys_delete. apply removeKey_length.
    apply Registry_get_in_keys. congruence.
Qed.

Lemma removePlayer_removes_one_witness :
  let s := snd (addPlayer 2 playerA
                  (snd (addPlayer 1 Params.empty (blank OptionsArg.empty)))) in
  let pl := fst (addPlayer 1 Params.empty (blank OptionsArg.empty)) in
  ascending (Registry.keys (Sim.players s))
  /\ Registry.get 1 (Sim.players s) = Some pl
  /\ Registry.get 1 (Sim.players (snd (removePlayer 1 s))) = None.
Proof.
  cbv zeta.
  assert (Hs : ascending (Registry.keys (Sim.players
            (snd (addPlayer 2 playerA
                    (snd (addPlayer 1 Params.empty (blank OptionsArg.empty)))))))).
  { repeat constructor. }
  split; [exact Hs|]. split; [reflexivity|].
  apply (proj1 (proj2 (removePlayer_removes_one
                         (snd (addPlayer 2 playerA
                                 (snd (addPlayer 1 Params.empty
                                         (blank OptionsArg.empty)))))
                         1 (fst (addPlayer 1 Params.empty (blank OptionsArg.empty)))
                         Hs eq_refl))).
Defined.

(** ** What a physics step keeps *)

Section StepInvariants.

Local Open Scope float_scope.

Lemma advance_nan : forall ts particle velocity,
  is_nan (Vec.x particle) = true ->
  is_nan (Vec.x (advance ts particle velocity)) = true.
Proof. intros ts particle velocity H. unfold advance. simpl. now apply add_nan_l. Qed.

(** The boundary check compares a [NaN] distance with the limit and lets
    the particle through. *)
Lemma boundary_nan : forall h o particle velocity g,
  is_nan (Vec.x particle) = true ->
  boundary h o particle velocity g = (particle, velocity, g).
Proof.
  intros h o particle velocity g H. unfold boundary.
  rewrite ltb_nan_r; [reflexivity|].
  unfold JS.Math_sqrt. now apply sqrt_nan, add_nan_l, mul_nan_l.
Qed.

Lemma Basic_updateParticle_nan : forall h o ts players particle velocity g,
  is_nan (Vec.x particle) = true ->
  is_nan (Vec.x (fst (fst (written
    (Basic.updateParticle h o ts players particle velocity g)))))
  = true.
Proof.
  intros h o ts players particle velocity g H. unfold Basic.updateParticle.
  destruct (each _ _ _) as [velocity1|velocity1]; cbn [written fst]; [|exact H].
  rewrite boundary_nan by now apply advance_nan.
  now apply advance_nan.
Qed.

Lemma Prismatic_updateParticle_nan :
  forall h o ts players n i particle velocity color vc g,
    is_nan (Vec.x particle) = true ->
    is_nan (Vec.x (fst (fst (fst (written
      (Prismatic.updateParticle h o ts players n i particle velocity color vc g))))))
    = true.
Proof.
  intros h o ts players n i particle velocity color vc g H.
  unfold Prismatic.updateParticle.
  destruct (each (Prismatic.disperse ts particle color) _ _)
    as [[velocity1 g1]|[velocity1 g1]]; cbn [written fst]; [|exact H].
  destruct (each (Prismatic.applyPlayer ts n i particle) _ _)
    as [[[velocity2 vc2] g2]|[[velocity2 vc2] g2]]; cbn [written fst]; [|exact H].
  rewrite boundary_nan by now apply advance_nan.
  now apply advance_nan.
Qed.

Lemma Basic_updateParticles_nan : forall h o ts players ps vs g i p,
  nth_error ps i = Some p -> is_nan (Vec.x p) = true ->
  exists p',
    nth_error (fst (fst (written (Basic.updateParticles h o ts players ps vs g)))) i
    = Some p'
    /\ is_nan (Vec.x p') = true.
Proof.
  intros h o ts players ps; induction ps as [|particle ps IH];
    intros vs g i p Hnth Hnan.
  - destruct i; discriminate.
  - simpl. destruct vs as [|velocity vs]; [exists p; split; assumption|].
    pose proof (Basic_updateParticle_nan h o ts players particle velocity g) as Hhead.
    destruct (Basic.updateParticle h o ts players particle velocity g)
      as [[[particle1 velocity1] g1]|[[particle1 velocity1] g1]].
    + specialize (IH vs g1).
      destruct (Basic.updateParticles h o ts players ps vs g1)
        as [[[ps2 vs2] g2]|[[ps2 vs2] g2]];
        (destruct i as [|i]; simpl in *;
         [injection Hnth as ->; exists particle1;
          split; [reflexivity | now apply Hhead]
         | now apply IH with (p := p)]).
    + destruct i as [|i]; simpl in *.
      * injection Hnth as ->. exists particle1.
        split; [reflexivity | now apply Hhead].
      * exists p. split; assumption.
Qed.

Lemma Prismatic_updateParticles_nan :
  forall h o ts players n ps k vs cs vc g i p,
    nth_error ps i = Some p -> is_nan (Vec.x p) = true ->
    exists p',
      nth_error (fst (fst (fst (written
        (Prismatic.updateParticles h o ts players n k ps vs cs vc g))))) i = Some p'
      /\ is_nan (Vec.x p') = true.
Proof.
  intros h o ts players n ps; induction ps as [|particle ps IH];
    intros k vs cs vc g i p Hnth Hnan.
  - destruct i; discriminate.
  - simpl. destruct vs as [|velocity vs]; [exists p; split; assumption|].
    destruct cs as [|color cs]; [exists p; split; assumption|].
    pose proof (Prismatic_updateParticle_nan h o ts players n k particle velocity
                  color vc g) as Hhead.
    destruct (Prismatic.updateParticle h o ts players n k particle velocity color vc g)
      as [[[[particle1 velocity1] vc1] g1]|[[[particle1 velocity1] vc1] g1]].
    + specialize (IH (S k) vs cs vc1 g1).
      destruct (Prismatic.updateParticles h o ts players n (S k) ps vs cs vc1 g1)
        as [[[[ps2 vs2] vc2] g2]|[[[ps2 vs2] vc2] g2]];
        (destruct i as [|i]; simpl in *;
         [injection Hnth as ->; exists particle1;
          split; [reflexivity | now apply Hhead]
         | now apply IH with (p := p)]).
    + destruct i as [|i]; simpl in *.
      * injection Hnth as ->. exists particle1.
        split; [reflexivity | now apply Hhead].
      * exists p. split; assumption.
Qed.

Lemma updatePhysics_nan : forall v h deltaTime s g i,
  nanAt i s -> nanAt i (fst (written (updatePhysics v h deltaTime s g))).
Proof.
  intros v h deltaTime s g i (p & Hnth & Hnan). unfold nanAt.
  destruct v; unfold updatePhysics, Basic.updatePhysics, Prismatic.updatePhysics.
  - pose proof (Basic_updateParticles_nan h (Sim.options s) (timeScale deltaTime)
                  (Sim.players s) (Sim.particles s) (Sim.velocities s) g i p
                  Hnth Hnan) as H.
    destruct (Basic.updateParticles _ _ _ _ _ _ _) as [[[ps vs] g']|[[ps vs] g']];
      exact H.
  - pose proof (Prismatic_updateParticles_nan h (Sim.options s) (timeScale deltaTime)
                  (Sim.players s) (List.length (Sim.particles s)) (Sim.particles s) 0
                  (Sim.velocities s) (Sim.colors s) (Sim.particleVirtualColors s)
                  g i p Hnth Hnan) as H.
    destruct (Prismatic.updateParticles _ _ _ _ _ _ _ _ _ _ _)
      as [[[[ps vs] vc] g']|[[[ps vs] vc] g']]; exact H.
Qed.

(** X5.  A [NaN] position is never repaired.  In both variants, if the
    particle at some index has a [NaN] abscissa, it still has one after any
    number of physics steps, whatever the players, the time step and the
    draws, and whether or not a step throws: the integration keeps the
    [NaN] and the boundary check, which compares the distance with [>],
    does not fire on it. *)
Theorem NaN_position_is_permanent :
  forall (v : Variant) (h : Host) (n : nat) (deltaTime : float) (s : Sim.t)
         (g : Rng) (i : nat),
    nanAt i s -> nanAt i (fst (written (ticks v h n deltaTime s g))).
Proof.
  intros v h n; induction n as [|n IH]; intros deltaTime s g i Hnan; simpl.
  - exact Hnan.
  - pose proof (updatePhysics_nan v h deltaTime s g i Hnan) as H1.
    destruct (updatePhysics v h deltaTime s g) as [[s1 g1]|[s1 g1]];
      [now apply IH | exact H1].
Qed.

Lemma NaN_position_is_permanent_witness :
  let s := Sim.with_pool [Vec.mk 1 2; Vec.mk nan 0] [Vec.mk 0 0; Vec.mk 1 1] []
             (blank OptionsArg.empty) in
  nanAt 1 s
  /\ nanAt 1 (fst (written (ticks SimplePrism RefHost.host 3 33 s (rngOf [])))).
Proof.
  cbv zeta.
  assert (H : nanAt 1 (Sim.with_pool [Vec.mk 1 2; Vec.mk nan 0]
                         [Vec.mk 0 0; Vec.mk 1 1] [] (blank OptionsArg.empty))).
  { exists (Vec.mk nan 0). split; reflexivity. }
  split; [exact H|].
  apply (NaN_position_is_permanent SimplePrism RefHost.host 3 33 _ (rngOf []) 1%nat H).
Defined.

(** X6.  The pool is fixed between resets: any number of physics steps,
    thrown or not, leaves the number of particles and of velocities, the
    colours, the options and the player registry as they were. *)
Theorem ticks_keep_the_pool :
  forall (v : Variant) (h : Host) (n : nat) (deltaTime : float) (s : Sim.t) (g : Rng),
    let s' := fst (written (ticks v h n deltaTime s g)) in
    List.length (Sim.particles s') = List.length (Sim.particles s)
    /\ List.length (Sim.velocities s') = List.length (Sim.velocities s)
    /\ Sim.colors s' = Sim.colors s
    /\ Sim.options s' = Sim.options s
    /\ Sim.players s' = Sim.players s.
Proof.
  intros v h n; induction n as [|n IH]; intros deltaTime s g; simpl.
  - repeat split.
  - pose proof (updatePhysics_length v h deltaTime s g) as H1. cbv zeta in H1.
    destruct (updatePhysics v h deltaTime s g) as [[s1 g1]|[s1 g1]]; simpl in H1.
    + specialize (IH deltaTime s1 g1). cbv zeta in IH.
      destruct H1 as (H1 & H2 & H3 & H4 & H5).
      destruct IH as (I1 & I2 & I3 & I4 & I5).
      repeat split; congruence.
    + exact H1.
Qed.

Lemma Prismatic_is_Basic_without_players : forall h o ts n ps k vs cs vc g,
  List.length cs = List.length ps ->
  Prismatic.updateParticles h o ts [] n k ps vs cs vc g
  = match Basic.updateParticles h o ts [] ps vs g with
    | Normal (ps', vs', g') => Normal (ps', vs', vc, g')
    | Throw (ps', vs', g') => Throw (ps', vs', vc, g')
    end.
Proof.
  intros h o ts n ps; induction ps as [|particle ps IH];
    intros k vs cs vc g Hlen; simpl.
  - reflexivity.
  - destruct vs as [|velocity vs]; [reflexivity|].
    destruct cs as [|color cs]; [discriminate|].
    unfold Prismatic.updateParticle, Basic.updateParticle.
    cbn [Registry.values map each].
    destruct (boundary h o _ _ g) as [[particle1 velocity1] g1].
    rewrite IH by (simpl in Hlen; congruence).
    destruct (Basic.updateParticles h o ts [] ps vs g1)
      as [[[ps2 vs2] g2]|[[ps2 vs2] g2]]; reflexivity.
Qed.

(** X7.  With nobody connected the two variants are the same program: on a
    simulation without players whose colour array is as long as its particle
    array, the colour-modulated [updatePhysics] returns exactly the state
    and the generator that the simplified one returns, and leaves the
    virtual colours alone. *)
Theorem variants_agree_without_players :
  forall (h : Host) (deltaTime : float) (s : Sim.t) (g : Rng),
    Sim.players s = [] ->
    List.length (Sim.colors s) = List.length (Sim.particles s) ->
    Prismatic.updatePhysics h deltaTime s g = Basic.updatePhysics h deltaTime s g.
Proof.
  intros h deltaTime s g Hnone Hlen.
  unfold Prismatic.updatePhysics, Basic.updatePhysics. rewrite Hnone.
  rewrite Prismatic_is_Basic_without_players by assumption.
  destruct (Basic.updateParticles _ _ _ _ _ _ _) as [[[ps vs] g']|[[ps vs] g']];
    destruct s; reflexivity.
Qed.

Lemma variants_agree_without_players_witness :
  let s := fst (construct ColourPrism RefHost.host
                  (OptionsArg.mk (Some (JS.Num 3)) None None None None None None None)
                  (rngOf [0.9; 0.04])) in
  Sim.players s = []
  /\ List.length (Sim.colors s) = List.length (Sim.particles s)
  /\ Prismatic.updatePhysics RefHost.host 33 s (rngOf [])
     = Basic.updatePhysics RefHost.host 33 s (rngOf []).
Proof.
  cbv zeta. split; [reflexivity|]. split; [reflexivity|].
  apply variants_agree_without_players; reflexivity.
Defined.

End StepInvariants.

(** ** Starting, stopping, resetting *)

Lemma initParticles_keeps : forall v h s g,
  let s' := fst (initParticles v h s g) in
  Sim.players s' = Sim.players s
  /\ Sim.running s' = Sim.running s
  /\ Sim.lastUpdateTime s' = Sim.lastUpdateTime s
  /\ Sim.simulationTime s' = Sim.simulationTime s
  /\ Sim.particleVirtualColors s' = Sim.particleVirtualColors s.
Proof.
  intros v h s g; cbv zeta.
  destruct v; unfold initParticles, Basic.initParticles, Prismatic.initParticles.
  - destruct (Basic.placeAll _ _ _ _) as [[ps vs] g']. repeat split.
  - destruct (Prismatic.placeAll _ _ _ _) as [[[ps vs] cs] g']. repeat split.
Qed.

Lemma stopSimulation_keeps : forall s,
  Sim.running (stopSimulation s) = false
  /\ Sim.players (stopSimulation s) = Sim.players s
  /\ Sim.options (stopSimulation s) = Sim.options s
  /\ Sim.particleVirtualColors (stopSimulation s) = Sim.particleVirtualColors s.
Proof.
  intros s. unfold stopSimulation. destruct (Sim.running s) eqn:E; simpl; auto.
Qed.

Lemma resetSimulation_facts :
  forall (v : Variant) (h : Host) (now : Z) (s : Sim.t) (g : Rng),
    let s' := fst (resetSimulation v h now s g) in
    Sim.running s' = true
    /\ Sim.lastUpdateTime s' = now
    /\ Sim.simulationTime s' = 0%float
    /\ Sim.options s' = Sim.options s
    /\ Sim.players s' = Sim.players s.
Proof.
  intros v h now s g; cbv zeta.
  unfold resetSimulation in *.
  pose proof (initParticles_keeps v h (stopSimulation s) g) as Hk. cbv zeta in Hk.
  pose proof (initParticles_options v h (stopSimulation s) g) as Ho.
  destruct (initParticles v h (stopSimulation s) g) as [s1 g1]. simpl in *.
  destruct Hk as (Hp & Hr & _ & _ & _).
  destruct (stopSimulation_keeps s) as (Hr0 & Hp0 & Ho0 & _).
  unfold startSimulation in *. simpl in *. rewrite Hr, Hr0 in *. simpl in *.
  repeat split; congruence.
Qed.

(** X8.  [resetSimulation] always leaves the simulation running, also when
    it was stopped before, with the simulation time back at [0] and the
    timer's clock restarted at the time of the call.  It refills the pool to
    [options.particleCount] rounded up (for a count that an array can hold),
    keeps the options and every registered player, and keeps the virtual
    colour array as it is: the classes drawn for the old particles go on
    applying to the new particles at the same indices. *)
Theorem resetSimulation_restarts :
  forall (v : Variant) (h : Host) (now : Z) (s : Sim.t) (g : Rng),
    let s' := fst (resetSimulation v h now s g) in
    Sim.running s' = true
    /\ Sim.lastUpdateTime s' = now
    /\ Sim.simulationTime s' = 0%float
    /\ (fits (JS.ToNumber (Options.particleCount (Sim.options s))) ->
        List.length (Sim.particles s')
        = JS.iterations (JS.ToNumber (Options.particleCount (Sim.options s)))
        /\ roundedUp (JS.ToNumber (Options.particleCount (Sim.options s)))
                     (List.length (Sim.particles s')))
    /\ Sim.options s' = Sim.options s
    /\ Sim.players s' = Sim.players s
    /\ Sim.particleVirtualColors s' = Sim.particleVirtualColors s.
Proof.
  intros v h now s g; cbv zeta.
  pose proof (resetSimulation_facts v h now s g) as Hf. cbv zeta in Hf.
  destruct Hf as (Hrun & Hlast & Htime & Hopt & Hpl).
  pose proof (resetSimulation_length v h now s g) as Hlen. cbv zeta in Hlen.
  split; [assumption|]. split; [assumption|]. split; [assumption|].
  split.
  { intros _. split; [exact (proj1 Hlen)|].
    rewrite (proj1 Hlen). apply iterations_roundedUp. }
  split; [assumption|]. split; [assumption|].
  unfold resetSimulation.
  pose proof (initParticles_keeps v h (stopSimulation s) g) as Hk. cbv zeta in Hk.
  destruct (initParticles v h (stopSimulation s) g) as [s1 g1]. simpl in *.
  destruct Hk as (_ & _ & _ & _ & Hvc).
  destruct (stopSimulation_keeps s) as (_ & _ & _ & Hvc0).
  unfold startSimulation. destruct s1 as [o ps vs cs pl [|] t st vc]; simpl in *;
    congruence.
Qed.

Lemma resetSimulation_restarts_witness :
  let s := blank (OptionsArg.mk (Some (JS.Num 2.5)) None None None None None None None) in
  fits (JS.ToNumber (Options.particleCount (Sim.options s)))
  /\ List.length
       (Sim.particles (fst (resetSimulation SimplePrism RefHost.host 5 s (rngOf []))))
     = 3%nat.
Proof.
  cbv zeta.
  assert (H : fits (JS.ToNumber
                      (Options.particleCount
                         (Sim.options
                            (blank (OptionsArg.mk (Some (JS.Num 2.5)) None None None
                                      None None None None)))))) by reflexivity.
  split; [exact H|].
  exact (proj1 (proj1 (proj2 (proj2 (proj2
           (resetSimulation_restarts SimplePrism RefHost.host 5
              (blank (OptionsArg.mk (Some (JS.Num 2.5)) None None None None None None None))
              (rngOf []))))) H)).
Defined.

(** X9.  Starting twice is starting once, and the second call does not
    restart the timer's clock; stopping twice is stopping once; and a
    simulation that is started and then stopped is not running. *)
Theorem start_stop_idempotent :
  forall (s : Sim.t) (now1 now2 : Z),
    startSimulation now2 (startSimulation now1 s) = startSimulation now1 s
    /\ stopSimulation (stopSimulation s) = stopSimulation s
    /\ Sim.running (stopSimulation (startSimulation now1 s)) = false
    /\ Sim.running (startSimulation now1 (stopSimulation s)) = true.
Proof.
  intros s now1 now2. unfold startSimulation, stopSimulation.
  destruct s as [o ps vs cs pl [|] t st vc]; simpl; repeat split.
Qed.

(** ** Invariants of the running server *)

Section ServerInvariants.

Variable v : Variant.
Variable h : Host.

Lemma findPlayer_in_keys : forall ws (m : Registry.t Channel) p,
  Server.findPlayer ws m = Some p -> In p (Registry.keys m).
Proof.
  intros ws m; induction m as [|[k c] m IH]; intros p H; simpl in *; [discriminate|].
  destruct (Nat.eqb c ws); [injection H as ->; now left | right; now apply IH].
Qed.

Lemma findPlayer_in_values : forall ws (m : Registry.t Channel) p,
  Server.findPlayer ws m = Some p -> In ws (Registry.values m).
Proof.
  intros ws m; induction m as [|[k c] m IH]; intros p H; simpl in *; [discriminate|].
  destruct (Nat.eqb_spec c ws); [now left | right; now apply IH with p].
Qed.

Lemma resetSimulation_players : forall now s g,
  Sim.players (fst (resetSimulation v h now s g)) = Sim.players s.
Proof.
  intros now s g.
  pose proof (resetSimulation_facts v h now s g) as H. cbv zeta in H. tauto.
Qed.

Lemma ascending_snoc : forall l k,
  ascending l -> Forall (fun k' => (k' < k)%N) l -> ascending (l ++ [k]).
Proof.
  unfold ascending. induction l as [|a l IH]; intros k Hs Hall; simpl.
  - repeat constructor.
  - inversion Hs; subst. inversion Hall; subst.
    constructor; [now apply IH|].
    apply Forall_app. split; [assumption | repeat constructor; assumption].
Qed.

Lemma open_inSync : forall ws s, inSync s -> inSync (Server.open ws s).
Proof.
  intros ws s (Hkeys & Hasc & Hall). unfold Server.open, addPlayer. cbv zeta.
  unfold inSync, Server.broadcastPlayerList, Server.broadcast, Server.send.
  cbn [Server.players Server.physicsSimulation Server.nextPlayerId Server.with_wire
       Server.with_simulation Server.with_players Server.with_nextPlayerId
       Sim.players Sim.with_players].
  rewrite Registry_set_above by exact Hall.
  rewrite Registry_set_above by (rewrite <- Hkeys; exact Hall).
  unfold Registry.keys in *. rewrite !map_app. simpl.
  split; [now rewrite Hkeys|]. split.
  - now apply ascending_snoc.
  - apply Forall_app. split.
    + eapply Forall_impl; [|exact Hall]. simpl. intros; lia.
    + repeat constructor. lia.
Qed.

Lemma update_keeps_keys : forall (m : Registry.t Player.t) p pl,
  ascending (Registry.keys m) ->
  Registry.get p m <> None ->
  Registry.keys (Registry.set p pl m) = Registry.keys m.
Proof. intros. now apply Registry_keys_set_present. Qed.

Lemma message_inSync : forall ws raw now s,
  inSync s -> inSync (Server.message v h ws raw now s).
Proof.
  intros ws raw now s Hs. unfold Server.message.
  destruct raw as [data|]; [|exact Hs].
  destruct (Server.findPlayer ws (Server.players s)) as [p|]; [|exact Hs].
  destruct Hs as (Hkeys & Hasc & Hall).
  destruct data as [position|params|[count|]|]; try (repeat split; assumption).
  - unfold updatePlayerPosition.
    destruct (Registry.get p (Sim.players (Server.physicsSimulation s))) eqn:Hget;
      unfold inSync; simpl; (split; [|split; assumption]).
    + rewrite update_keeps_keys; [exact Hkeys | now rewrite <- Hkeys | congruence].
    + exact Hkeys.
  - unfold updatePlayerParams.
    destruct (Registry.get p (Sim.players (Server.physicsSimulation s))) eqn:Hget;
      unfold inSync; simpl; (split; [|split; assumption]).
    + rewrite update_keeps_keys; [exact Hkeys | now rewrite <- Hkeys | congruence].
    + exact Hkeys.
  - destruct (JS.ToBoolean count); [|repeat split; assumption].
    unfold Server.setParticleCount. cbv zeta.
    pose proof (resetSimulation_players now
                  (Sim.with_options
                     (Options.with_particleCount
                        (JS.Num (JS.Math_min 10000 (JS.Math_max 500 (JS.ToNumber count))))
                        (Sim.options (Server.physicsSimulation s)))
                     (Server.physicsSimulation s)) (Server.rng s)) as Hp.
    destruct (resetSimulation v h now _ (Server.rng s)) as [sim g].
    unfold inSync; simpl in *. rewrite Hp. repeat split; assumption.
Qed.

Lemma close_inSync : forall ws s, inSync s -> inSync (Server.close ws s).
Proof.
  intros ws s Hs. unfold Server.close.
  destruct (Server.findPlayer ws (Server.players s)) as [p|] eqn:Hfind; [|exact Hs].
  destruct Hs as (Hkeys & Hasc & Hall). cbv zeta.
  pose proof (findPlayer_in_keys ws _ p Hfind) as Hin.
  unfold removePlayer.
  cbn [Server.physicsSimulation Server.with_players].
  destruct (Registry.get p (Sim.players (Server.physicsSimulation s))) eqn:Hget.
  - unfold inSync; simpl. rewrite !Registry_keys_delete, <- Hkeys.
    split; [reflexivity|]. split.
    + now apply removeKey_ascending.
    + now apply removeKey_Forall.
  - exfalso. rewrite Hkeys in Hin. apply Registry_get_in_keys in Hin. congruence.
Qed.

Lemma physicsTimer_inSync : forall now startTime endTime s,
  inSync s -> inSync (Server.physicsTimer v h now startTime endTime s).
Proof.
  intros now startTime endTime s Hs. unfold Server.physicsTimer. cbv zeta.
  destruct (Sim.running _); [|exact Hs].
  pose proof (updatePhysics_length v h
                (JS.of_Z (now - Sim.lastUpdateTime (Server.physicsSimulation s)))
                (Server.physicsSimulation s) (Server.rng s)) as Hp.
  cbv zeta in Hp.
  destruct Hs as (Hkeys & Hasc & Hall).
  destruct (updatePhysics v h _ _ _) as [[sim g]|[sim g]]; simpl in Hp;
    destruct Hp as (_ & _ & _ & _ & Hp);
    unfold inSync; simpl; rewrite Hp; repeat split; assumption.
Qed.

Lemma broadcastTimer_inSync : forall now s,
  inSync s -> inSync (Server.broadcastTimer now s).
Proof.
  intros now s Hs. unfold Server.broadcastTimer. cbv zeta.
  destruct (_ <? _)%Z; exact Hs.
Qed.

Lemma handle_inSync : forall e s, inSync s -> inSync (Server.handle v h e s).
Proof.
  intros [ws|ws raw now|ws|now startTime endTime|now] s Hs; simpl.
  - now apply open_inSync.
  - now apply message_inSync.
  - now apply close_inSync.
  - now apply physicsTimer_inSync.
  - now apply broadcastTimer_inSync.
Qed.

Lemma run_inSync : forall es s, inSync s -> inSync (Server.run v h es s).
Proof.
  unfold Server.run. induction es as [|e es IH]; intros s Hs; simpl; [exact Hs|].
  apply IH. now apply handle_inSync.
Qed.

Lemma boot_inSync : forall a now g, inSync (Server.boot v h a now g).
Proof.
  intros a now g. unfold Server.boot, construct.
  pose proof (initParticles_keeps v h (blank a) g) as Hk. cbv zeta in Hk.
  destruct (initParticles v h (blank a) g) as [sim g']. simpl in Hk.
  destruct Hk as (Hp & _).
  unfold inSync; simpl.
  assert (Hs : Sim.players (startSimulation now sim) = [])
    by (unfold startSimulation; destruct (Sim.running sim); simpl; exact Hp).
  rewrite Hs. repeat split; constructor.
Qed.

(** X10.  Whatever happens to the server after it has started, the ids in
    its connection map are exactly the ids registered in the simulation, in
    the same ascending order, without repetition, and all of them are below
    the next id to be handed out: every connected channel has its gravity
    well, and no gravity well outlives its connection. *)
Theorem server_registries_in_sync :
  forall (a : OptionsArg.t) (now : Z) (g : Rng) (es : list Server.Event),
    let s := Server.run v h es (Server.boot v h a now g) in
    Registry.keys (Server.players s)
    = Registry.keys (Sim.players (Server.physicsSimulation s))
    /\ ascending (Registry.keys (Server.players s))
    /\ Forall (fun k => (k < Server.nextPlayerId s)%N) (Registry.keys (Server.players s)).
Proof.
  intros a now g es. apply run_inSync, boot_inSync.
Qed.

End ServerInvariants.

(** ** Ids, frames and channels *)

Section ServerTraffic.

Variable v : Variant.
Variable h : Host.

Lemma idsIssued_app : forall w1 w2, idsIssued (w1 ++ w2) = idsIssued w1 ++ idsIssued w2.
Proof. intros w1 w2. unfold idsIssued. apply flat_map_app. Qed.

Lemma idsIssued_broadcast : forall (f : Frame) (cs : list Channel),
  (forall id, f <> IdFrame id) ->
  idsIssued (map (fun ws => (ws, f)) cs) = [].
Proof.
  intros f cs Hf. induction cs as [|c cs IH]; [reflexivity|].
  unfold idsIssued in *. simpl. rewrite IH.
  destruct f; try reflexivity. exfalso. now apply (Hf id).
Qed.

Local Abbreviation idsInOrder s :=
  (ascending (idsIssued (Server.wire s))
   /\ Forall (fun k => N.lt k (Server.nextPlayerId s)) (idsIssued (Server.wire s))).

(** A handler that hands out no id: the counter stays and what it writes
    holds no [id] frame. *)
Local Abbreviation handsOutNothing s s' :=
  (Server.nextPlayerId s' = Server.nextPlayerId s
   /\ exists w, Server.wire s' = Server.wire s ++ w /\ idsIssued w = []).

Lemma nothing_refl : forall s, handsOutNothing s s.
Proof. intros s. split; [reflexivity|]. exists []. now rewrite app_nil_r. Qed.

Lemma nothing_broadcast : forall f s s0,
  (forall id, f <> IdFrame id) ->
  Server.nextPlayerId s0 = Server.nextPlayerId s ->
  Server.wire s0 = Server.wire s ->
  handsOutNothing s (Server.broadcast f s0).
Proof.
  intros f s s0 Hf Hn Hw. unfold Server.broadcast. simpl. split; [exact Hn|].
  eexists. rewrite Hw. split; [reflexivity|]. now apply idsIssued_broadcast.
Qed.

Lemma message_hands_out_nothing : forall ws raw now s,
  handsOutNothing s (Server.message v h ws raw now s).
Proof.
  intros ws raw now s. unfold Server.message.
  destruct raw as [data|]; [|apply nothing_refl].
  destruct (Server.findPlayer ws (Server.players s)) as [p|]; [|apply nothing_refl].
  destruct data as [position|params|[count|]|]; try apply nothing_refl.
  - destruct (updatePlayerPosition _ _ _) as [b sim].
    apply nothing_broadcast; [discriminate | reflexivity | reflexivity].
  - destruct (updatePlayerParams _ _ _) as [b sim].
    apply nothing_broadcast; [discriminate | reflexivity | reflexivity].
  - destruct (JS.ToBoolean count); [|apply nothing_refl].
    unfold Server.setParticleCount. cbv zeta.
    destruct (resetSimulation _ _ _ _ _) as [sim g].
    apply nothing_broadcast; [discriminate | reflexivity | reflexivity].
Qed.

Lemma close_hands_out_nothing : forall ws s, handsOutNothing s (Server.close ws s).
Proof.
  intros ws s. unfold Server.close.
  destruct (Server.findPlayer ws (Server.players s)) as [p|]; [|apply nothing_refl].
  cbv zeta. destruct (removePlayer _ _) as [b sim].
  apply nothing_broadcast; [discriminate | reflexivity | reflexivity].
Qed.

Lemma physicsTimer_hands_out_nothing : forall now startTime endTime s,
  handsOutNothing s (Server.physicsTimer v h now startTime endTime s).
Proof.
  intros now startTime endTime s. unfold Server.physicsTimer. cbv zeta.
  destruct (Sim.running _); [|apply nothing_refl].
  destruct (updatePhysics _ _ _ _ _) as [[sim g]|[sim g]]; simpl;
    (split; [reflexivity|]; exists []; now rewrite app_nil_r).
Qed.

Lemma broadcastTimer_hands_out_nothing : forall now s,
  handsOutNothing s (Server.broadcastTimer now s).
Proof.
  intros now s. unfold Server.broadcastTimer. cbv zeta.
  destruct (_ <? _)%Z;
    apply nothing_broadcast; try discriminate; reflexivity.
Qed.

Lemma nothing_keeps_order : forall s s',
  handsOutNothing s s' -> idsInOrder s -> idsInOrder s'.
Proof.
  intros s s' (Hn & w & Hw & Hids) (Hasc & Hall).
  rewrite Hw, idsIssued_app, Hids, app_nil_r, Hn. split; assumption.
Qed.

Lemma open_keeps_order : forall ws s, idsInOrder s -> idsInOrder (Server.open ws s).
Proof.
  intros ws s (Hasc & Hall). unfold Server.open. cbv zeta.
  destruct (addPlayer _ _ _) as [record sim].
  unfold Server.broadcastPlayerList, Server.broadcast, Server.send.
  cbn [Server.wire Server.with_wire Server.with_simulation Server.with_players
       Server.with_nextPlayerId Server.nextPlayerId Server.players].
  rewrite !idsIssued_app, idsIssued_broadcast by discriminate.
  cbn. rewrite !app_nil_r. split.
  - now apply ascending_snoc.
  - apply Forall_app. split.
    + eapply Forall_impl; [|exact Hall]. simpl. intros; lia.
    + repeat constructor. lia.
Qed.

Lemma handle_keeps_order : forall e s,
  idsInOrder s -> idsInOrder (Server.handle v h e s).
Proof.
  intros [ws|ws raw now|ws|now startTime endTime|now] s Hs; simpl.
  - now apply open_keeps_order.
  - eapply nothing_keeps_order; [apply message_hands_out_nothing | exact Hs].
  - eapply nothing_keeps_order; [apply close_hands_out_nothing | exact Hs].
  - eapply nothing_keeps_order; [apply physicsTimer_hands_out_nothing | exact Hs].
  - eapply nothing_keeps_order; [apply broadcastTimer_hands_out_nothing | exact Hs].
Qed.

(** X11.  Ids are handed out in strictly increasing order and never twice:
    whatever happens to the server after it has started, the ids carried by
    the [id] frames it has written, in the order of writing, are strictly
    ascending, and all are below the counter. *)
Theorem ids_are_never_reused :
  forall (a : OptionsArg.t) (now : Z) (g : Rng) (es : list Server.Event),
    let s := Server.run v h es (Server.boot v h a now g) in
    ascending (idsIssued (Server.wire s))
    /\ Forall (fun k => (k < Server.nextPlayerId s)%N) (idsIssued (Server.wire s)).
Proof.
  intros a now g es; cbv zeta. unfold Server.run.
  assert (H0 : idsInOrder (Server.boot v h a now g)).
  { unfold Server.boot. destruct (construct v h a g) as [sim g']. simpl.
    split; constructor. }
  revert H0. generalize (Server.boot v h a now g).
  induction es as [|e es IH]; intros s Hs; simpl; [exact Hs|].
  apply IH. now apply handle_keeps_order.
Qed.

(** *** A channel that is not connected *)

Lemma values_set_incl : forall (A : Type) (m : Registry.t A) k c x,
  In x (Registry.values (Registry.set k c m)) -> x = c \/ In x (Registry.values m).
Proof.
  intros A m; induction m as [|[k0 c0] m IH]; intros k c x; simpl.
  - intros [H|[]]; auto.
  - destruct (k =? k0)%N; simpl; [intuition|].
    destruct (k <? k0)%N; simpl; [intuition|].
    intros [H|H]; [auto|]. apply IH in H. intuition.
Qed.

Lemma values_delete_incl : forall (A : Type) (m : Registry.t A) k x,
  In x (Registry.values (Registry.delete k m)) -> In x (Registry.values m).
Proof.
  intros A m; induction m as [|[k0 c0] m IH]; intros k x; simpl; [auto|].
  destruct (k0 =? k)%N; simpl; [auto|]. intros [H|H]; [auto | right; eauto].
Qed.

Lemma delivered_broadcast_absent : forall ws f s s0,
  ~ In ws (Registry.values (Server.players s0)) ->
  Server.wire s0 = Server.wire s ->
  Server.delivered ws (Server.broadcast f s0) = Server.delivered ws s.
Proof.
  intros ws f s s0 Hout Hw. unfold Server.delivered, Server.broadcast. simpl.
  rewrite Hw, filter_app, map_app.
  replace (filter _ (map _ _)) with (@nil (Channel * Frame)); [now rewrite app_nil_r|].
  symmetry. induction (Registry.values (Server.players s0)) as [|c cs IH];
    [reflexivity|].
  simpl in *. destruct (Nat.eqb_spec c ws) as [->|Hne]; [exfalso; auto|].
  apply IH. auto.
Qed.

Lemma handle_skips_unconnected : forall e ws s,
  ~ In ws (Registry.values (Server.players s)) ->
  e <> Server.Open ws ->
  Server.delivered ws (Server.handle v h e s) = Server.delivered ws s
  /\ ~ In ws (Registry.values (Server.players (Server.handle v h e s))).
Proof.
  intros [ws'|ws' raw now|ws'|now startTime endTime|now] ws s Hout Hne; simpl.
  - assert (Hws : ws' <> ws) by congruence.
    unfold Server.open. cbv zeta. destruct (addPlayer _ _ _) as [record sim].
    unfold Server.broadcastPlayerList.
    assert (Hout' : ~ In ws (Registry.values
                      (Registry.set (Server.nextPlayerId s) ws' (Server.players s)))).
    { intros Hin. apply values_set_incl in Hin. destruct Hin; [congruence | auto]. }
    split; [|exact Hout'].
    unfold Server.broadcast, Server.send, Server.delivered. simpl.
    rewrite !filter_app, !map_app. simpl.
    destruct (Nat.eqb_spec ws' ws); [congruence|]. simpl. rewrite !app_nil_r.
    replace (filter _ (map _ _)) with (@nil (Channel * Frame));
      [now rewrite app_nil_r|].
    symmetry.
    induction (Registry.values
                 (Registry.set (Server.nextPlayerId s) ws' (Server.players s)))
      as [|c cs IH]; [reflexivity|].
    simpl in *. destruct (Nat.eqb_spec c ws) as [->|Hc]; [exfalso; auto|].
    apply IH. auto.
  - unfold Server.message.
    destruct raw as [data|]; [|split; [reflexivity | exact Hout]].
    destruct (Server.findPlayer ws' (Server.players s)) as [p|];
      [|split; [reflexivity | exact Hout]].
    destruct data as [position|params|[count|]|];
      try (split; [reflexivity | exact Hout]).
    + destruct (updatePlayerPosition _ _ _) as [b sim].
      split; [now apply delivered_broadcast_absent | exact Hout].
    + destruct (updatePlayerParams _ _ _) as [b sim].
      split; [now apply delivered_broadcast_absent | exact Hout].
    + destruct (JS.ToBoolean count); [|split; [reflexivity | exact Hout]].
      unfold Server.setParticleCount. cbv zeta.
      destruct (resetSimulation _ _ _ _ _) as [sim g].
      split; [now apply delivered_broadcast_absent | exact Hout].
  - unfold Server.close.
    destruct (Server.findPlayer ws' (Server.players s)) as [p|];
      [|split; [reflexivity | exact Hout]].
    cbv zeta. destruct (removePlayer _ _) as [b sim].
    assert (Hout' : ~ In ws (Registry.values (Registry.delete p (Server.players s))))
      by (intros Hin; apply values_delete_incl in Hin; auto).
    split; [now apply delivered_broadcast_absent | exact Hout'].
  - unfold Server.physicsTimer. cbv zeta.
    destruct (Sim.running _); [|split; [reflexivity | exact Hout]].
    destruct (updatePhysics _ _ _ _ _) as [[sim g]|[sim g]];
      (split; [reflexivity | exact Hout]).
  - unfold Server.broadcastTimer. cbv zeta.
    destruct (_ <? _)%Z; (split; [now apply delivered_broadcast_absent | exact Hout]).
Qed.

(** X12.  The server writes to connected channels only.  As long as a
    channel is not in the connection map and does not open, nothing is
    written to it, whatever the other channels and the timers do: it gets no
    player list, no relayed update, no system message and no state frame. *)
Theorem unconnected_channel_gets_nothing :
  forall (es : list Server.Event) (s : Server.t) (ws : Channel),
    ~ In ws (Registry.values (Server.players s)) ->
    Forall (fun e => e <> Server.Open ws) es ->
    Server.delivered ws (Server.run v h es s) = Server.delivered ws s
    /\ ~ In ws (Registry.values (Server.players (Server.run v h es s))).
Proof.
  unfold Server.run. induction es as [|e es IH]; intros s ws Hout Hes; simpl.
  - split; [reflexivity | exact Hout].
  - inversion Hes as [|? ? He Hes']; subst.
    destruct (handle_skips_unconnected e ws s Hout He) as [Hd Hout'].
    destruct (IH (Server.handle v h e s) ws Hout' Hes') as [Hd' Hout''].
    split; [now rewrite Hd', Hd | exact Hout''].
Qed.

End ServerTraffic.

Lemma unconnected_channel_gets_nothing_witness :
  let s := smallServer SimplePrism in
  let es := [Server.Open 8%nat; Server.BroadcastTimer 250;
             Server.Message 8%nat (Some (UpdatePosition (Some (Vec.mk 1 2)))) 260;
             Server.Close 8%nat] in
  ~ In 9%nat (Registry.values (Server.players s))
  /\ Forall (fun e => e <> Server.Open 9%nat) es
  /\ Server.delivered 9%nat (Server.run SimplePrism RefHost.host es s)
     = Server.delivered 9%nat s.
Proof.
  cbv zeta.
  assert (H1 : ~ In 9%nat (Registry.values (Server.players (smallServer SimplePrism)))).
  { vm_compute. intros [H|[]]. discriminate. }
  assert (H2 : Forall (fun e => e <> Server.Open 9%nat)
                 [Server.Open 8%nat; Server.BroadcastTimer 250;
                  Server.Message 8%nat (Some (UpdatePosition (Some (Vec.mk 1 2)))) 260;
                  Server.Close 8%nat]).
  { repeat constructor; discriminate. }
  split; [exact H1|]. split; [exact H2|].
  exact (proj1 (unconnected_channel_gets_nothing SimplePrism RefHost.host _ _ 9%nat
                  H1 H2)).
Defined.

Section ServerMessages.

Variable v : Variant.
Variable h : Host.

(** X13.  On a server reached from its start by any events, the sender of
    a message on a connected channel has a record in the simulation, and an
    [updatePosition] or [updateParams] message is relayed to every connected
    channel, the sender included: one [playerUpdate] frame each, carrying
    the sender's id and, for a position, the position alone as received
    (also when it is missing), for parameters, the parameters as received.
    The connection map does not change.  The sender's record takes the
    received position and keeps its other fields (resp. takes every field
    that the parameters hold and keeps the others); the records of the
    other players and the rest of the simulation stay as they were. *)
Theorem player_update_is_relayed_to_all :
  forall (a : OptionsArg.t) (now0 : Z) (g : Rng) (es : list Server.Event)
         (ws : Channel) (p : N) (now : Z),
    let s := Server.run v h es (Server.boot v h a now0 g) in
    let sim := Server.physicsSimulation s in
    Server.findPlayer ws (Server.players s) = Some p ->
    let to_all (f : Frame) :=
      map (fun c => (c, f)) (Registry.values (Server.players s)) in
    In ws (Registry.values (Server.players s))
    /\ exists pl : Player.t,
        Registry.get p (Sim.players sim) = Some pl
        /\ (forall position : option Vec.t,
               let s' := Server.message v h ws (Some (UpdatePosition position)) now s in
               let sim' := Server.physicsSimulation s' in
               Server.wire s'
               = Server.wire s
                   ++ to_all (PlayerUpdateFrame p
                                (Params.mk (Some position) None None None None None))
               /\ Server.players s' = Server.players s
               /\ Registry.get p (Sim.players sim')
                  = Some {| Player.position := position;
                            Player.gravityStrength := Player.gravityStrength pl;
                            Player.prismRadius := Player.prismRadius pl;
                            Player.lensingStrength := Player.lensingStrength pl;
                            Player.prismStrength := Player.prismStrength pl;
                            Player.prismDispersion := Player.prismDispersion pl |}
               /\ (forall id', id' <> p ->
                     Registry.get id' (Sim.players sim')
                     = Registry.get id' (Sim.players sim))
               /\ Sim.with_players (Sim.players sim) sim' = sim)
        /\ (forall params : Params.t,
               let s' := Server.message v h ws (Some (UpdateParams params)) now s in
               let sim' := Server.physicsSimulation s' in
               Server.wire s' = Server.wire s ++ to_all (PlayerUpdateFrame p params)
               /\ Server.players s' = Server.players s
               /\ Registry.get p (Sim.players sim')
                  = Some {| Player.position :=
                              match Params.position params with
                              | Some position => position
                              | None => Player.position pl
                              end;
                            Player.gravityStrength :=
                              match Params.gravityStrength params with
                              | Some n => n | None => Player.gravityStrength pl end;
                            Player.prismRadius :=
                              match Params.prismRadius params with
                              | Some n => n | None => Player.prismRadius pl end;
                            Player.lensingStrength :=
                              match Params.lensingStrength params with
                              | Some n => n | None => Player.lensingStrength pl end;
                            Player.prismStrength :=
                              match Params.prismStrength params with
                              | Some n => n | None => Player.prismStrength pl end;
                            Player.prismDispersion :=
                              match Params.prismDispersion params with
                              | Some n => Some n
                              | None => Player.prismDispersion pl
                              end |}
               /\ (forall id', id' <> p ->
                     Registry.get id' (Sim.players sim')
                     = Registry.get id' (Sim.players sim))
               /\ Sim.with_players (Sim.players sim) sim' = sim).
Proof.
  intros a now0 g es ws p now; cbv zeta.
  pose proof (run_inSync v h es _ (boot_inSync v h a now0 g)) as Hs.
  set (s := Server.run v h es (Server.boot v h a now0 g)) in *.
  intros Hfind.
  split; [now apply findPlayer_in_values with p|].
  destruct Hs as (Hkeys & _ & _).
  pose proof (findPlayer_in_keys ws _ p Hfind) as Hin.
  rewrite Hkeys in Hin. apply Registry_get_in_keys in Hin.
  destruct (Registry.get p (Sim.players (Server.physicsSimulation s)))
    as [pl|] eqn:Hget; [|congruence].
  exists pl. split; [reflexivity|]. split.
  - intros position. unfold Server.message, updatePlayerPosition.
    rewrite Hfind, Hget.
    cbn [Server.broadcastPlayerUpdate Server.broadcast Server.wire Server.players
         Server.physicsSimulation Server.with_simulation Server.with_wire
         Sim.players Sim.with_players].
    split; [reflexivity|]. split; [reflexivity|].
    split; [apply Registry_get_set_same|].
    split; [intros id' Hne; apply Registry_get_set_other; congruence|].
    destruct (Server.physicsSimulation s); reflexivity.
  - intros params. unfold Server.message, updatePlayerParams.
    rewrite Hfind, Hget.
    cbn [Server.broadcastPlayerUpdate Server.broadcast Server.wire Server.players
         Server.physicsSimulation Server.with_simulation Server.with_wire
         Sim.players Sim.with_players].
    split; [reflexivity|]. split; [reflexivity|].
    split; [apply Registry_get_set_same|].
    split; [intros id' Hne; apply Registry_get_set_other; congruence|].
    destruct (Server.physicsSimulation s); reflexivity.
Qed.

(** X14.  On a server reached from its start by any events: a connection
    adds exactly one player, whose id is the counter's value, and every
    connected channel, the new one included, is sent the new player list; a
    disconnection of a connected channel removes exactly one player, whose
    id is then in neither registry, and the remaining channels are sent the
    shortened list. *)
Theorem player_list_follows_connections :
  forall (a : OptionsArg.t) (now : Z) (g : Rng) (es : list Server.Event) (ws : Channel),
    let s := Server.run v h es (Server.boot v h a now g) in
    (let s' := Server.open ws s in
     Registry.keys (Server.players s')
     = Registry.keys (Server.players s) ++ [Server.nextPlayerId s]
     /\ In ws (Registry.values (Server.players s'))
     /\ exists w,
         Server.wire s'
         = w ++ map (fun c => (c, PlayersFrame (Registry.keys (Server.players s'))))
                    (Registry.values (Server.players s')))
    /\ (forall p : N,
           Server.findPlayer ws (Server.players s) = Some p ->
           let s' := Server.close ws s in
           List.length (Registry.keys (Server.players s'))
           = pred (List.length (Registry.keys (Server.players s)))
           /\ ~ In p (Registry.keys (Server.players s'))
           /\ ~ In p (Registry.keys (Sim.players (Server.physicsSimulation s')))
           /\ Server.wire s'
              = Server.wire s
                  ++ map (fun c => (c, PlayersFrame (Registry.keys (Server.players s'))))
                         (Registry.values (Server.players s'))).
Proof.
  intros a now g es ws; cbv zeta.
  pose proof (run_inSync v h es _ (boot_inSync v h a now g)) as Hs.
  set (s := Server.run v h es (Server.boot v h a now g)) in *.
  split.
  - destruct Hs as (Hkeys & Hasc & Hall).
    unfold Server.open, addPlayer. cbv zeta.
    unfold Server.broadcastPlayerList, Server.broadcast, Server.send.
    cbn [Server.players Server.with_wire Server.with_simulation Server.with_players
         Server.with_nextPlayerId Server.wire].
    rewrite Registry_set_above by exact Hall.
    split; [|split].
    + unfold Registry.keys. now rewrite map_app.
    + unfold Registry.values. rewrite map_app. apply in_or_app. right. now left.
    + eexists. reflexivity.
  - intros p Hfind.
    pose proof (close_inSync ws s Hs) as Hs'.
    destruct Hs as (Hkeys & Hasc & Hall).
    destruct Hs' as (Hkeys' & _ & _).
    pose proof (findPlayer_in_keys ws _ p Hfind) as Hin.
    assert (Hplayers : Server.players (Server.close ws s)
                       = Registry.delete p (Server.players s)).
    { unfold Server.close. rewrite Hfind. cbv zeta.
      destruct (removePlayer _ _) as [b sim]. reflexivity. }
    assert (Hwire : Server.wire (Server.close ws s)
                    = Server.wire s
                        ++ map (fun c => (c, PlayersFrame
                                   (Registry.keys (Registry.delete p (Server.players s)))))
                               (Registry.values (Registry.delete p (Server.players s)))).
    { unfold Server.close. rewrite Hfind. cbv zeta.
      destruct (removePlayer _ _) as [b sim]. reflexivity. }
    rewrite <- Hkeys', Hplayers, Registry_keys_delete.
    split; [now apply removeKey_length|].
    split; [now apply removeKey_gone|].
    split; [now apply removeKey_gone|].
    rewrite Hwire, Registry_keys_delete. reflexivity.
Qed.

End ServerMessages.

Lemma player_update_is_relayed_to_all_witness :
  let s := Server.run SimplePrism RefHost.host [Server.Open 7%nat; Server.Open 8%nat]
             (Server.boot SimplePrism RefHost.host
                (OptionsArg.mk (Some (JS.Num 3)) None None None None None None None)
                0 (rngOf [])) in
  Server.findPlayer 8%nat (Server.players s) = Some 2%N
  /\ In 8%nat (Registry.values (Server.players s)).
Proof.
  cbv zeta. split; [reflexivity|].
  exact (proj1 (player_update_is_relayed_to_all SimplePrism RefHost.host
                  (OptionsArg.mk (Some (JS.Num 3)) None None None None None None None)
                  0 (rngOf []) [Server.Open 7%nat; Server.Open 8%nat] 8%nat 2%N 100
                  eq_refl)).
Defined.

Lemma player_list_follows_connections_witness :
  let s := Server.run SimplePrism RefHost.host [Server.Open 7%nat; Server.Open 8%nat]
             (Server.boot SimplePrism RefHost.host
                (OptionsArg.mk (Some (JS.Num 3)) None None None None None None None)
                0 (rngOf [])) in
  Server.findPlayer 7%nat (Server.players s) = Some 1%N
  /\ List.length (Registry.keys (Server.players (Server.close 7%nat s)))
     = pred (List.length (Registry.keys (Server.players s))).
Proof.
  cbv zeta. split; [reflexivity|].
  exact (proj1 (proj2 (player_list_follows_connections SimplePrism RefHost.host
                         (OptionsArg.mk (Some (JS.Num 3)) None None None None None None None)
                         0 (rngOf []) [Server.Open 7%nat; Server.Open 8%nat] 7%nat)
                  1%N eq_refl)).
Defined.

Section ServerMessages2.

Variable v : Variant.
Variable h : Host.

(** X15.  No cross-player mutation: whatever a channel sends, the records
    of the players other than the sender stay as they are in the
    simulation.  A client can move or retune its own gravity well only. *)
Theorem message_touches_only_the_sender :
  forall (s : Server.t) (ws : Channel) (raw : option Data) (now : Z) (other : N),
    Server.findPlayer ws (Server.players s) <> Some other ->
    Registry.get other
      (Sim.players (Server.physicsSimulation (Server.message v h ws raw now s)))
    = Registry.get other (Sim.players (Server.physicsSimulation s)).
Proof.
  intros s ws raw now other Hother. unfold Server.message.
  destruct raw as [data|]; [|reflexivity].
  destruct (Server.findPlayer ws (Server.players s)) as [p|]; [|reflexivity].
  assert (Hne : p <> other) by congruence.
  destruct data as [position|params|[count|]|]; try reflexivity.
  - unfold updatePlayerPosition.
    destruct (Registry.get p (Sim.players (Server.physicsSimulation s)));
      [|reflexivity].
    simpl. now apply Registry_get_set_other.
  - unfold updatePlayerParams.
    destruct (Registry.get p (Sim.players (Server.physicsSimulation s)));
      [|reflexivity].
    simpl. now apply Registry_get_set_other.
  - destruct (JS.ToBoolean count); [|reflexivity].
    unfold Server.setParticleCount. cbv zeta.
    pose proof (resetSimulation_players v h now
                  (Sim.with_options
                     (Options.with_particleCount
                        (JS.Num (JS.Math_min 10000 (JS.Math_max 500 (JS.ToNumber count))))
                        (Sim.options (Server.physicsSimulation s)))
                     (Server.physicsSimulation s)) (Server.rng s)) as Hp.
    destruct (resetSimulation v h now _ (Server.rng s)) as [sim g].
    simpl in *. now rewrite Hp.
Qed.


Lemma lastFullUpdateTime_moved_by_timer_only : forall e s,
  (forall now, e <> Server.BroadcastTimer now) ->
  Server.lastFullUpdateTime (Server.handle v h e s) = Server.lastFullUpdateTime s.
Proof.
  intros [ws|ws raw now|ws|now startTime endTime|now] s He;
    cbn [Server.handle].
  - unfold Server.open. cbv zeta. destruct (addPlayer _ _ _) as [record sim].
    reflexivity.
  - unfold Server.message.
    destruct raw as [data|]; [|reflexivity].
    destruct (Server.findPlayer ws (Server.players s)) as [p|]; [|reflexivity].
    destruct data as [position|params|[count|]|]; try reflexivity.
    + destruct (updatePlayerPosition _ _ _) as [b sim]. reflexivity.
    + destruct (updatePlayerParams _ _ _) as [b sim]. reflexivity.
    + destruct (JS.ToBoolean count); [|reflexivity].
      unfold Server.setParticleCount. cbv zeta.
      destruct (resetSimulation _ _ _ _ _) as [sim g]. reflexivity.
  - unfold Server.close.
    destruct (Server.findPlayer ws (Server.players s)) as [p|]; [|reflexivity].
    cbv zeta. destruct (removePlayer _ _) as [b sim]. reflexivity.
  - unfold Server.physicsTimer. cbv zeta.
    destruct (Sim.running _); [|reflexivity].
    destruct (updatePhysics _ _ _ _ _) as [[sim g]|[sim g]]; reflexivity.
  - exfalso. now apply (He now).
Qed.

(** X17.  The cadence of full broadcasts.  Only the broadcast timer moves
    the time of the last full broadcast: connections (whose [fullState]
    frame is out of band), messages, disconnections and physics steps leave
    it alone.  So after the timer has sent a full state at time [now],
    whatever else happens, a firing less than [FULL_UPDATE_INTERVAL]
    milliseconds later sends [particleUpdate] frames. *)
Theorem full_broadcasts_are_spaced :
  forall (s : Server.t) (now : Z) (es : list Server.Event) (later : Z),
    (Server.FULL_UPDATE_INTERVAL <= now - Server.lastFullUpdateTime s)%Z ->
    Forall (fun e => forall t, e <> Server.BroadcastTimer t) es ->
    (later - now < Server.FULL_UPDATE_INTERVAL)%Z ->
    let s1 := Server.run v h es (Server.broadcastTimer now s) in
    Server.lastFullUpdateTime s1 = now
    /\ Server.wire (Server.broadcastTimer later s1)
       = Server.wire s1
           ++ map (fun c => (c, ParticleUpdateFrame
                                  (Sim.particles (Server.physicsSimulation s1))
                                  (Sim.simulationTime (Server.physicsSimulation s1))
                                  (Some (Server.perfMetrics s1))))
                  (Registry.values (Server.players s1)).
Proof.
  intros s now es later Hfull Hes Hsoon; cbv zeta.
  assert (Hlast : Server.lastFullUpdateTime
                    (Server.run v h es (Server.broadcastTimer now s)) = now).
  { assert (H0 : Server.lastFullUpdateTime (Server.broadcastTimer now s) = now).
    { unfold Server.broadcastTimer. cbv zeta.
      destruct (Z.ltb_spec (now - Server.lastFullUpdateTime s)
                  Server.FULL_UPDATE_INTERVAL); [lia | reflexivity]. }
    revert H0. generalize (Server.broadcastTimer now s). unfold Server.run.
    induction es as [|e es IH]; intros s0 H0; simpl; [exact H0|].
    inversion Hes as [|? ? He Hes']; subst.
    apply IH; [exact Hes'|].
    now rewrite lastFullUpdateTime_moved_by_timer_only. }
  split; [exact Hlast|].
  unfold Server.broadcastTimer at 1. cbv zeta. rewrite Hlast.
  destruct (Z.ltb_spec (later - now) Server.FULL_UPDATE_INTERVAL); [reflexivity | lia].
Qed.

End ServerMessages2.

Lemma message_touches_only_the_sender_witness :
  let s := Server.open 8%nat (smallServer SimplePrism) in
  Server.findPlayer 8%nat (Server.players s) <> Some 1%N
  /\ Registry.get 1
       (Sim.players (Server.physicsSimulation
          (Server.message SimplePrism RefHost.host 8%nat
             (Some (UpdatePosition (Some (Vec.mk 5 6)))) 100 s)))
     = Registry.get 1 (Sim.players (Server.physicsSimulation s)).
Proof.
  cbv zeta.
  assert (H : Server.findPlayer 8%nat
                (Server.players (Server.open 8%nat (smallServer SimplePrism)))
              <> Some 1%N) by (vm_compute; discriminate).
  split; [exact H|].
  exact (message_touches_only_the_sender SimplePrism RefHost.host _ 8%nat
           (Some (UpdatePosition (Some (Vec.mk 5 6)))) 100 1%N H).
Defined.


Lemma full_broadcasts_are_spaced_witness :
  let s := smallServer SimplePrism in
  let es := [Server.Open 8%nat; Server.PhysicsTimer 260 0 1] in
  (Server.FULL_UPDATE_INTERVAL <= 250 - Server.lastFullUpdateTime s)%Z
  /\ Forall (fun e => forall t, e <> Server.BroadcastTimer t) es
  /\ (330 - 250 < Server.FULL_UPDATE_INTERVAL)%Z
  /\ Server.lastFullUpdateTime
       (Server.run SimplePrism RefHost.host es (Server.broadcastTimer 250 s)) = 250%Z.
Proof.
  cbv zeta.
  assert (H1 : (Server.FULL_UPDATE_INTERVAL
                <= 250 - Server.lastFullUpdateTime (smallServer SimplePrism))%Z)
    by (vm_compute; discriminate).
  assert (H2 : Forall (fun e => forall t, e <> Server.BroadcastTimer t)
                 [Server.Open 8%nat; Server.PhysicsTimer 260 0 1])
    by (repeat constructor; discriminate).
  assert (H3 : (330 - 250 < Server.FULL_UPDATE_INTERVAL)%Z) by reflexivity.
  split; [exact H1|]. split; [exact H2|]. split; [exact H3|].
  exact (proj1 (full_broadcasts_are_spaced SimplePrism RefHost.host _ 250 _ 330
                  H1 H2 H3)).
Defined.

(** ** The creation of the virtual colour array *)






(** ** The chat revision *)

Section ChatFacts.

(** Every connected player has a text; the ids of the connection map are in
    ascending order and below the counter. *)
Local Abbreviation chatOk s :=
  ((forall p, In p (Registry.keys (Chat.players s)) ->
              Registry.get p (Chat.playerMessages s) <> None)
   /\ ascending (Registry.keys (Chat.players s))
   /\ Forall (fun k => N.lt k (Chat.nextPlayerId s)) (Registry.keys (Chat.players s))).

Lemma chat_open_ok : forall ws s, chatOk s -> chatOk (Chat.open ws s).
Proof.
  intros ws s (Htext & Hasc & Hall). unfold Chat.open. cbv zeta.
  unfold Chat.broadcastPlayerList, Chat.broadcast, Chat.send. simpl.
  rewrite Registry_set_above by exact Hall.
  unfold Registry.keys in *. rewrite map_app. simpl. split; [|split].
  - intros p Hin. apply in_app_or in Hin. destruct Hin as [Hin|[<-|[]]].
    + destruct (N.eq_dec (Chat.nextPlayerId s) p) as [->|Hne].
      * rewrite Registry_get_set_same. discriminate.
      * rewrite Registry_get_set_other by assumption. now apply Htext.
    + rewrite Registry_get_set_same. discriminate.
  - now apply ascending_snoc.
  - apply Forall_app. split.
    + eapply Forall_impl; [|exact Hall]. simpl. intros; lia.
    + repeat constructor. lia.
Qed.

Lemma chat_message_ok : forall ws raw s, chatOk s -> chatOk (Chat.message ws raw s).
Proof.
  intros ws raw s Hs. unfold Chat.message.
  destruct raw as [[[p|] text|]|]; try exact Hs.
  destruct (p =? 0)%N; [exact Hs|].
  destruct Hs as (Htext & Hasc & Hall). simpl. split; [|split; assumption].
  intros q Hin. destruct (N.eq_dec p q) as [->|Hne].
  - rewrite Registry_get_set_same. discriminate.
  - rewrite Registry_get_set_other by assumption. now apply Htext.
Qed.

Lemma chat_close_ok : forall ws s, chatOk s -> chatOk (Chat.close ws s).
Proof.
  intros ws s Hs. unfold Chat.close.
  destruct (Server.findPlayer ws (Chat.players s)) as [p|]; [|exact Hs].
  destruct Hs as (Htext & Hasc & Hall). simpl.
  rewrite Registry_keys_delete. split; [|split].
  - intros q Hin.
    assert (Hq : q <> p)
      by (intros ->; now apply (removeKey_gone p _ Hasc)).
    rewrite Registry_get_delete_other by congruence.
    apply Htext. eapply removeKey_incl, Hin.
  - now apply removeKey_ascending.
  - now apply removeKey_Forall.
Qed.

(** X19.  In the chat revision, whatever the clients do, every connected
    player has an entry in [playerMessages]: a connection creates it, a
    disconnection deletes it together with the connection, and a message
    only ever adds or replaces entries. *)
Theorem chat_connected_players_have_a_text :
  forall (es : list Chat.Event) (p : N),
    let s := Chat.run es Chat.initial in
    In p (Registry.keys (Chat.players s)) ->
    Registry.get p (Chat.playerMessages s) <> None.
Proof.
  intros es p; cbv zeta.
  assert (H : chatOk (Chat.run es Chat.initial)).
  { unfold Chat.run.
    assert (H0 : chatOk Chat.initial)
      by (simpl; split; [intros q [] | split; constructor]).
    revert H0. generalize Chat.initial.
    induction es as [|e es IH]; intros s Hs; simpl; [exact Hs|].
    apply IH. destruct e as [ws|ws raw|ws]; simpl.
    - now apply chat_open_ok.
    - now apply chat_message_ok.
    - now apply chat_close_ok. }
  destruct H as (Htext & _). apply Htext.
Qed.


(** X21.  A text set for an id that is not connected is not cleaned up by
    the disconnection of anybody else: it stays in [playerMessages], the
    table that every [allMessages] frame carries. *)
Theorem chat_ghost_text_survives :
  forall (s : Chat.t) (ws : Channel) (ghost : N) (text : string),
    Registry.get ghost (Chat.playerMessages s) = Some text ->
    Server.findPlayer ws (Chat.players s) <> Some ghost ->
    Registry.get ghost (Chat.playerMessages (Chat.close ws s)) = Some text.
Proof.
  intros s ws ghost text Hget Hws. unfold Chat.close.
  destruct (Server.findPlayer ws (Chat.players s)) as [p|]; [|exact Hget].
  simpl. rewrite Registry_get_delete_other; [exact Hget | congruence].
Qed.

End ChatFacts.

Lemma chat_connected_players_have_a_text_witness :
  let es := [Chat.Open 7%nat; Chat.Open 8%nat;
             Chat.Message 8%nat (Some (Chat.MessageData (Some 1%N) "hello"));
             Chat.Close 8%nat] in
  In 1%N (Registry.keys (Chat.players (Chat.run es Chat.initial)))
  /\ Registry.get 1 (Chat.playerMessages (Chat.run es Chat.initial)) <> None.
Proof.
  cbv zeta.
  assert (H : In 1%N (Registry.keys (Chat.players (Chat.run
                [Chat.Open 7%nat; Chat.Open 8%nat;
                 Chat.Message 8%nat (Some (Chat.MessageData (Some 1%N) "hello"));
                 Chat.Close 8%nat] Chat.initial)))) by (left; reflexivity).
  split; [exact H|].
  exact (chat_connected_players_have_a_text _ 1%N H).
Defined.


Lemma chat_ghost_text_survives_witness :
  let s := Chat.message 7%nat (Some (Chat.MessageData (Some 5%N) "hi"))
             (Chat.open 7%nat Chat.initial) in
  Registry.get 5 (Chat.playerMessages s) = Some "hi"%string
  /\ Server.findPlayer 7%nat (Chat.players s) <> Some 5%N
  /\ Registry.get 5 (Chat.playerMessages (Chat.close 7%nat s)) = Some "hi"%string.
Proof.
  cbv zeta. split; [reflexivity|].
  assert (H : Server.findPlayer 7%nat
                (Chat.players (Chat.message 7%nat
                   (Some (Chat.MessageData (Some 5%N) "hi"))
                   (Chat.open 7%nat Chat.initial))) <> Some 5%N)
    by (vm_compute; discriminate).
  split; [exact H|].
  exact (chat_ghost_text_survives
           (Chat.message 7%nat (Some (Chat.MessageData (Some 5%N) "hi"))
              (Chat.open 7%nat Chat.initial))
           7%nat 5%N "hi"%string eq_refl H).
Defined.

(** ** The simulation of the running server *)

Section ServerSimulation.

Variable v : Variant.
Variable h : Host.










Lemma each_throws : forall (A B : Type) (body : A -> B -> Completion A) (b : B)
                           (l : list B),
  (forall a, returns (body a b) = false) ->
  In b l ->
  forall a, returns (each body l a) = false.
Proof.
  intros A B body b l Hb; induction l as [|b' l IH]; intros Hin a; [destruct Hin|].
  simpl. destruct (body a b') as [a'|a'] eqn:E; [|reflexivity].
  destruct Hin as [->|Hin]; [|now apply IH].
  specialize (Hb a). rewrite E in Hb. discriminate.
Qed.

Lemma Basic_updateParticle_throws :
  forall o ts players particle velocity g player,
    In player (Registry.values players) ->
    Player.position player = None ->
    exists velocity',
      Basic.updateParticle h o ts players particle velocity g
      = Throw (particle, velocity', g).
Proof.
  intros o ts players particle velocity g player Hin Hpos.
  unfold Basic.updateParticle.
  pose proof (each_throws _ _ (Basic.applyPlayer ts particle) player
                (Registry.values players)) as H.
  specialize (H (fun a => ltac:(unfold Basic.applyPlayer; rewrite Hpos; reflexivity))
                Hin (centralGravity o ts particle velocity)).
  destruct (each _ _ _) as [velocity'|velocity']; [discriminate H|].
  now exists velocity'.
Qed.

Lemma Prismatic_updateParticle_throws :
  forall o ts players n i particle velocity color vc g player,
    In player (Registry.values players) ->
    Player.position player = None ->
    exists velocity' g',
      Prismatic.updateParticle h o ts players n i particle velocity color vc g
      = Throw (particle, velocity', vc, g').
Proof.
  intros o ts players n i particle velocity color vc g player Hin Hpos.
  unfold Prismatic.updateParticle.
  pose proof (each_throws _ _ (Prismatic.disperse ts particle color) player
                (Registry.values players)) as H.
  specialize (H (fun a => ltac:(unfold Prismatic.disperse; destruct a;
                                rewrite Hpos; reflexivity))
                Hin (velocity, g)).
  destruct (each _ _ _) as [[velocity' g']|[velocity' g']]; [discriminate H|].
  now exists velocity', g'.
Qed.

(** With a player that has no position and a pool that is not empty, the
    step throws at the first particle, before any position is written. *)
Lemma updatePhysics_throws : forall deltaTime s g player,
  In player (Registry.values (Sim.players s)) ->
  Player.position player = None ->
  Sim.particles s <> [] -> Sim.velocities s <> [] ->
  (v = ColourPrism -> Sim.colors s <> []) ->
  exists sim' g',
    updatePhysics v h deltaTime s g = Throw (sim', g')
    /\ Sim.particles sim' = Sim.particles s
    /\ Sim.simulationTime sim' = Sim.simulationTime s
    /\ Sim.lastUpdateTime sim' = Sim.lastUpdateTime s.
Proof.
  intros deltaTime s g player Hin Hpos Hps Hvs Hcs.
  destruct (Sim.particles s) as [|particle ps] eqn:Eps; [congruence|].
  destruct (Sim.velocities s) as [|velocity vs] eqn:Evs; [congruence|].
  destruct v; unfold updatePhysics, Basic.updatePhysics, Prismatic.updatePhysics;
    rewrite Eps, Evs.
  - cbn [Basic.updateParticles].
    destruct (Basic_updateParticle_throws (Sim.options s) (timeScale deltaTime)
                (Sim.players s) particle velocity g player Hin Hpos)
      as (velocity' & ->).
    eexists _, _. split; [reflexivity|]. repeat split.
  - destruct (Sim.colors s) as [|color cs] eqn:Ecs; [now destruct Hcs|].
    cbn [Prismatic.updateParticles].
    destruct (Prismatic_updateParticle_throws (Sim.options s) (timeScale deltaTime)
                (Sim.players s) (List.length (particle :: ps)) 0 particle velocity
                color (Sim.particleVirtualColors s) g player Hin Hpos)
      as (velocity' & g' & ->).
    eexists _, _. split; [reflexivity|]. repeat split.
Qed.

(** X25.  A player without a position stalls the simulation.  On a server
    whose simulation is running with a pool that is not empty, once a
    registered player has no position (an [updatePosition] message without
    one is enough), a firing of the simulation's timer throws inside
    [updatePhysics] at the first particle: no particle moves, the simulation
    time and the timer's clock stay where they were, the update counter and
    the metrics are not touched, and nothing is written to any connection. *)
Theorem missing_position_stalls_the_simulation :
  forall (s : Server.t) (now : Z) (startTime endTime : float) (k : N)
         (player : Player.t),
    let sim := Server.physicsSimulation s in
    Sim.running sim = true ->
    Sim.particles sim <> [] ->
    Sim.velocities sim <> [] ->
    (v = ColourPrism -> Sim.colors sim <> []) ->
    Registry.get k (Sim.players sim) = Some player ->
    Player.position player = None ->
    let s' := Server.physicsTimer v h now startTime endTime s in
    let sim' := Server.physicsSimulation s' in
    returns (updatePhysics v h (JS.of_Z (now - Sim.lastUpdateTime sim)) sim
               (Server.rng s)) = false
    /\ Sim.particles sim' = Sim.particles sim
    /\ Sim.simulationTime sim' = Sim.simulationTime sim
    /\ Sim.lastUpdateTime sim' = Sim.lastUpdateTime sim
    /\ Sim.players sim' = Sim.players sim
    /\ Server.updateCount s' = Server.updateCount s
    /\ Server.lastPhysicsTime s' = Server.lastPhysicsTime s
    /\ Server.avgPhysicsTime s' = Server.avgPhysicsTime s
    /\ Server.players s' = Server.players s
    /\ Server.wire s' = Server.wire s.
Proof.
  intros s now startTime endTime k player; cbv zeta.
  intros Hrun Hps Hvs Hcs Hget Hpos.
  unfold Server.physicsTimer. cbv zeta. rewrite Hrun.
  pose proof (updatePhysics_length v h
                (JS.of_Z (now - Sim.lastUpdateTime (Server.physicsSimulation s)))
                (Server.physicsSimulation s) (Server.rng s)) as Hk.
  cbv zeta in Hk.
  destruct (updatePhysics_throws
              (JS.of_Z (now - Sim.lastUpdateTime (Server.physicsSimulation s)))
              (Server.physicsSimulation s) (Server.rng s) player
              (Registry_get_in_values _ _ _ _ Hget) Hpos Hps Hvs Hcs)
    as (sim' & g' & E & H1 & H2 & H3).
  rewrite E in *. simpl in Hk. destruct Hk as (_ & _ & _ & _ & Hpl).
  simpl. repeat split; assumption.
Qed.

End ServerSimulation.

Lemma missing_position_stalls_the_simulation_witness :
  let s := Server.message SimplePrism RefHost.host 7%nat (Some (UpdatePosition None)) 20
             (smallServer SimplePrism) in
  let sim := Server.physicsSimulation s in
  Sim.running sim = true
  /\ Sim.particles sim <> []
  /\ Sim.velocities sim <> []
  /\ (exists player,
         Registry.get 1 (Sim.players sim) = Some player
         /\ Player.position player = None)
  /\ Server.updateCount (Server.physicsTimer SimplePrism RefHost.host 36 0 1 s)
     = Server.updateCount s.
Proof.
  cbv zeta.
  set (s := Server.message SimplePrism RefHost.host 7%nat (Some (UpdatePosition None)) 20
              (smallServer SimplePrism)).
  assert (H1 : Sim.running (Server.physicsSimulation s) = true) by reflexivity.
  assert (H2 : Sim.particles (Server.physicsSimulation s) <> [])
    by (vm_compute; discriminate).
  assert (H3 : Sim.velocities (Server.physicsSimulation s) <> [])
    by (vm_compute; discriminate).
  assert (H4 : SimplePrism = ColourPrism -> Sim.colors (Server.physicsSimulation s) <> [])
    by discriminate.
  destruct (Registry.get 1 (Sim.players (Server.physicsSimulation s)))
    as [player|] eqn:Hget; [|vm_compute in Hget; discriminate].
  assert (H5 : Player.position player = None).
  { vm_compute in Hget. injection Hget as <-. reflexivity. }
  split; [exact H1|]. split; [exact H2|]. split; [exact H3|].
  split; [exists player; split; [reflexivity | exact H5]|].
  exact (proj1 (proj2 (proj2 (proj2 (proj2 (proj2
           (missing_position_stalls_the_simulation SimplePrism RefHost.host s 36 0 1
              1%N player H1 H2 H3 H4 Hget H5))))))).
Defined.


(** ** Players that are not numbers *)

Section NaNPlayers.

Local Open Scope float_scope.

Lemma sub_nan_l : forall a b, is_nan a = true -> is_nan (a - b) = true.
Proof.
  intros a b Ha. apply nan_is_nan. rewrite sub_spec, (is_nan_Prim2SF a Ha). reflexivity.
Qed.

(** X23.  In the variant with the simplified prism, a player whose position
    has a [NaN] coordinate pulls on nothing: the distance to every particle
    is [NaN], the guard [playerDist > 0.1] fails, and the particle's velocity
    is left as it was. *)
Theorem NaN_player_pulls_nothing :
  forall (ts : float) (particle velocity : Vec.t) (player : Player.t)
         (position : Vec.t),
    Player.position player = Some position ->
    is_nan (Vec.x position) = true \/ is_nan (Vec.y position) = true ->
    Basic.applyPlayer ts particle velocity player = Normal velocity.
Proof.
  intros ts particle velocity player position Hpos H.
  unfold Basic.applyPlayer. rewrite Hpos. cbv zeta.
  rewrite ltb_nan_r; [reflexivity|].
  unfold JS.Math_sqrt. apply sqrt_nan.
  destruct H as [H|H].
  - now apply add_nan_l, mul_nan_l, sub_nan_l.
  - now apply add_nan_r, mul_nan_l, sub_nan_l.
Qed.

End NaNPlayers.

Lemma NaN_player_pulls_nothing_witness :
  let player :=
    fst (addPlayer 1 (Params.mk (Some (Some (Vec.mk nan 0))) None None None None None)
           (blank OptionsArg.empty)) in
  Player.position player = Some (Vec.mk nan 0)
  /\ (is_nan (Vec.x (Vec.mk nan 0)) = true \/ is_nan (Vec.y (Vec.mk nan 0)) = true)
  /\ Basic.applyPlayer 1 (Vec.mk 3 4) (Vec.mk 1 1) player = Normal (Vec.mk 1 1).
Proof.
  cbv zeta.
  assert (H : is_nan (Vec.x (Vec.mk nan 0)) = true
              \/ is_nan (Vec.y (Vec.mk nan 0)) = true)
    by (left; reflexivity).
  split; [reflexivity|]. split; [exact H|].
  exact (NaN_player_pulls_nothing 1 (Vec.mk 3 4) (Vec.mk 1 1)
           (fst (addPlayer 1
                   (Params.mk (Some (Some (Vec.mk nan 0))) None None None None None)
                   (blank OptionsArg.empty)))
           (Vec.mk nan 0) eq_refl H).
Defined.

(** ** The options of a constructed simulation *)

Lemma or_else_truthy : forall a d,
  JS.truthy d = true -> JS.truthy (JS.or_else a d) = true.
Proof.
  intros [v|] d Hd; simpl; [|exact Hd].
  destruct (JS.truthy v) eqn:E; [exact E | exact Hd].
Qed.

(** X24.  Whatever is passed to the constructor, no option of the
    simulation is [0] or [NaN] (and [particleCount] is truthy): the [||]
    defaulting replaces such a value by the default, so that, for example,
    gravity or damping cannot be switched off with a zero. *)
Theorem constructed_options_are_truthy :
  forall (v : Variant) (h : Host) (a : OptionsArg.t) (g : Rng),
    let o := Sim.options (fst (construct v h a g)) in
    JS.ToBoolean (Options.particleCount o) = true
    /\ JS.truthy (Options.particleSpread o) = true
    /\ JS.truthy (Options.initialSpeed o) = true
    /\ JS.truthy (Options.velocityDamping o) = true
    /\ JS.truthy (Options.gravityStrength o) = true
    /\ JS.truthy (Options.updateRate o) = true
    /\ JS.truthy (Options.maxPlayers o) = true
    /\ JS.truthy (Options.prismRadius o) = true.
Proof.
  intros v h a g; cbv zeta. unfold construct.
  rewrite (initParticles_options v h (blank a) g).
  unfold blank, defaultOptions; cbn [Sim.options Options.particleCount
    Options.particleSpread Options.initialSpeed Options.velocityDamping
    Options.gravityStrength Options.updateRate Options.maxPlayers
    Options.prismRadius].
  split.
  - unfold JS.or_default. destruct (OptionsArg.particleCount a) as [n|]; [|reflexivity].
    destruct (JS.ToBoolean n) eqn:E; [exact E | reflexivity].
  - repeat split; apply or_else_truthy; reflexivity.
Qed.
